(** * Community booking model with follow-up appointments

    A shallow embedding of [examples/ex_5_community_follow_up/model_classes.py]:
    the forward diary of a [Scenario], the three booker strategies, the
    patient pathway [PatientReferral.execute], the arrivals generator and the
    simpy event loop that drives them, followed by the properties that the
    specification states about them.

    Conventions of the embedding.
    - Python integers are [Z].  A numpy cell of a fixed width is a [Z] with
      its wrap-around written out ([wrap_uint8], [wrap_int64]).
    - A pandas DataFrame of numbers is a list of rows ([matrix]); the row
      index of [.iat] and of a slice is a [Z] and follows Python's rule for
      negative positions, a column index is a position ([nat]).
    - A raised exception is the [Raised] case of [result]; nothing in the
      source catches an exception, so [Raised] ends a run.
    - The sampling distributions live in [examples/distribution_classes.py],
      which is outside the modelled file: a distribution object is the stream
      of the values its [sample()] returns, with a cursor ([Dist]).
    - Python's module-level [random] generator is a separate stream
      ([random_module]) because the source never seeds it. *)

From Stdlib Require Import ZArith List Lia QArith Bool.
From stdpp Require Import base tactics option list.

Local Open Scope Z_scope.

(** ** Exceptions *)

Inductive Exn : Type := IndexError | ValueError | UnboundLocalError.

Inductive result (A : Type) : Type :=
| Ok (a : A)
| Raised (e : Exn).

Arguments Ok {A} a.
Arguments Raised {A} e.

#[global] Instance result_ret : MRet result := fun A a => Ok a.

#[global] Instance result_bind : MBind result := fun A B k r =>
  match r with
  | Ok a => k a
  | Raised e => Raised e
  end.

(** [o] when it holds a value, the exception [e] otherwise. *)
Definition or_raise {A : Type} (e : Exn) (o : option A) : result A :=
  match o with
  | Some a => Ok a
  | None => Raised e
  end.

(** A program over a state [S]: it returns the state it leaves behind,
    also when it raises, because what a Python statement has already
    written stays written when a later statement fails. *)
Definition Prog (S A : Type) : Type := S -> S * result A.

#[global] Instance prog_ret {S : Type} : MRet (Prog S) :=
  fun A a s => (s, Ok a).

#[global] Instance prog_bind {S : Type} : MBind (Prog S) :=
  fun A B k m s =>
    match m s with
    | (s', Ok a) => k a s'
    | (s', Raised e) => (s', Raised e)
    end.

Definition gets {S A : Type} (f : S -> A) : Prog S A :=
  fun s => (s, Ok (f s)).

Definition modify {S : Type} (f : S -> S) : Prog S unit :=
  fun s => (f s, Ok tt).

Definition lift {S A : Type} (r : result A) : Prog S A :=
  fun s => (s, r).

Definition raise {S A : Type} (e : Exn) : Prog S A :=
  fun s => (s, Raised e).

(** [for x in l: body(x)] *)
Fixpoint for_each {S A : Type} (l : list A) (body : A -> Prog S unit)
  : Prog S unit :=
  match l with
  | [] => mret tt
  | x :: rest => body x;; for_each rest body
  end.

(** An arithmetic operation on two numpy operands of one axis: equal
    lengths pair up, an operand of length one is stretched, anything else
    raises. *)
Definition broadcast {A B C : Type} (f : A -> B -> C) (l : list A)
    (k : list B) : result (list C) :=
  if decide (length l = length k) then Ok (zip_with f l k)
  else
    match l, k with
    | [x], _ => Ok (map (f x) k)
    | _, [y] => Ok (map (fun x => f x y) l)
    | _, _ => Raised ValueError
    end.

(** ** Fixed-width numpy cells *)

(** [np.uint8]: arithmetic modulo 256. *)
Definition wrap_uint8 (x : Z) : Z := x mod 256.

(** [np.int64]: two's complement on 64 bits. *)
Definition wrap_int64 (x : Z) : Z := (x + 2 ^ 63) mod 2 ^ 64 - 2 ^ 63.

(** ** Matrices and positional access *)

Abbreviation matrix := (list (list Z)).

(** A Python position in a sequence of [len] items: [0 .. len-1] count from
    the front, [-len .. -1] from the back, anything else is out of range. *)
Definition norm_index (len : nat) (i : Z) : option nat :=
  if 0 <=? i then
    if i <? Z.of_nat len then Some (Z.to_nat i) else None
  else
    if - Z.of_nat len <=? i then Some (Z.to_nat (Z.of_nat len + i)) else None.

(** The cell at row position [i], column position [j]. *)
Definition cell (m : matrix) (i j : nat) : option Z :=
  match m !! i with
  | Some row => row !! j
  | None => None
  end.

(** [df.iat[r, c]] read. *)
Definition iat (m : matrix) (r : Z) (c : nat) : result Z :=
  or_raise IndexError
    (match norm_index (length m) r with
     | Some i => cell m i c
     | None => None
     end).

(** [df.iat[r, c] = v]. *)
Definition iat_set (m : matrix) (r : Z) (c : nat) (v : Z) : result matrix :=
  match norm_index (length m) r with
  | Some i =>
      match m !! i with
      | Some row =>
          if decide (c < length row)%nat
          then Ok (<[i := <[c := v]> row]> m)
          else Raised IndexError
      | None => Raised IndexError
      end
  | None => Raised IndexError
  end.

(** [a[start:]] on the day axis. *)
Definition slice_from {A : Type} (start : Z) (l : list A) : list A :=
  if 0 <=? start then drop (Z.to_nat start) l
  else drop (Z.to_nat (Z.max 0 (Z.of_nat (length l) + start))) l.

(** [a[:, cols]]: every requested column must exist in every row. *)
Definition take_columns (rows : matrix) (cols : list nat) : result matrix :=
  or_raise IndexError (mapM (fun row => mapM (fun c => row !! c) cols) rows).

(** [a[:, c]] for one column. *)
Definition take_column (rows : matrix) (c : nat) : result (list Z) :=
  or_raise IndexError (mapM (fun row => row !! c) rows).

(** numpy checks an index against the shape of the whole array, also when
    the slice it is applied to has no rows left. *)
Definition columns_in_range (m : matrix) (cols : list nat) : bool :=
  forallb (fun row => forallb (fun c => Nat.ltb c (length row)) cols) m.

(** [a.sum()] of int64 values. *)
Definition sum_int64 (l : list Z) : Z := wrap_int64 (fold_right Z.add 0 l).

(** [np.where(row == 1)[0]]: the positions that hold 1. *)
Fixpoint where_eq_1_from (pos : nat) (row : list Z) : list nat :=
  match row with
  | [] => []
  | x :: rest =>
      if x =? 1 then pos :: where_eq_1_from (S pos) rest
      else where_eq_1_from (S pos) rest
  end.

Definition where_eq_1 (row : list Z) : list nat := where_eq_1_from 0 row.

(** [a[mask]] for a boolean mask of the same length. *)
Fixpoint select_by_mask {A : Type} (l : list A) (mask : list bool) : list A :=
  match l, mask with
  | x :: l', b :: mask' =>
      if b then x :: select_by_mask l' mask' else select_by_mask l' mask'
  | _, _ => []
  end.

(** The position of the first item that satisfies [p]. *)
Fixpoint first_index {A : Type} (p : A -> bool) (l : list A) : option nat :=
  match l with
  | [] => None
  | x :: rest => if p x then Some 0%nat else S <$> first_index p rest
  end.

Definition positive (x : Z) : bool := 0 <? x.

(** ** Module constants *)

Definition ANNUAL_DEMAND : Z := 1500.
Definition LOW_PRIORITY_MIN_WAIT : Z := 7.
Definition HIGH_PRIORITY_MIN_WAIT : Z := 2.
Definition MEAN_FOLLOW_UPS_HIGH_INTENSITY : Z := 10.
Definition MEAN_FOLLOW_UPS_LOW_INTENSITY : Z := 6.
Definition LOW_INTENSITY_FOLLOW_UP_TARGET_INTERVAL : Z := 14.
Definition HIGH_INTENSITY_FOLLOW_UP_TARGET_INTERVAL : Z := 7.
Definition TARGET_HIGH : Z := 5.
Definition TARGET_LOW : Z := 20.
Definition BOOKING_TIME_THRESHOLD : Z := 4 * 7.

(** ** Sampling streams *)

(** A distribution object: [samples k] is what the [k]-th call of
    [sample()] returns, [drawn] counts the calls made so far. *)
Record Dist (A : Type) : Type := mkDist {
  samples : nat -> A;
  drawn : nat
}.

Arguments mkDist {A} samples drawn.
Arguments samples {A} d k.
Arguments drawn {A} d.

Definition sample {A : Type} (d : Dist A) : A * Dist A :=
  (samples d (drawn d), mkDist (samples d) (S (drawn d))).

(** [random.randint(a, b)] on the module-level generator, whose raw output
    is the stream [g]: an empty range raises [ValueError]. *)
Definition randint (g : Dist Z) (a b : Z) : result (Z * Dist Z) :=
  if b <? a then Raised ValueError
  else let '(raw, g') := sample g in Ok (a + raw mod (b - a + 1), g').

(** ** The diary of a scenario *)

Record Diary : Type := mkDiary {
  carve_out_slots : matrix;
  available_slots : matrix;
  bookings : matrix
}.

(** The loop shared by the three constructors:
    [d = tmpl.copy(); for day in range(n): d = pd.concat([d, tmpl.copy()])]. *)
Fixpoint concat_copies {A : Type} (acc tmpl : list A) (n : nat) : list A :=
  match n with
  | O => acc
  | S n' => concat_copies (acc ++ tmpl) tmpl n'
  end.

(** [range(int(run_length*1.5))]: [int] truncates towards zero and a
    negative bound gives an empty range. *)
Definition horizon_rounds (run_length : Z) : nat :=
  Z.to_nat (Z.quot (3 * run_length) 2).

Section ScenarioConstruction.

(** [carve_round x] is the integer [round(x * prop_carve_out)]; the
    floating-point product and rounding are not modelled, only their
    result on each entry of the weekly template. *)
Variable carve_round : Z -> Z.

(** [(capacity_template * prop_carve_out).round().astype(np.uint8)] *)
Definition priority_template (capacity_template : matrix) : matrix :=
  map (map (fun x => wrap_uint8 (carve_round x))) capacity_template.

Definition create_carve_out (run_length : Z) (capacity_template : matrix)
  : matrix :=
  let tmpl := priority_template capacity_template in
  concat_copies tmpl tmpl (horizon_rounds run_length).

(** [capacity_template - priority_template]: int64 minus uint8 is int64. *)
Definition open_template (capacity_template : matrix) : matrix :=
  zip_with (zip_with (fun x p => wrap_int64 (x - p)))
    capacity_template (priority_template capacity_template).

Definition create_slots (run_length : Z) (capacity_template : matrix)
  : matrix :=
  let tmpl := open_template capacity_template in
  concat_copies tmpl tmpl (horizon_rounds run_length).

(** [np.zeros(shape=(5, clinics), dtype=np.uint8)] repeated. *)
Definition create_bookings (run_length : Z) (clinics : nat) : matrix :=
  let tmpl := replicate 5 (replicate clinics 0) in
  concat_copies tmpl tmpl (horizon_rounds run_length).

(** [len(self.weekly_slots.columns)] *)
Definition n_columns (m : matrix) : nat :=
  match m with
  | [] => 0%nat
  | row :: _ => length row
  end.

Definition create_diary (run_length : Z) (weekly_slots : matrix) : Diary :=
  {| carve_out_slots := create_carve_out run_length weekly_slots;
     available_slots := create_slots run_length weekly_slots;
     bookings := create_bookings run_length (n_columns weekly_slots) |}.

End ScenarioConstruction.

(** ** Bookers *)

Inductive BookerKind : Type :=
| LowPriorityPooledBooker
| HighPriorityPooledBooker.

(** A pooled booker object: its class and its mutable [min_wait]. *)
Record Booker : Type := mkBooker {
  kind : BookerKind;
  min_wait : Z
}.

(** [LowPriorityPooledBooker(args)] and [HighPriorityPooledBooker(args)]:
    the first reads the module constant, the second sets the literal 1. *)
Definition new_booker (k : BookerKind) : Booker :=
  match k with
  | LowPriorityPooledBooker => mkBooker k LOW_PRIORITY_MIN_WAIT
  | HighPriorityPooledBooker => mkBooker k 1
  end.

Definition priority (b : Booker) : Z :=
  match kind b with
  | LowPriorityPooledBooker => 1
  | HighPriorityPooledBooker => 2
  end.

(** [RepeatBooker(args, ideal_frequency, clinic_id)] *)
Record RepeatBooker : Type := mkRepeatBooker {
  ideal_frequency : Z;
  clinic_id : nat;
  repeat_min_wait : Z
}.

Definition new_repeat_booker (ideal_frequency : Z) (clinic_id : nat)
  : RepeatBooker :=
  mkRepeatBooker ideal_frequency clinic_id (ideal_frequency - 1).

(** [clinic_options[limit_clinic_choice]].  With the default [None] numpy
    reads the index as [np.newaxis]: the options keep their entries and gain
    a leading axis of length one.  With a list of booleans it is a mask,
    which must be as long as the options. *)
Definition limit_options (clinic_options : list nat)
    (limit_clinic_choice : option (list bool)) : result (list nat) :=
  match limit_clinic_choice with
  | None => Ok clinic_options
  | Some mask =>
      if decide (length mask = length clinic_options)
      then Ok (select_by_mask clinic_options mask)
      else Raised IndexError
  end.

(** [np.where(clinic_slots.sum(axis=1) > 0)[0][0]].  With a mask
    [clinic_slots] has the axes (day, option) and [sum(axis=1)] is the sum of
    a day over the options.  Without one, the extra axis of the options
    makes it (day, 1, option): [sum(axis=1)] adds over the axis of length
    one, the test [> 0] is made entry by entry and [np.where] lists the days
    of the entries that pass, in row order. *)
Definition earliest_day (clinic_slots : matrix)
    (limit_clinic_choice : option (list bool)) : result nat :=
  or_raise IndexError
    (match limit_clinic_choice with
     | None => first_index (existsb positive) clinic_slots
     | Some _ => first_index (fun row => positive (sum_int64 row)) clinic_slots
     end).

(** [clinic_options[clinic_slots[best_t, :] > 0]] *)
Definition options_with_slots (clinic_options : list nat) (row : list Z)
  : list nat :=
  select_by_mask clinic_options (map positive row).

(** [np.where(self.args.pooling_np[clinic_id] == 1)[0]], then the mask. *)
Definition pooled_options (pooling_np : matrix) (clinic_id : nat)
    (limit_clinic_choice : option (list bool)) : result (list nat) :=
  pooled ← or_raise IndexError (pooling_np !! clinic_id);
  limit_options (where_eq_1 pooled) limit_clinic_choice.

(** [slots_np[start:, clinic_options]] *)
Definition window (slots_np : matrix) (start : Z) (clinic_options : list nat)
  : result matrix :=
  if columns_in_range slots_np clinic_options
  then take_columns (slice_from start slots_np) clinic_options
  else Raised IndexError.

(** [priority_slots + public_slots]: uint8 plus int64 is int64. *)
Definition add_slots (priority_slots public_slots : matrix) : result matrix :=
  broadcast (zip_with (fun p a => wrap_int64 (p + a)))
    priority_slots public_slots.

(** From [best_t = ...] to the [return] of a pooled [find_slot]. *)
Definition pick_slot (clinic_slots : matrix) (clinic_options : list nat)
    (g : Dist Z) (min_wait t : Z) (limit_clinic_choice : option (list bool))
  : result (Z * nat * Dist Z) :=
  best_t ← earliest_day clinic_slots limit_clinic_choice;
  row ← or_raise IndexError (clinic_slots !! best_t);
  let candidates := options_with_slots clinic_options row in
  '(clinic_sample, g') ← randint g 0 (Z.of_nat (length candidates) - 1);
  best_clinic_idx ← or_raise IndexError
                      (candidates !! Z.to_nat clinic_sample);
  Ok (Z.of_nat best_t + min_wait + t, best_clinic_idx, g').

(** [find_slot] of the two pooled bookers; [g] is the state of the
    module-level [random] generator. *)
Definition find_slot (b : Booker) (d : Diary) (pooling_np : matrix)
    (g : Dist Z) (t : Z) (clinic_id : nat)
    (limit_clinic_choice : option (list bool))
  : result (Z * nat * Dist Z) :=
  clinic_options ← pooled_options pooling_np clinic_id limit_clinic_choice;
  clinic_slots ←
    match kind b with
    | LowPriorityPooledBooker =>
        window (available_slots d) (t + min_wait b) clinic_options
    | HighPriorityPooledBooker =>
        public_slots ← window (available_slots d) (t + min_wait b)
                         clinic_options;
        priority_slots ← window (carve_out_slots d) (t + min_wait b)
                           clinic_options;
        add_slots priority_slots public_slots
    end;
  pick_slot clinic_slots clinic_options g (min_wait b) t limit_clinic_choice.

(** [x.iat[booking_t, clinic_id] = f(x.iat[booking_t, clinic_id])] *)
Definition iat_update (f : Z -> Z) (m : matrix) (booking_t : Z)
    (clinic_id : nat) : result matrix :=
  v ← iat m booking_t clinic_id;
  iat_set m booking_t clinic_id (f v).

(** [-= 1] on an int64 matrix, [-= 1] and [+= 1] on a uint8 matrix.
    [.iat] reads the cell as a numpy scalar of the column's type, the
    Python literal 1 takes that type, and the result, reduced to the
    width of the type, is written back to the cell. *)
Definition decrement_int64 : matrix -> Z -> nat -> result matrix :=
  iat_update (fun v => wrap_int64 (v - 1)).

Definition decrement_uint8 : matrix -> Z -> nat -> result matrix :=
  iat_update (fun v => wrap_uint8 (v - 1)).

Definition increment_uint8 : matrix -> Z -> nat -> result matrix :=
  iat_update (fun v => wrap_uint8 (v + 1)).

Definition set_carve_out_slots (m : matrix) (d : Diary) : Diary :=
  mkDiary m (available_slots d) (bookings d).

Definition set_available_slots (m : matrix) (d : Diary) : Diary :=
  mkDiary (carve_out_slots d) m (bookings d).

Definition set_bookings (m : matrix) (d : Diary) : Diary :=
  mkDiary (carve_out_slots d) (available_slots d) m.

(** One in-place statement on one of the three matrices. *)
Definition in_place (get : Diary -> matrix) (set : matrix -> Diary -> Diary)
    (op : matrix -> result matrix) : Prog Diary unit :=
  fun d =>
    match op (get d) with
    | Ok m' => (set m' d, Ok tt)
    | Raised e => (d, Raised e)
    end.

(** [LowPriorityPooledBooker.book_slot] *)
Definition book_slot_low (booking_t : Z) (clinic_id : nat) : Prog Diary unit :=
  in_place available_slots set_available_slots
    (fun m => decrement_int64 m booking_t clinic_id);;
  in_place bookings set_bookings
    (fun m => increment_uint8 m booking_t clinic_id).

(** [HighPriorityPooledBooker.book_slot] *)
Definition book_slot_high (booking_t : Z) (clinic_id : nat)
  : Prog Diary unit :=
  reserved ← (fun d => (d, iat (carve_out_slots d) booking_t clinic_id));
  (if 0 <? reserved then
     in_place carve_out_slots set_carve_out_slots
       (fun m => decrement_uint8 m booking_t clinic_id)
   else
     in_place available_slots set_available_slots
       (fun m => decrement_int64 m booking_t clinic_id));;
  in_place bookings set_bookings
    (fun m => increment_uint8 m booking_t clinic_id).

Definition book_slot (b : Booker) (booking_t : Z) (clinic_id : nat)
  : Prog Diary unit :=
  match kind b with
  | LowPriorityPooledBooker => book_slot_low booking_t clinic_id
  | HighPriorityPooledBooker => book_slot_high booking_t clinic_id
  end.

(** [np.argmax(flags)]: the first [True], 0 when there is none, and
    [ValueError] on an empty sequence. *)
Definition argmax_flag (flags : list bool) : result nat :=
  match flags with
  | [] => Raised ValueError
  | _ => Ok (default 0%nat (first_index (fun b : bool => b) flags))
  end.

(** [RepeatBooker.find_slot] *)
Definition repeat_find_slot (rb : RepeatBooker) (d : Diary) (t : Z)
  : result (Z * nat) :=
  (if columns_in_range (available_slots d) [clinic_id rb] then Ok tt
   else Raised IndexError);;
  clinic_slots ← take_column
                   (slice_from (t + repeat_min_wait rb) (available_slots d))
                   (clinic_id rb);
  first ← argmax_flag (map positive clinic_slots);
  Ok (Z.of_nat first + repeat_min_wait rb + t, clinic_id rb).

(** [RepeatBooker.book_slot] *)
Definition repeat_book_slot (rb : RepeatBooker) (booking_t : Z)
  : Prog Diary unit :=
  in_place available_slots set_available_slots
    (fun m => decrement_int64 m booking_t (clinic_id rb));;
  in_place bookings set_bookings
    (fun m => increment_uint8 m booking_t (clinic_id rb)).

(** ** The scenario *)

Record Distributions : Type := mkDistributions {
  arrival_dist : Dist nat;
  priority_dist : Dist bool;
  follow_up_dist_high_priority : Dist bool;
  follow_up_dist_low_priority : Dist bool;
  intensity_dist_high_priority : Dist bool;
  intensity_dist_low_priority : Dist bool;
  (** [int(dist.sample())]: the sample already truncated *)
  num_follow_up_dist_high_intensity : Dist nat;
  num_follow_up_dist_low_intensity : Dist nat;
  clinic_dist : Dist nat;
  (** [clinics[i].ref_out_dist] *)
  clinics : list (Dist bool)
}.

Record Scenario : Type := mkScenario {
  run_length : Z;
  warm_up_period : Z;
  weekly_slots : matrix;
  pooling_np : matrix;
  (** [existing_caseload[1:]], the row without its label column *)
  existing_caseload : list Q;
  diary : Diary;
  dists : Distributions
}.

Definition set_existing_caseload (c : list Q) (a : Scenario) : Scenario :=
  mkScenario (run_length a) (warm_up_period a) (weekly_slots a)
    (pooling_np a) c (diary a) (dists a).

Definition set_diary (d : Diary) (a : Scenario) : Scenario :=
  mkScenario (run_length a) (warm_up_period a) (weekly_slots a)
    (pooling_np a) (existing_caseload a) d (dists a).

Definition set_dists (ds : Distributions) (a : Scenario) : Scenario :=
  mkScenario (run_length a) (warm_up_period a) (weekly_slots a)
    (pooling_np a) (existing_caseload a) (diary a) ds.

(** [Scenario(run_length, warm_up, prop_carve_out, ...)]: the tables come
    already parsed, [carve_round] stands for the product with
    [prop_carve_out] and its rounding. *)
Definition new_scenario (carve_round : Z -> Z) (run_length warm_up : Z)
    (slots_file pooling_file : matrix) (existing_caseload_file : list Q)
    (ds : Distributions) : Scenario :=
  {| run_length := run_length;
     warm_up_period := warm_up;
     weekly_slots := slots_file;
     pooling_np := pooling_file;
     existing_caseload := existing_caseload_file;
     diary := create_diary carve_round run_length slots_file;
     dists := ds |}.

(** ** Event records *)

Inductive EventType : Type := arrival_departure | queue.

Inductive EventName : Type :=
| arrival
| waiting_appointment_to_be_scheduled
| appointment_booked_waiting
| have_appointment
| follow_up_appointment_booked_waiting
| referred_out
| depart.

Inductive Pathway : Type :=
| Priority (p : Z)
| Unsuitable_for_service.

Inductive Appointment : Type := assessment | follow_up.

Inductive Intensity : Type := high | low.

(** The identifier [f"{t}_{i}"], kept as the pair it is printed from. *)
Abbreviation Identifier := (Z * nat)%type.

(** One dictionary of the event log; a key a dictionary does not have is
    [None]. *)
Record Event : Type := mkEvent {
  ev_patient : Identifier;
  ev_pathway : Pathway;
  ev_event_type : EventType;
  ev_event : EventName;
  ev_home_clinic : nat;
  ev_booked_clinic : option nat;
  ev_type : option Appointment;
  ev_time : Z;
  ev_wait : option Z;
  ev_follow_up : option nat;
  ev_follow_up_intensity : option Intensity;
  ev_follow_ups_intended : option nat;
  ev_interval : option Z
}.

(** ** Patients, the event queue and the model *)

(** Where a suspended [execute] generator resumes. *)
Inductive ProgramPoint : Type :=
| at_start
| after_leapfrog_delay
| awaiting_headroom
| awaiting_assessment (best_t : Z)
| awaiting_follow_up (i num_appts : nat) (interval : Z)
    (repeat_booker : RepeatBooker)
| finished.

Record PatientReferral : Type := mkPatientReferral {
  identifier : Identifier;
  referral_t : Z;
  home_clinic : nat;
  booked_clinic : nat;
  booker : Booker;
  waiting_time : option Z;
  follow_up_intensity : option bool;
  at_point : ProgramPoint
}.

Definition set_booked_clinic (c : nat) (p : PatientReferral)
  : PatientReferral :=
  mkPatientReferral (identifier p) (referral_t p) (home_clinic p) c
    (booker p) (waiting_time p) (follow_up_intensity p) (at_point p).

Definition set_booker (b : Booker) (p : PatientReferral) : PatientReferral :=
  mkPatientReferral (identifier p) (referral_t p) (home_clinic p)
    (booked_clinic p) b (waiting_time p) (follow_up_intensity p) (at_point p).

Definition set_waiting_time (w : option Z) (p : PatientReferral)
  : PatientReferral :=
  mkPatientReferral (identifier p) (referral_t p) (home_clinic p)
    (booked_clinic p) (booker p) w (follow_up_intensity p) (at_point p).

Definition set_follow_up_intensity (x : option bool) (p : PatientReferral)
  : PatientReferral :=
  mkPatientReferral (identifier p) (referral_t p) (home_clinic p)
    (booked_clinic p) (booker p) (waiting_time p) x (at_point p).

Definition set_at_point (pt : ProgramPoint) (p : PatientReferral)
  : PatientReferral :=
  mkPatientReferral (identifier p) (referral_t p) (home_clinic p)
    (booked_clinic p) (booker p) (waiting_time p) (follow_up_intensity p) pt.

(** [PatientReferral(env, args, referral_t, home_clinic, booker, ...)] *)
Definition new_patient (referral_t : Z) (home_clinic : nat) (b : Booker)
    (id : Identifier) : PatientReferral :=
  {| identifier := id;
     referral_t := referral_t;
     home_clinic := home_clinic;
     booked_clinic := home_clinic;
     booker := b;
     waiting_time := None;
     follow_up_intensity := None;
     at_point := at_start |}.

(** What processing a queued simpy event does: resume the arrivals
    generator or a patient pathway, note the end of a process (nothing
    waits for it), re-raise the exception of a failed process, or stop the
    run at [until]. *)
Inductive Target : Type :=
| ResumeArrivals
| ResumePatient (pid : nat)
| ProcessEnded
| ProcessFailed (e : Exn)
| Until.

(** An entry [(time, priority, eid, event)] of [env._queue]. *)
Record QItem : Type := mkQItem {
  at_time : Z;
  urgency : nat;
  eid : nat;
  target : Target
}.

Definition URGENT : nat := 0.
Definition NORMAL : nat := 1.

Record Environment : Type := mkEnvironment {
  now : Z;
  next_eid : nat;
  heap : list QItem
}.

(** [AssessmentReferralModel]: [patients] is the store of the
    [PatientReferral] objects, which [referrals] and the queue refer to by
    position; [arrivals_t] is the counter of [itertools.count()];
    [random_module] is the module-level generator of [random]. *)
Record Model : Type := mkModel {
  env : Environment;
  args : Scenario;
  referrals : list nat;
  event_log : list Event;
  patients : list PatientReferral;
  arrivals_t : Z;
  random_module : Dist Z
}.

Definition set_env (e : Environment) (m : Model) : Model :=
  mkModel e (args m) (referrals m) (event_log m) (patients m) (arrivals_t m)
    (random_module m).

Definition set_args (a : Scenario) (m : Model) : Model :=
  mkModel (env m) a (referrals m) (event_log m) (patients m) (arrivals_t m)
    (random_module m).

Definition set_referrals (r : list nat) (m : Model) : Model :=
  mkModel (env m) (args m) r (event_log m) (patients m) (arrivals_t m)
    (random_module m).

Definition set_event_log (l : list Event) (m : Model) : Model :=
  mkModel (env m) (args m) (referrals m) l (patients m) (arrivals_t m)
    (random_module m).

Definition set_patients (ps : list PatientReferral) (m : Model) : Model :=
  mkModel (env m) (args m) (referrals m) (event_log m) ps (arrivals_t m)
    (random_module m).

Definition set_arrivals_t (t : Z) (m : Model) : Model :=
  mkModel (env m) (args m) (referrals m) (event_log m) (patients m) t
    (random_module m).

Definition set_random_module (g : Dist Z) (m : Model) : Model :=
  mkModel (env m) (args m) (referrals m) (event_log m) (patients m)
    (arrivals_t m) g.

(** *** simpy's queue *)

(** The order of the heap: by time, then priority, then insertion. *)
Definition before (a b : QItem) : bool :=
  (at_time a <? at_time b)
  || ((at_time a =? at_time b)
      && (Nat.ltb (urgency a) (urgency b)
          || (Nat.eqb (urgency a) (urgency b) && Nat.ltb (eid a) (eid b)))).

(** [heappop]: the least entry and the entries that stay. *)
Fixpoint heappop (q : list QItem) : option (QItem * list QItem) :=
  match q with
  | [] => None
  | x :: rest =>
      match heappop rest with
      | None => Some (x, [])
      | Some (y, rest') =>
          if before y x then Some (y, x :: rest') else Some (x, rest)
      end
  end.

(** [env.schedule(event, priority, delay)] *)
Definition schedule (tg : Target) (prio : nat) (delay : Z) (e : Environment)
  : Environment :=
  {| now := now e;
     next_eid := S (next_eid e);
     heap := mkQItem (now e + delay) prio (next_eid e) tg :: heap e |}.

(** *** Access to the model from process code *)

Definition set_arrival_dist (d : Dist nat) (ds : Distributions)
  : Distributions :=
  mkDistributions d (priority_dist ds) (follow_up_dist_high_priority ds)
    (follow_up_dist_low_priority ds) (intensity_dist_high_priority ds)
    (intensity_dist_low_priority ds) (num_follow_up_dist_high_intensity ds)
    (num_follow_up_dist_low_intensity ds) (clinic_dist ds) (clinics ds).

Definition set_priority_dist (d : Dist bool) (ds : Distributions)
  : Distributions :=
  mkDistributions (arrival_dist ds) d (follow_up_dist_high_priority ds)
    (follow_up_dist_low_priority ds) (intensity_dist_high_priority ds)
    (intensity_dist_low_priority ds) (num_follow_up_dist_high_intensity ds)
    (num_follow_up_dist_low_intensity ds) (clinic_dist ds) (clinics ds).

Definition set_follow_up_dist_high_priority (d : Dist bool)
    (ds : Distributions) : Distributions :=
  mkDistributions (arrival_dist ds) (priority_dist ds) d
    (follow_up_dist_low_priority ds) (intensity_dist_high_priority ds)
    (intensity_dist_low_priority ds) (num_follow_up_dist_high_intensity ds)
    (num_follow_up_dist_low_intensity ds) (clinic_dist ds) (clinics ds).

Definition set_follow_up_dist_low_priority (d : Dist bool)
    (ds : Distributions) : Distributions :=
  mkDistributions (arrival_dist ds) (priority_dist ds)
    (follow_up_dist_high_priority ds) d (intensity_dist_high_priority ds)
    (intensity_dist_low_priority ds) (num_follow_up_dist_high_intensity ds)
    (num_follow_up_dist_low_intensity ds) (clinic_dist ds) (clinics ds).

Definition set_intensity_dist_high_priority (d : Dist bool)
    (ds : Distributions) : Distributions :=
  mkDistributions (arrival_dist ds) (priority_dist ds)
    (follow_up_dist_high_priority ds) (follow_up_dist_low_priority ds) d
    (intensity_dist_low_priority ds) (num_follow_up_dist_high_intensity ds)
    (num_follow_up_dist_low_intensity ds) (clinic_dist ds) (clinics ds).

Definition set_intensity_dist_low_priority (d : Dist bool)
    (ds : Distributions) : Distributions :=
  mkDistributions (arrival_dist ds) (priority_dist ds)
    (follow_up_dist_high_priority ds) (follow_up_dist_low_priority ds)
    (intensity_dist_high_priority ds) d
    (num_follow_up_dist_high_intensity ds)
    (num_follow_up_dist_low_intensity ds) (clinic_dist ds) (clinics ds).

Definition set_num_follow_up_dist_high_intensity (d : Dist nat)
    (ds : Distributions) : Distributions :=
  mkDistributions (arrival_dist ds) (priority_dist ds)
    (follow_up_dist_high_priority ds) (follow_up_dist_low_priority ds)
    (intensity_dist_high_priority ds) (intensity_dist_low_priority ds) d
    (num_follow_up_dist_low_intensity ds) (clinic_dist ds) (clinics ds).

Definition set_num_follow_up_dist_low_intensity (d : Dist nat)
    (ds : Distributions) : Distributions :=
  mkDistributions (arrival_dist ds) (priority_dist ds)
    (follow_up_dist_high_priority ds) (follow_up_dist_low_priority ds)
    (intensity_dist_high_priority ds) (intensity_dist_low_priority ds)
    (num_follow_up_dist_high_intensity ds) d (clinic_dist ds) (clinics ds).

Definition set_clinic_dist (d : Dist nat) (ds : Distributions)
  : Distributions :=
  mkDistributions (arrival_dist ds) (priority_dist ds)
    (follow_up_dist_high_priority ds) (follow_up_dist_low_priority ds)
    (intensity_dist_high_priority ds) (intensity_dist_low_priority ds)
    (num_follow_up_dist_high_intensity ds)
    (num_follow_up_dist_low_intensity ds) d (clinics ds).

Definition set_clinics (cs : list (Dist bool)) (ds : Distributions)
  : Distributions :=
  mkDistributions (arrival_dist ds) (priority_dist ds)
    (follow_up_dist_high_priority ds) (follow_up_dist_low_priority ds)
    (intensity_dist_high_priority ds) (intensity_dist_low_priority ds)
    (num_follow_up_dist_high_intensity ds)
    (num_follow_up_dist_low_intensity ds) (clinic_dist ds) cs.

(** [self.args.<dist>.sample()] *)
Definition draw {A : Type} (get : Distributions -> Dist A)
    (set : Dist A -> Distributions -> Distributions) : Prog Model A :=
  fun m =>
    let '(x, d') := sample (get (dists (args m))) in
    (set_args (set_dists (set d' (dists (args m))) (args m)) m, Ok x).

(** [self.args.clinics[clinic_id].ref_out_dist.sample()] *)
Definition draw_referred_out (clinic_id : nat) : Prog Model bool :=
  fun m =>
    match clinics (dists (args m)) !! clinic_id with
    | Some d =>
        let '(x, d') := sample d in
        (set_args
           (set_dists
              (set_clinics (<[clinic_id := d']> (clinics (dists (args m))))
                 (dists (args m)))
              (args m)) m, Ok x)
    | None => (m, Raised IndexError)
    end.

Definition append_event (e : Event) : Prog Model unit :=
  modify (fun m => set_event_log (event_log m ++ [e]) m).

(** The patient object of the process [self]. *)
Definition self_obj (self : nat) : Prog Model PatientReferral :=
  fun m => (m, or_raise IndexError (patients m !! self)).

Definition update_self (self : nat)
    (f : PatientReferral -> PatientReferral) : Prog Model unit :=
  modify (fun m => set_patients (alter f self (patients m)) m).

(** A program on the diary, run on the diary of the model's scenario. *)
Definition on_diary {A : Type} (p : Prog Diary A) : Prog Model A :=
  fun m =>
    let '(d', r) := p (diary (args m)) in
    (set_args (set_diary d' (args m)) m, r).

(** [self.booker.find_slot(t, clinic_id, limit_clinic_choice)] *)
Definition find_slot_in_model (b : Booker) (t : Z) (clinic_id : nat)
    (limit_clinic_choice : option (list bool)) : Prog Model (Z * nat) :=
  fun m =>
    match find_slot b (diary (args m)) (pooling_np (args m))
            (random_module m) t clinic_id limit_clinic_choice with
    | Ok (best_t, c, g') => (set_random_module g' m, Ok (best_t, c))
    | Raised e => (m, Raised e)
    end.

(** [self.args.existing_caseload[1:].iloc[k] += v] *)
Definition caseload_add (k : nat) (v : Q) : Prog Model unit :=
  fun m =>
    match existing_caseload (args m) !! k with
    | Some c =>
        (set_args
           (set_existing_caseload
              (<[k := (c + v)%Q]> (existing_caseload (args m))) (args m)) m,
         Ok tt)
    | None => (m, Raised IndexError)
    end.

(** [env.timeout(delay)]: a negative delay raises, otherwise the event is
    queued at once; [tg] is the process that yields it. *)
Definition timeout (tg : Target) (delay : Z) : Prog Model unit :=
  fun m =>
    if delay <? 0 then (m, Raised ValueError)
    else (set_env (schedule tg NORMAL delay (env m)) m, Ok tt).

(** How a piece of generator code ends: at a [yield] or at its end. *)
Inductive Suspension : Type := Yield | Return.

(** [yield self.env.timeout(delay)], to resume at [pt]. *)
Definition yield_timeout (self : nat) (delay : Z) (pt : ProgramPoint)
  : Prog Model Suspension :=
  timeout (ResumePatient self) delay;;
  update_self self (set_at_point pt);;
  mret Yield.

(** *** The dictionaries appended to the event log *)

Definition patient_event (p : PatientReferral) (ty : EventType)
    (name : EventName) (t : Z) : Event :=
  {| ev_patient := identifier p;
     ev_pathway := Priority (priority (booker p));
     ev_event_type := ty;
     ev_event := name;
     ev_home_clinic := home_clinic p;
     ev_booked_clinic := None;
     ev_type := None;
     ev_time := t;
     ev_wait := None;
     ev_follow_up := None;
     ev_follow_up_intensity := None;
     ev_follow_ups_intended := None;
     ev_interval := None |}.

Definition booked_event (p : PatientReferral) (name : EventName)
    (t : Z) (ty : option Appointment) (wait : option Z) (fu : option nat)
    (fi : option Intensity) (intended : option nat) (interval : option Z)
  : Event :=
  {| ev_patient := identifier p;
     ev_pathway := Priority (priority (booker p));
     ev_event_type := queue;
     ev_event := name;
     ev_home_clinic := home_clinic p;
     ev_booked_clinic := Some (booked_clinic p);
     ev_type := ty;
     ev_time := t;
     ev_wait := wait;
     ev_follow_up := fu;
     ev_follow_up_intensity := fi;
     ev_follow_ups_intended := intended;
     ev_interval := interval |}.

Definition triage_event (id : Identifier) (ty : EventType)
    (name : EventName) (clinic_id : nat) (t : Z) : Event :=
  {| ev_patient := id;
     ev_pathway := Unsuitable_for_service;
     ev_event_type := ty;
     ev_event := name;
     ev_home_clinic := clinic_id;
     ev_booked_clinic := None;
     ev_type := None;
     ev_time := t;
     ev_wait := None;
     ev_follow_up := None;
     ev_follow_up_intensity := None;
     ev_follow_ups_intended := None;
     ev_interval := None |}.

(** ['high' if self.follow_up_intensity == 1 else 'low'] *)
Definition intensity_label (x : option bool) : Intensity :=
  match x with
  | Some true => high
  | _ => low
  end.

(** *** [PatientReferral.execute] *)

(** [self.args.weekly_slots.sum()]: the sum of every column. *)
Definition column_sums (m : matrix) : list Z :=
  map (fun j => sum_int64 (omap (fun row : list Z => row !! j) m))
    (seq 0 (n_columns m)).

Definition Qpositive (q : Q) : bool := negb (Qle_bool q 0).

(** The local function [check_for_availability]. *)
Definition check_for_availability (a : Scenario) : result (nat * list Q) :=
  available_caseload ←
    broadcast (fun s c => (inject_Z s - c - 1)%Q)
      (column_sums (weekly_slots a)) (existing_caseload a);
  Ok (length (List.filter Qpositive available_caseload), available_caseload).

(** [[True if c > 0 else False for c in available_caseload]] *)
Definition headroom_mask (available_caseload : list Q) : list bool :=
  map Qpositive available_caseload.

(** [self.booker.min_wait = self.booker.min_wait + k] *)
Definition shift_min_wait (k : Z) (p : PatientReferral) : PatientReferral :=
  set_booker (mkBooker (kind (booker p)) (min_wait (booker p) + k)) p.

(** The end of [execute]: the caseload leaves with the patient and the
    departure is logged. *)
Definition discharge (self : nat) : Prog Model Suspension :=
  p ← self_obj self;
  t ← gets (fun m => now (env m));
  match follow_up_intensity p with
  | Some true => caseload_add (booked_clinic p) (-1)%Q
  | Some false => caseload_add (booked_clinic p) (- (1 # 2))%Q
  | None => mret tt
  end;;
  append_event (patient_event p arrival_departure depart (t + 1));;
  update_self self (set_at_point finished);;
  mret Return.

(** One pass of [for i in range(num_appts)] up to its [yield], or the code
    after the loop when [i] has run through the range. *)
Definition follow_up_iteration (self : nat) (i num_appts : nat)
    (repeat_booker : RepeatBooker) : Prog Model Suspension :=
  if (i <? num_appts)%nat then
    p ← self_obj self;
    t ← gets (fun m => now (env m));
    d ← gets (fun m => diary (args m));
    '(best_t, _) ← lift (repeat_find_slot repeat_booker d t);
    on_diary (repeat_book_slot repeat_booker best_t);;
    append_event
      (booked_event p follow_up_appointment_booked_waiting t None None
         (Some i) (Some (intensity_label (follow_up_intensity p)))
         (Some num_appts) None);;
    yield_timeout self (best_t - t)
      (awaiting_follow_up i num_appts (best_t - t) repeat_booker)
  else discharge self.

(** From [book_slot] in the branch of priority 1 to the [yield] that waits
    for the assessment. *)
Definition book_and_wait (self : nat) (best_t : Z) : Prog Model Suspension :=
  p ← self_obj self;
  t ← gets (fun m => now (env m));
  on_diary (book_slot (booker p) best_t (booked_clinic p));;
  append_event
    (booked_event p appointment_booked_waiting t None None None None None
       None);;
  caseload_add (booked_clinic p) 1%Q;;
  yield_timeout self (best_t - referral_t p) (awaiting_assessment best_t).

(** From the top of [execute] to its first [yield]. *)
Definition execute_at_start (self : nat) : Prog Model Suspension :=
  p ← self_obj self;
  t ← gets (fun m => now (env m));
  append_event (patient_event p arrival_departure arrival t);;
  append_event (patient_event p queue waiting_appointment_to_be_scheduled t);;
  if priority (booker p) =? 2 then
    '(best_t, c) ← find_slot_in_model (booker p) (referral_t p)
                     (home_clinic p) None;
    update_self self (set_booked_clinic c);;
    on_diary (book_slot (booker p) best_t c);;
    p ← self_obj self;
    append_event
      (booked_event p appointment_booked_waiting t None None None None None
         None);;
    yield_timeout self (best_t - referral_t p) (awaiting_assessment best_t)
  else if priority (booker p) =? 1 then
    yield_timeout self 1 after_leapfrog_delay
  else raise UnboundLocalError.

(** After the one-day delay of a priority 1 patient. *)
Definition execute_after_leapfrog_delay (self : nat) : Prog Model Suspension :=
  update_self self (shift_min_wait (-1));;
  a ← gets args;
  '(clinicians_with_slots, available_caseload) ←
    lift (check_for_availability a);
  if (0 <? clinicians_with_slots)%nat then
    p ← self_obj self;
    '(best_t, c) ← find_slot_in_model (booker p) (referral_t p)
                     (home_clinic p)
                     (Some (headroom_mask available_caseload));
    update_self self (set_booked_clinic c);;
    book_and_wait self best_t
  else
    update_self self (shift_min_wait 1);;
    yield_timeout self 1 awaiting_headroom.

(** After a day spent waiting for headroom: the check before the [while]
    and the check at the end of its body continue in the same way. *)
Definition execute_awaiting_headroom (self : nat) : Prog Model Suspension :=
  a ← gets args;
  '(clinicians_with_slots, available_caseload) ←
    lift (check_for_availability a);
  if (clinicians_with_slots =? 0)%nat then
    yield_timeout self 1 awaiting_headroom
  else
    p ← self_obj self;
    t ← gets (fun m => now (env m));
    '(best_t, c) ← find_slot_in_model (booker p) t (home_clinic p)
                     (Some (headroom_mask available_caseload));
    update_self self (set_booked_clinic c);;
    book_and_wait self best_t.

(** A Bernoulli sample chosen by the patient's priority; the third branch
    only prints, and the name it leaves unbound is read next. *)
Definition draw_by_priority (p : PatientReferral)
    (get_low get_high : Distributions -> Dist bool)
    (set_low set_high : Dist bool -> Distributions -> Distributions)
  : Prog Model bool :=
  if priority (booker p) =? 1 then draw get_low set_low
  else if priority (booker p) =? 2 then draw get_high set_high
  else raise UnboundLocalError.

(** On the day of the assessment. *)
Definition execute_awaiting_assessment (self : nat) (best_t : Z)
  : Prog Model Suspension :=
  update_self self
    (fun p => set_waiting_time (Some (best_t - referral_t p)) p);;
  p ← self_obj self;
  t ← gets (fun m => now (env m));
  append_event
    (booked_event p have_appointment t (Some assessment) (waiting_time p)
       None None None None);;
  follow_up_y ← draw_by_priority p follow_up_dist_low_priority
                  follow_up_dist_high_priority
                  set_follow_up_dist_low_priority
                  set_follow_up_dist_high_priority;
  if follow_up_y : bool then
    intensity ← draw_by_priority p intensity_dist_low_priority
                  intensity_dist_high_priority
                  set_intensity_dist_low_priority
                  set_intensity_dist_high_priority;
    update_self self (set_follow_up_intensity (Some intensity));;
    (if negb intensity && (priority (booker p) =? 2)
     then caseload_add (booked_clinic p) (- (1 # 2))%Q else mret tt);;
    (if intensity && (priority (booker p) =? 1)
     then caseload_add (booked_clinic p) (1 # 2)%Q else mret tt);;
    if intensity : bool then
      num_appts ← draw num_follow_up_dist_high_intensity
                    set_num_follow_up_dist_high_intensity;
      follow_up_iteration self 0 num_appts
        (new_repeat_booker HIGH_INTENSITY_FOLLOW_UP_TARGET_INTERVAL
           (booked_clinic p))
    else
      num_appts ← draw num_follow_up_dist_low_intensity
                    set_num_follow_up_dist_low_intensity;
      follow_up_iteration self 0 num_appts
        (new_repeat_booker LOW_INTENSITY_FOLLOW_UP_TARGET_INTERVAL
           (booked_clinic p))
  else discharge self.

(** On the day of a follow-up. *)
Definition execute_awaiting_follow_up (self : nat) (i num_appts : nat)
    (interval : Z) (repeat_booker : RepeatBooker) : Prog Model Suspension :=
  p ← self_obj self;
  t ← gets (fun m => now (env m));
  append_event
    (booked_event p have_appointment t (Some follow_up) None (Some i)
       (Some (intensity_label (follow_up_intensity p))) (Some num_appts)
       (Some interval));;
  follow_up_iteration self (S i) num_appts repeat_booker.

(** The generator [execute], resumed where it was suspended. *)
Definition execute (self : nat) : Prog Model Suspension :=
  p ← self_obj self;
  match at_point p with
  | at_start => execute_at_start self
  | after_leapfrog_delay => execute_after_leapfrog_delay self
  | awaiting_headroom => execute_awaiting_headroom self
  | awaiting_assessment best_t => execute_awaiting_assessment self best_t
  | awaiting_follow_up i num_appts interval repeat_booker =>
      execute_awaiting_follow_up self i num_appts interval repeat_booker
  | finished => mret Return
  end.

(** *** [AssessmentReferralModel] *)

(** [env.process(generator)]: the new process starts at the current time,
    ahead of the events of normal priority. *)
Definition new_process (p : PatientReferral) : Prog Model nat :=
  fun m =>
    (set_env (schedule (ResumePatient (length (patients m))) URGENT 0 (env m))
       (set_patients (patients m ++ [p]) m),
     Ok (length (patients m))).

(** The body of [for i in range(n_referrals)]. *)
Definition referral (t : Z) (i : nat) : Prog Model unit :=
  clinic_id ← draw clinic_dist set_clinic_dist;
  triaged_out ← draw_referred_out clinic_id;
  (if negb triaged_out then
     high_priority ← draw priority_dist set_priority_dist;
     let assessment_booker :=
       if high_priority : bool then new_booker HighPriorityPooledBooker
       else new_booker LowPriorityPooledBooker in
     pid ← new_process (new_patient t clinic_id assessment_booker (t, i));
     m ← gets id;
     if warm_up_period (args m) <? now (env m)
     then modify (fun m => set_referrals (referrals m ++ [pid]) m)
     else mret tt
   else mret tt);;
  if triaged_out : bool then
    now_t ← gets (fun m => now (env m));
    append_event (triage_event (t, i) arrival_departure arrival clinic_id
                    now_t);;
    append_event (triage_event (t, i) queue referred_out clinic_id now_t);;
    append_event (triage_event (t, i) arrival_departure depart clinic_id
                    (now_t + 1))
  else mret tt.

(** One day of [generate_arrivals], up to its [yield]. *)
Definition generate_arrivals : Prog Model unit :=
  t ← gets arrivals_t;
  n_referrals ← draw arrival_dist set_arrival_dist;
  for_each (seq 0 n_referrals) (referral t);;
  modify (set_arrivals_t (t + 1));;
  timeout ResumeArrivals 1.

(** A process that raises fails: its event is queued and the exception
    surfaces when the event is processed. *)
Definition fail_process (e : Exn) (m : Model) : Model :=
  set_env (schedule (ProcessFailed e) NORMAL 0 (env m)) m.

Definition resume_arrivals (m : Model) : Model :=
  match generate_arrivals m with
  | (m', Ok _) => m'
  | (m', Raised e) => fail_process e m'
  end.

Definition resume_patient (self : nat) (m : Model) : Model :=
  match execute self m with
  | (m', Ok Yield) => m'
  | (m', Ok Return) => set_env (schedule ProcessEnded NORMAL 0 (env m')) m'
  | (m', Raised e) =>
      fail_process e
        (set_patients (alter (set_at_point finished) self (patients m')) m')
  end.

Inductive Status : Type :=
| Running
| Stopped
| Crashed (e : Exn)
| EmptySchedule.

(** [env.step()] *)
Definition step (m : Model) : Model * Status :=
  match heappop (heap (env m)) with
  | None => (m, EmptySchedule)
  | Some (item, rest) =>
      let m1 := set_env (mkEnvironment (at_time item) (next_eid (env m)) rest)
                  m in
      match target item with
      | ResumeArrivals => (resume_arrivals m1, Running)
      | ResumePatient pid => (resume_patient pid m1, Running)
      | ProcessEnded => (m1, Running)
      | ProcessFailed e => (m1, Crashed e)
      | Until => (m1, Stopped)
      end
  end.

(** [AssessmentReferralModel(args)] in a world whose [random] module is in
    state [g]. *)
Definition new_model (a : Scenario) (g : Dist Z) : Model :=
  {| env := schedule ResumeArrivals URGENT 0 (mkEnvironment 0 0 []);
     args := a;
     referrals := [];
     event_log := [];
     patients := [];
     arrivals_t := 0;
     random_module := g |}.

(** The start of [env.run(until=run_length)]. *)
Definition start_run (m : Model) : result Model :=
  if run_length (args m) <=? now (env m) then Raised ValueError
  else Ok (set_env
             (schedule Until URGENT (run_length (args m) - now (env m))
                (env m)) m).

(** The loop of [env.run], for at most [fuel] events. *)
Fixpoint run_steps (fuel : nat) (m : Model) : Model * Status :=
  match fuel with
  | O => (m, Running)
  | S fuel' =>
      match step m with
      | (m', Running) => run_steps fuel' m'
      | stopped => stopped
      end
  end.

(** The states a run passes through, with the status each was left in. *)
Inductive reaches (m0 : Model) : Model -> Status -> Prop :=
| reaches_start : reaches m0 m0 Running
| reaches_step m m' st :
    reaches m0 m Running -> step m = (m', st) -> reaches m0 m' st.

(** A state of a run of the model built from the scenario [a]. *)
Definition in_run (a : Scenario) (g : Dist Z) (m : Model) : Prop :=
  exists m0 st, start_run (new_model a g) = Ok m0 /\ reaches m0 m st.

(** [process_run_results] *)
Definition retained (m : Model) : list PatientReferral :=
  omap (fun pid => patients m !! pid) (referrals m).

Definition results_all (m : Model) : list Z :=
  omap waiting_time (retained m).

Definition results_low (m : Model) : list Z :=
  omap waiting_time
    (List.filter (fun p => priority (booker p) =? 1) (retained m)).

Definition results_high (m : Model) : list Z :=
  omap waiting_time
    (List.filter (fun p => priority (booker p) =? 2) (retained m)).

(** [AssessmentReferralModel(args).run()] in a world whose [random] module
    is in state [g], for at most [fuel] events. *)
Definition run (a : Scenario) (g : Dist Z) (fuel : nat) : Model * Status :=
  match start_run (new_model a g) with
  | Ok m0 => run_steps fuel m0
  | Raised e => (new_model a g, Crashed e)
  end.

(** ** Reasoning about programs *)

(** [wp c Q E s]: run from [s], the program [c] ends in a state and with a
    value that satisfy [Q], or raises in a state that satisfies [E]. *)
Definition wp {S A : Type} (c : Prog S A) (Q : A -> S -> Prop)
    (E : S -> Prop) (s : S) : Prop :=
  match c s with
  | (s', Ok a) => Q a s'
  | (s', Raised _) => E s'
  end.

(** [m'] differs from [m] at most in the entry that [.iat[t, c]] names. *)
Definition only_at (m m' : matrix) (t : Z) (c : nat) : Prop :=
  length m' = length m
  /\ forall i j,
       ~ (norm_index (length m) t = Some i /\ j = c) ->
       cell m' i j = cell m i j.

(** The bookkeeping of the diary [d] against the diary [d0] the scenario
    was built with: wherever the five entries exist, the uint8 count of
    bookings is the number of slots taken from the two pools, reduced
    modulo 256. *)
Definition diary_balanced (d0 d : Diary) : Prop :=
  forall i j b a c a0 c0,
    cell (bookings d) i j = Some b ->
    cell (available_slots d) i j = Some a ->
    cell (carve_out_slots d) i j = Some c ->
    cell (available_slots d0) i j = Some a0 ->
    cell (carve_out_slots d0) i j = Some c0 ->
    b = ((a0 - a) + (c0 - c)) mod 256.

(** What a booking that succeeds does at the entry of row [i] and column
    [c]: the count of bookings goes up by one modulo 256 and one slot is
    taken from exactly one of the two pools, with the arithmetic of the
    pool's cells; no other entry changes. *)
Definition books_one (d d' : Diary) (i c : nat) : Prop :=
  (exists b,
     cell (bookings d) i c = Some b
     /\ cell (bookings d') i c = Some (wrap_uint8 (b + 1)))
  /\ ((exists a,
         cell (available_slots d) i c = Some a
         /\ cell (available_slots d') i c = Some (wrap_int64 (a - 1))
         /\ carve_out_slots d' = carve_out_slots d)
      \/ (exists r,
            0 < r
            /\ cell (carve_out_slots d) i c = Some r
            /\ cell (carve_out_slots d') i c = Some (wrap_uint8 (r - 1))
            /\ available_slots d' = available_slots d))
  /\ forall i' j',
       ~ (i' = i /\ j' = c) ->
       cell (bookings d') i' j' = cell (bookings d) i' j'
       /\ cell (available_slots d') i' j' = cell (available_slots d) i' j'
       /\ cell (carve_out_slots d') i' j' = cell (carve_out_slots d) i' j'.

(** [carve_out + available] at the entry of row [i] and column [c], as
    the high priority finder adds them. *)
Definition combined (d : Diary) (i c : nat) : option Z :=
  match cell (carve_out_slots d) i c, cell (available_slots d) i c with
  | Some p, Some a => Some (wrap_int64 (p + a))
  | _, _ => None
  end.

(** The combined slots of the clinicians [opts] on the day of row [i]. *)
Definition combined_row (d : Diary) (opts : list nat) (i : nat)
  : option (list Z) :=
  mapM (combined d i) opts.

(** The test a pooled finder makes on the slots of a day: without a mask,
    some clinician has a positive entry; with a mask, the sum of the
    entries is positive. *)
Definition day_counts (limit_clinic_choice : option (list bool))
    (row : list Z) : Prop :=
  match limit_clinic_choice with
  | None => exists x, x ∈ row /\ 0 < x
  | Some _ => 0 < sum_int64 row
  end.

(** The fields of an event that tell it from the others. *)
Definition summary (e : Event)
  : Identifier * EventName * option Appointment * option nat * Z :=
  (ev_patient e, ev_event e, ev_type e, ev_booked_clinic e, ev_time e).

(** *** The invariant of a run *)

(** The queued events that resume a generator. *)
Definition resumable (tg : Target) : bool :=
  match tg with
  | ResumeArrivals | ResumePatient _ => true
  | _ => false
  end.

Definition resumables (h : list QItem) : list Target :=
  omap (fun it => if resumable (target it) then Some (target it) else None) h.

(** The generator that runs while an event is processed, if any. *)
Definition active_of (tg : Target) : option Target :=
  if resumable tg then Some tg else None.

(** The least number of days between referral and assessment. *)
Definition least_wait (k : BookerKind) : Z :=
  match k with
  | LowPriorityPooledBooker => 6
  | HighPriorityPooledBooker => 1
  end.

(** The log holds the booking of the assessment of [p], made by time [t]
    at the clinic [p] is booked at. *)
Definition booked_evidence (log : list Event) (t : Z) (p : PatientReferral)
  : Prop :=
  exists e,
    e ∈ log
    /\ ev_event e = appointment_booked_waiting
    /\ ev_patient e = identifier p
    /\ ev_booked_clinic e = Some (booked_clinic p)
    /\ ev_time e <= t.

(** What holds of a suspended patient, by the point it is suspended at. *)
Definition point_ok (log : list Event) (t : Z) (p : PatientReferral) : Prop :=
  match at_point p with
  | at_start => booker p = new_booker (kind (booker p))
  | after_leapfrog_delay | awaiting_headroom =>
      booker p = mkBooker LowPriorityPooledBooker 7
  | awaiting_assessment _ => booked_evidence log t p
  | awaiting_follow_up _ _ _ rb =>
      booked_evidence log t p /\ 0 <= repeat_min_wait rb
  | finished => True
  end.

(** What holds of the time [t] a suspended patient is woken at. *)
Definition wake_ok (p : PatientReferral) (t : Z) : Prop :=
  referral_t p <= t
  /\ match at_point p with
     | awaiting_assessment _ => least_wait (kind (booker p)) <= t - referral_t p
     | _ => True
     end.

(** Every attended appointment in the log comes after the booking of the
    assessment of the same patient at the same clinic, and an attended
    assessment comes the least wait of its priority after the day of
    referral, which is the first part of the patient's identifier. *)
Definition log_ok (log : list Event) : Prop :=
  forall i e,
    log !! i = Some e -> ev_event e = have_appointment ->
    (exists j e',
       (j < i)%nat /\ log !! j = Some e'
       /\ ev_event e' = appointment_booked_waiting
       /\ ev_patient e' = ev_patient e
       /\ ev_booked_clinic e' = ev_booked_clinic e
       /\ ev_time e' <= ev_time e)
    /\ (ev_type e = Some assessment ->
        (ev_pathway e = Priority 2 -> 1 <= ev_time e - (ev_patient e).1)
        /\ (ev_pathway e = Priority 1 -> 6 <= ev_time e - (ev_patient e).1)).

(** A new event is in order when, if it is an attended appointment, the
    log holds the booking it goes back to and the wait is long enough. *)
Definition event_in_order (log : list Event) (e : Event) : Prop :=
  ev_event e = have_appointment ->
  (exists e',
     e' ∈ log
     /\ ev_event e' = appointment_booked_waiting
     /\ ev_patient e' = ev_patient e
     /\ ev_booked_clinic e' = ev_booked_clinic e
     /\ ev_time e' <= ev_time e)
  /\ (ev_type e = Some assessment ->
      (ev_pathway e = Priority 2 -> 1 <= ev_time e - (ev_patient e).1)
      /\ (ev_pathway e = Priority 1 -> 6 <= ev_time e - (ev_patient e).1)).

(** The invariant of the event loop.  [d0] is the diary the scenario was
    built with; [active] is the generator that is running, which has no
    event in the queue and, if it is a patient, is between two program
    points. *)
Record Inv (d0 : Diary) (active : option Target) (m : Model) : Prop := {
  inv_now : 0 <= now (env m);
  inv_heap_time :
    forall it, it ∈ heap (env m) -> now (env m) <= at_time it;
  inv_heap_pid :
    forall it pid, it ∈ heap (env m) -> target it = ResumePatient pid ->
      (pid < length (patients m))%nat;
  inv_heap_nodup : NoDup (resumables (heap (env m)));
  inv_idle :
    forall tg it, active = Some tg -> it ∈ heap (env m) -> target it <> tg;
  inv_arrivals :
    forall it, it ∈ heap (env m) -> target it = ResumeArrivals ->
      at_time it = arrivals_t m;
  inv_patients :
    forall pid p, patients m !! pid = Some p ->
      0 <= referral_t p
      /\ (identifier p).1 = referral_t p
      /\ (active <> Some (ResumePatient pid) ->
          point_ok (event_log m) (now (env m)) p);
  inv_wake :
    forall it pid p, it ∈ heap (env m) -> target it = ResumePatient pid ->
      patients m !! pid = Some p -> wake_ok p (at_time it);
  inv_log : log_ok (event_log m);
  inv_diary : diary_balanced d0 (diary (args m));
  inv_referrals :
    forall pid p, patients m !! pid = Some p ->
      (pid ∈ referrals m <-> warm_up_period (args m) < referral_t p);
  inv_referrals_pid :
    forall pid, pid ∈ referrals m -> (pid < length (patients m))%nat
}.

(** The invariant while the arrivals generator runs on day [t]. *)
Definition arrivals_running (d0 : Diary) (t : Z) (m : Model) : Prop :=
  Inv d0 (Some ResumeArrivals) m /\ now (env m) = t.

(** While the patient [self] of low priority runs: the carve-out matrix
    is [C] and the booker of the patient is still the low priority one. *)
Definition keeps_carve_out (C : matrix) (self : nat) (m : Model) : Prop :=
  carve_out_slots (diary (args m)) = C
  /\ forall p, patients m !! self = Some p ->
       kind (booker p) = LowPriorityPooledBooker.

(** ** Concrete scenarios *)

(** [round(x * num / den)] in exact arithmetic, ties to the even integer as
    numpy rounds: what [carve_round] is for a [prop_carve_out] that is the
    fraction [num / den] ([den] positive) when the product is exact. *)
Definition round_half_even (num den : Z) (x : Z) : Z :=
  let n := x * num in
  let q := n / den in
  let r := n mod den in
  if 2 * r <? den then q
  else if den <? 2 * r then q + 1
  else if Z.even q then q else q + 1.

(** A stream that returns the items of [l], then [d] for ever. *)
Definition stream_of {A : Type} (l : list A) (d : A) : Dist A :=
  mkDist (fun k => nth k l d) 0.

Definition constant {A : Type} (d : A) : Dist A := mkDist (fun _ => d) 0.

(** Streams for a small run: two referrals on day 0 and one on day 1, to
    clinician 0, none referred out; the first and the third are of high
    priority. *)
Definition small_dists : Distributions :=
  {| arrival_dist := stream_of [2%nat; 1%nat] 0%nat;
     priority_dist := stream_of [true; false; true] false;
     follow_up_dist_high_priority := constant true;
     follow_up_dist_low_priority := constant false;
     intensity_dist_high_priority := constant true;
     intensity_dist_low_priority := constant false;
     num_follow_up_dist_high_intensity := constant 2%nat;
     num_follow_up_dist_low_intensity := constant 1%nat;
     clinic_dist := constant 0%nat;
     clinics := [constant false; constant false] |}.

(** Two pooled clinicians with two slots a day each, half of them carved
    out, a run of twenty days and no warm-up. *)
Definition small_scenario : Scenario :=
  new_scenario (round_half_even 1 2) 20 0 (replicate 5 [2; 2])
    [[1; 1]; [1; 1]] [0%Q; 0%Q] small_dists.

(** Streams for a crowded day: 256 referrals of high priority on day 0,
    none after, no follow-up. *)
Definition crowded_dists : Distributions :=
  {| arrival_dist := stream_of [256%nat] 0%nat;
     priority_dist := constant true;
     follow_up_dist_high_priority := constant false;
     follow_up_dist_low_priority := constant false;
     intensity_dist_high_priority := constant false;
     intensity_dist_low_priority := constant false;
     num_follow_up_dist_high_intensity := constant 0%nat;
     num_follow_up_dist_low_intensity := constant 0%nat;
     clinic_dist := constant 0%nat;
     clinics := [constant false] |}.

(** One clinician with 300 slots a day, nothing carved out, a run of two
    days. *)
Definition crowded_scenario : Scenario :=
  new_scenario (round_half_even 0 1) 2 0 (replicate 5 [300]) [[1]] [0%Q]
    crowded_dists.

(** Streams for a diary that fills up: 54 referrals of high priority to
    clinician 0 on day 0 and one to clinician 1 on day 6; every patient
    has three weekly follow-ups. *)
Definition booked_out_dists : Distributions :=
  {| arrival_dist := stream_of [54%nat; 0%nat; 0%nat; 0%nat; 0%nat; 0%nat;
                                1%nat] 0%nat;
     priority_dist := constant true;
     follow_up_dist_high_priority := constant true;
     follow_up_dist_low_priority := constant true;
     intensity_dist_high_priority := constant true;
     intensity_dist_low_priority := constant true;
     num_follow_up_dist_high_intensity := constant 3%nat;
     num_follow_up_dist_low_intensity := constant 3%nat;
     clinic_dist := stream_of (replicate 54 0%nat) 1%nat;
     clinics := [constant false; constant false] |}.

(** Two clinicians with one slot a day each and nothing carved out; the
    patients of clinician 0 stay with clinician 0, those of clinician 1
    may see either; a run of seven days, for which the diary has 55. *)
Definition booked_out_scenario : Scenario :=
  new_scenario (round_half_even 0 1) 7 0 (replicate 5 [1; 1])
    [[1; 0]; [1; 1]] [0%Q; 0%Q] booked_out_dists.

(** A working week of five days for two clinicians. *)
Definition two_clinicians (slots : Z) : matrix := replicate 5 [slots; slots].

(** The diary length the specification states: the least integer that is
    at least [1.5 * run_length]. *)
Definition stated_horizon (run_length : Z) : Z := (3 * run_length + 1) / 2.


(** ** Notions for the further properties *)

(** The open slots of the clinicians [opts] on the day of row [i]. *)
Definition available_row (d : Diary) (opts : list nat) (i : nat)
  : option (list Z) :=
  mapM (cell (available_slots d) i) opts.

(** The slots a pooled finder of kind [k] reads on the day of row [i]. *)
Definition slots_row (k : BookerKind) (d : Diary) (opts : list nat) (i : nat)
  : option (list Z) :=
  match k with
  | LowPriorityPooledBooker => available_row d opts i
  | HighPriorityPooledBooker => combined_row d opts i
  end.

(** The entry that [.iat[t, c]] names: absent from [m], present in [m]. *)
Definition no_entry (m : matrix) (t : Z) (c : nat) : Prop :=
  forall i, norm_index (length m) t = Some i -> cell m i c = None.

Definition has_entry (m : matrix) (t : Z) (c : nat) : Prop :=
  exists i v, norm_index (length m) t = Some i /\ cell m i c = Some v.

(** The rows of [m'] are as many and as long as the rows of [m]. *)
Definition same_shape (m m' : matrix) : Prop := map length m' = map length m.

(** Every entry of [m] is still an entry of [m'], with the value it had or
    with a smaller one that is not negative. *)
Definition shrinks (m m' : matrix) : Prop :=
  forall i j v,
    cell m i j = Some v ->
    exists v', cell m' i j = Some v' /\ (v' = v \/ 0 <= v' < v).

(** What a later diary [d'] has in common with an earlier diary [d]. *)
Record diary_extends (d d' : Diary) : Prop := {
  dext_carve_out_shape : same_shape (carve_out_slots d) (carve_out_slots d');
  dext_available_shape : same_shape (available_slots d) (available_slots d');
  dext_bookings_shape : same_shape (bookings d) (bookings d');
  dext_carve_out : shrinks (carve_out_slots d) (carve_out_slots d')
}.

(** The object [p'] is the patient [p] at a later time. *)
Definition same_patient (p p' : PatientReferral) : Prop :=
  identifier p' = identifier p
  /\ referral_t p' = referral_t p
  /\ home_clinic p' = home_clinic p
  /\ kind (booker p') = kind (booker p).

(** What a later state [m'] of the model has in common with an earlier
    state [m]. *)
Record extends (m m' : Model) : Prop := {
  ext_now : now (env m) <= now (env m');
  ext_event_log : event_log m `prefix_of` event_log m';
  ext_referrals : referrals m `prefix_of` referrals m';
  ext_patients :
    forall pid p, patients m !! pid = Some p ->
      exists p', patients m' !! pid = Some p' /\ same_patient p p';
  ext_run_length : run_length (args m') = run_length (args m);
  ext_warm_up_period : warm_up_period (args m') = warm_up_period (args m);
  ext_weekly_slots : weekly_slots (args m') = weekly_slots (args m);
  ext_pooling_np : pooling_np (args m') = pooling_np (args m);
  ext_existing_caseload :
    length (existing_caseload (args m'))
    = length (existing_caseload (args m));
  ext_diary : diary_extends (diary (args m)) (diary (args m'))
}.

(** The program [c] takes every state to a state related to it by [R],
    whether it returns or raises. *)
Definition respects {S A : Type} (R : S -> S -> Prop) (c : Prog S A) : Prop :=
  forall s, R s (c s).1.

(** The patient [self], who was [p] in the state [m], has done nothing in
    [m'] but queue itself for the next day, to check for headroom again. *)
Definition waits_for_headroom (self : nat) (p : PatientReferral)
    (m m' : Model) : Prop :=
  args m' = args m
  /\ event_log m' = event_log m
  /\ referrals m' = referrals m
  /\ random_module m' = random_module m
  /\ now (env m') = now (env m)
  /\ heap (env m')
     = mkQItem (now (env m) + 1) NORMAL (next_eid (env m))
         (ResumePatient self) :: heap (env m)
  /\ exists p',
       patients m' !! self = Some p'
       /\ at_point p' = awaiting_headroom
       /\ kind (booker p') = kind (booker p)
       /\ min_wait (booker p') = min_wait (booker p)
       /\ booked_clinic p' = booked_clinic p
       /\ waiting_time p' = waiting_time p.

(** What holds of the time [t] at which a suspended patient is woken, by
    the point it is suspended at: a process starts on the day of referral;
    a patient of priority 1 checks for headroom from the next day on; the
    assessment that was booked for the day [best_t] is attended on that day
    by a patient of priority 2 and later than that day by a patient of
    priority 1, whose timeout is counted from the day of booking. *)
Definition wake_at (p : PatientReferral) (t : Z) : Prop :=
  match at_point p with
  | at_start => t = referral_t p
  | after_leapfrog_delay | awaiting_headroom => referral_t p + 1 <= t
  | awaiting_assessment best_t =>
      match kind (booker p) with
      | HighPriorityPooledBooker => t = best_t
      | LowPriorityPooledBooker => best_t + 1 <= t
      end
  | _ => True
  end.

(** The [wait] of an attended assessment against its time and the day of
    referral, which is the first part of the identifier. *)
Definition wait_ok (e : Event) : Prop :=
  exists w,
    ev_wait e = Some w
    /\ (ev_pathway e = Priority 2 ->
        1 <= w /\ ev_time e = (ev_patient e).1 + w)
    /\ (ev_pathway e = Priority 1 ->
        6 <= w /\ (ev_patient e).1 + w + 1 <= ev_time e).

(** The invariant of the event loop on waiting times and on the times of
    the event log: an event is logged with the time of the clock or with
    the time of the next day. *)
Record Waits (m : Model) : Prop := {
  waits_clock : 0 <= now (env m);
  waits_times :
    forall e, e ∈ event_log m -> 0 <= ev_time e <= now (env m) + 1;
  waits_recorded :
    forall pid p w, patients m !! pid = Some p -> waiting_time p = Some w ->
      least_wait (kind (booker p)) <= w;
  waits_booked :
    forall pid p best_t, patients m !! pid = Some p ->
      at_point p = awaiting_assessment best_t ->
      least_wait (kind (booker p)) <= best_t - referral_t p;
  waits_queue :
    forall it pid p, it ∈ heap (env m) -> target it = ResumePatient pid ->
      patients m !! pid = Some p -> wake_at p (at_time it);
  waits_log :
    forall e, e ∈ event_log m -> ev_event e = have_appointment ->
      ev_type e = Some assessment -> wait_ok e
}.

(** The same while the patient [self] runs, which then has no event in the
    queue. *)
Definition Waits_running (self : nat) (m : Model) : Prop :=
  Waits m /\ forall it, it ∈ heap (env m) -> target it <> ResumePatient self.

(** A write of the running patient to its own object that keeps what the
    invariant on waiting times reads. *)
Definition keeps_wait (f : PatientReferral -> PatientReferral) : Prop :=
  forall p,
    waiting_time (f p) = waiting_time p
    /\ at_point (f p) = at_point p
    /\ kind (booker (f p)) = kind (booker p)
    /\ referral_t (f p) = referral_t p.

(** The invariant on waiting times while the arrivals generator runs on
    day [t]: the clock shows [t] and the queue refers to stored patients. *)
Definition Waits_arriving (t : Z) (m : Model) : Prop :=
  Waits m
  /\ now (env m) = t
  /\ forall it pid, it ∈ heap (env m) -> target it = ResumePatient pid ->
       (pid < length (patients m))%nat.

(** What process code does to the queue between two states [m] and [m']:
    the clock stands still, what is queued stays queued, and a new entry
    carries a new number and is not the event that ends the run. *)
Record queue_grows (m m' : Model) : Prop := {
  grows_now : now (env m') = now (env m);
  grows_next_eid : (next_eid (env m) <= next_eid (env m'))%nat;
  grows_kept : forall it, it ∈ heap (env m) -> it ∈ heap (env m');
  grows_new :
    forall it, it ∈ heap (env m') ->
      it ∈ heap (env m)
      \/ (target it <> Until /\ (next_eid (env m) <= eid it)%nat)
}.

(** The invariant of the event loop, while it is running, on the end of a
    run of length [rl]: the clock is before [rl]; the event that ends the
    run is queued for [rl], as urgent and as the second event that was ever
    queued; every other entry was queued later, but for the start of the
    arrivals at time 0. *)
Record Horizon (rl : Z) (m : Model) : Prop := {
  hz_now : 0 <= now (env m) < rl;
  hz_queued : exists u, u ∈ heap (env m) /\ target u = Until;
  hz_until :
    forall it, it ∈ heap (env m) -> target it = Until ->
      at_time it = rl /\ urgency it = URGENT /\ eid it = 1%nat;
  hz_others :
    forall it, it ∈ heap (env m) -> target it <> Until ->
      at_time it = 0 \/ (2 <= eid it)%nat;
  hz_next_eid : (2 <= next_eid (env m))%nat
}.
(** * Properties *)

(** ** Cells *)

Lemma wrap_uint8_range x : 0 <= wrap_uint8 x < 256.
Proof. unfold wrap_uint8. apply Z.mod_pos_bound. lia. Qed.

Lemma wrap_uint8_small x : 0 <= x < 256 -> wrap_uint8 x = x.
Proof. intros. unfold wrap_uint8. apply Z.mod_small. lia. Qed.

Lemma wrap_int64_small x : - 2 ^ 63 <= x < 2 ^ 63 -> wrap_int64 x = x.
Proof. intros. unfold wrap_int64. rewrite Z.mod_small; lia. Qed.

Lemma wrap_int64_range x : - 2 ^ 63 <= wrap_int64 x < 2 ^ 63.
Proof.
  unfold wrap_int64.
  pose proof (Z.mod_pos_bound (x + 2 ^ 63) (2 ^ 64) ltac:(lia)). lia.
Qed.

(** An int64 cell keeps its residue modulo 256. *)
Lemma wrap_int64_mod_256 x : wrap_int64 x mod 256 = x mod 256.
Proof.
  unfold wrap_int64.
  rewrite (Z.mod_eq (x + 2 ^ 63) (2 ^ 64)) by lia.
  replace (x + 2 ^ 63 - 2 ^ 64 * ((x + 2 ^ 63) / 2 ^ 64) - 2 ^ 63)
    with (x + (- (2 ^ 56 * ((x + 2 ^ 63) / 2 ^ 64))) * 256) by lia.
  apply Z.mod_add. lia.
Qed.

(** ** Scenario construction *)

Lemma concat_copies_replicate {A : Type} (acc tmpl : list A) n :
  concat_copies acc tmpl n = acc ++ concat (replicate n tmpl).
Proof.
  revert acc. induction n as [|n IH]; intros acc; simpl.
  - by rewrite app_nil_r.
  - rewrite IH. by rewrite <- app_assoc.
Qed.

Lemma length_concat_replicate {A : Type} (tmpl : list A) n :
  length (concat (replicate n tmpl)) = (n * length tmpl)%nat.
Proof.
  induction n as [|n IH]; simpl; [done|]. rewrite length_app, IH. lia.
Qed.

Lemma length_concat_copies {A : Type} (acc tmpl : list A) n :
  length (concat_copies acc tmpl n) = (length acc + n * length tmpl)%nat.
Proof.
  rewrite concat_copies_replicate, length_app, length_concat_replicate. lia.
Qed.

Lemma length_priority_template f (w : matrix) :
  length (priority_template f w) = length w.
Proof. unfold priority_template. by rewrite length_map. Qed.

Lemma length_open_template f (w : matrix) :
  length (open_template f w) = length w.
Proof.
  unfold open_template.
  rewrite length_zip_with_l_eq; [done|]. by rewrite length_priority_template.
Qed.

Lemma horizon_rounds_nonneg run_length :
  0 <= run_length ->
  Z.of_nat (horizon_rounds run_length) = 3 * run_length / 2.
Proof.
  intros H. unfold horizon_rounds.
  rewrite Z.quot_div_nonneg by lia. rewrite Z2Nat.id; [done|].
  apply Z.div_pos; lia.
Qed.

(** The weekly template is entered once before the loop and once per
    round of the loop. *)
Lemma create_diary_repeats f run_length (w : matrix) :
  let n := S (horizon_rounds run_length) in
  carve_out_slots (create_diary f run_length w)
    = concat (replicate n (priority_template f w))
  /\ available_slots (create_diary f run_length w)
    = concat (replicate n (open_template f w))
  /\ bookings (create_diary f run_length w)
    = concat (replicate n (replicate 5 (replicate (n_columns w) 0))).
Proof.
  simpl. unfold create_carve_out, create_slots, create_bookings.
  by rewrite !concat_copies_replicate.
Qed.

(** C8 as amended: for a run length that is not negative and a weekly
    template of five days, the three matrices of a new scenario have
    [5 * (floor(1.5 * run_length) + 1)] days each.  [carve_out] is the
    template [round(weekly_slots * prop_carve_out)], cast to uint8, entered
    [floor(1.5 * run_length) + 1] times down the day axis, [available] is
    [weekly_slots - carve_out] entered as often, and [bookings] is as many
    blocks of five days of zeros. *)
Theorem diary_construction f run_length (w : matrix) :
  0 <= run_length ->
  length w = 5%nat ->
  let d := create_diary f run_length w in
  let n := S (horizon_rounds run_length) in
  Z.of_nat (length (carve_out_slots d)) = 5 * (3 * run_length / 2 + 1)
  /\ Z.of_nat (length (available_slots d)) = 5 * (3 * run_length / 2 + 1)
  /\ Z.of_nat (length (bookings d)) = 5 * (3 * run_length / 2 + 1)
  /\ carve_out_slots d
     = concat (replicate n (map (map (fun x => wrap_uint8 (f x))) w))
  /\ available_slots d
     = concat (replicate n
         (zip_with (zip_with (fun x p => wrap_int64 (x - p))) w
            (map (map (fun x => wrap_uint8 (f x))) w)))
  /\ bookings d
     = concat (replicate n (replicate 5 (replicate (n_columns w) 0))).
Proof.
  intros Hrl Hw d n.
  destruct (create_diary_repeats f run_length w) as (Hc & Ha & Hb).
  pose proof (horizon_rounds_nonneg run_length Hrl) as Hn.
  subst d. rewrite Hc, Ha, Hb.
  rewrite !length_concat_replicate, length_priority_template,
    length_open_template, length_replicate, Hw.
  repeat split; try done; subst n; lia.
Qed.

Lemma diary_construction_witness :
  let d := create_diary (round_half_even 1 2) 10 (two_clinicians 4) in
  Z.of_nat (length (carve_out_slots d)) = 80
  /\ Z.of_nat (length (available_slots d)) = 80
  /\ Z.of_nat (length (bookings d)) = 80.
Proof.
  pose proof (diary_construction (round_half_even 1 2) 10 (two_clinicians 4)
                ltac:(lia) ltac:(reflexivity)) as H.
  simpl in H. destruct H as (H1 & H2 & H3 & _).
  change (5 * (3 * 10 / 2 + 1)) with 80 in *. auto.
Defined.

(** C8 as stated fails: for a run length of ten days the stated length is
    15 days, the diary that is built has 80. *)
Lemma diary_length_not_as_stated :
  stated_horizon 10 = 15
  /\ Z.of_nat
       (length (carve_out_slots
                  (create_diary (round_half_even 1 2) 10 (two_clinicians 4))))
     = 80
  /\ ~ (forall f run_length (w : matrix),
          length w = 5%nat ->
          Z.of_nat (length (carve_out_slots (create_diary f run_length w)))
          = stated_horizon run_length).
Proof.
  split; [reflexivity|]. split; [reflexivity|].
  intros H.
  specialize (H (round_half_even 1 2) 10 (two_clinicians 4) eq_refl).
  vm_compute in H. discriminate H.
Qed.

(** ** Constants *)

(** C9, the constants as the module defines them: the constant
    [HIGH_PRIORITY_MIN_WAIT] is 2 and is read nowhere, the high priority
    booker is built with the literal 1, the low priority booker with
    [LOW_PRIORITY_MIN_WAIT]. *)
Theorem constants_as_defined :
  LOW_PRIORITY_MIN_WAIT = 7
  /\ HIGH_PRIORITY_MIN_WAIT = 2
  /\ min_wait (new_booker HighPriorityPooledBooker) = 1
  /\ min_wait (new_booker HighPriorityPooledBooker) <> HIGH_PRIORITY_MIN_WAIT
  /\ min_wait (new_booker LowPriorityPooledBooker) = LOW_PRIORITY_MIN_WAIT
  /\ LOW_INTENSITY_FOLLOW_UP_TARGET_INTERVAL = 14
  /\ HIGH_INTENSITY_FOLLOW_UP_TARGET_INTERVAL = 7
  /\ TARGET_HIGH = 5
  /\ TARGET_LOW = 20
  /\ BOOKING_TIME_THRESHOLD = 28.
Proof. repeat split; try reflexivity. discriminate. Qed.

(** ** Positions and cells *)

Lemma norm_index_lt len i k : norm_index len i = Some k -> (k < len)%nat.
Proof.
  unfold norm_index. intros H.
  repeat case_match; simplify_eq; lia.
Qed.

Lemma norm_index_nonneg len i :
  0 <= i ->
  norm_index len i = if i <? Z.of_nat len then Some (Z.to_nat i) else None.
Proof. intros H. unfold norm_index. case_match; [done|lia]. Qed.

Lemma or_raise_Ok {A : Type} e (o : option A) a :
  or_raise e o = Ok a <-> o = Some a.
Proof. destruct o; simpl; split; intros; by simplify_eq. Qed.

Lemma cell_insert (m : matrix) i c row v i' j' :
  m !! i = Some row -> (c < length row)%nat ->
  cell (<[i := <[c := v]> row]> m) i' j'
  = if decide (i' = i /\ j' = c) then Some v else cell m i' j'.
Proof.
  intros Hrow Hc. unfold cell.
  destruct (decide (i' = i)) as [->|Hi].
  - rewrite list_lookup_insert_eq by (by eapply lookup_lt_Some).
    rewrite Hrow. destruct (decide (j' = c)) as [->|Hj].
    + rewrite list_lookup_insert_eq by done. by rewrite decide_True.
    + rewrite list_lookup_insert_ne by done. rewrite decide_False; [done|].
      intros [_ ?]. done.
  - rewrite list_lookup_insert_ne by done. rewrite decide_False; [done|].
    intros [? _]. done.
Qed.

(** What an in-place update of one entry does when it succeeds. *)
Lemma iat_update_Ok f (m : matrix) r c m' :
  iat_update f m r c = Ok m' ->
  exists i v,
    norm_index (length m) r = Some i
    /\ cell m i c = Some v
    /\ length m' = length m
    /\ forall i' j',
         cell m' i' j'
         = if decide (i' = i /\ j' = c) then Some (f v) else cell m i' j'.
Proof.
  unfold iat_update, iat, iat_set. intros H.
  destruct (norm_index (length m) r) as [i|] eqn:Hi; simpl in H; [|done].
  destruct (cell m i c) as [v|] eqn:Hv; simpl in H; [|done].
  unfold cell in Hv. destruct (m !! i) as [row|] eqn:Hrow; [|done].
  case_decide as Hc; [|done]. simplify_eq.
  exists i, v. repeat split; try done.
  - unfold cell. by rewrite Hrow.
  - by rewrite length_insert.
  - intros i' j'. by apply cell_insert.
Qed.

(** An in-place update fails exactly when the entry does not exist. *)
Lemma iat_update_Raised f (m : matrix) r c e :
  iat_update f m r c = Raised e ->
  e = IndexError
  /\ forall i, norm_index (length m) r = Some i -> cell m i c = None.
Proof.
  unfold iat_update, iat, iat_set. intros H.
  destruct (norm_index (length m) r) as [i|] eqn:Hi; simpl in H;
    [|by simplify_eq].
  destruct (cell m i c) as [v|] eqn:Hv; simpl in H.
  - unfold cell in Hv. destruct (m !! i) as [row|] eqn:Hrow; [|done].
    case_decide as Hc; [done|].
    apply lookup_lt_Some in Hv. lia.
  - simplify_eq. split; [done|]. intros ? ?. by simplify_eq.
Qed.

Lemma cell_None_nonneg (m : matrix) r c :
  0 <= r ->
  (forall i, norm_index (length m) r = Some i -> cell m i c = None) ->
  cell m (Z.to_nat r) c = None.
Proof.
  intros Hr H. rewrite norm_index_nonneg in H by done.
  case_match eqn:Hlt.
  - by apply H.
  - unfold cell. rewrite lookup_ge_None_2; [done|lia].
Qed.

Lemma slice_from_nonneg {A : Type} start (l : list A) :
  0 <= start -> slice_from start l = drop (Z.to_nat start) l.
Proof. intros H. unfold slice_from. case_match; [done|lia]. Qed.

Lemma first_index_Some {A : Type} (p : A -> bool) (l : list A) k :
  first_index p l = Some k ->
  (exists x, l !! k = Some x /\ p x = true)
  /\ forall j y, (j < k)%nat -> l !! j = Some y -> p y = false.
Proof.
  revert k. induction l as [|x l IH]; intros k H; simpl in H; [done|].
  destruct (p x) eqn:Hpx.
  - simplify_eq. split; [by exists x|]. intros; lia.
  - destruct (first_index p l) as [k'|]; simpl in H; [|done]. simplify_eq.
    destruct (IH k' eq_refl) as [Hk Hlt]. split; [done|].
    intros [|j] y Hj Hy; simpl in Hy; [by simplify_eq|].
    eapply Hlt; [|done]. lia.
Qed.

Lemma first_index_None {A : Type} (p : A -> bool) (l : list A) :
  first_index p l = None <-> forall x, x ∈ l -> p x = false.
Proof.
  induction l as [|x l IH]; simpl.
  - split; [|done]. intros _ y Hy. by apply elem_of_nil in Hy.
  - destruct (p x) eqn:Hpx.
    + split; [done|]. intros H. specialize (H x (list_elem_of_here _ _)).
      congruence.
    + destruct (first_index p l); simpl.
      * split; [done|]. intros H.
        assert (Some n = None) as Hn; [|done].
        apply IH. intros y Hy. apply H. by apply list_elem_of_further.
      * split; [|done]. intros _ y Hy.
        apply elem_of_cons in Hy as [->|Hy]; [done|]. by apply IH.
Qed.

Lemma mapM_lookup_Some {A B : Type} (f : A -> option B) l k i y :
  mapM f l = Some k -> k !! i = Some y ->
  exists x, l !! i = Some x /\ f x = Some y.
Proof.
  intros H Hi. apply mapM_Some in H.
  destruct (Forall2_lookup_r _ _ _ _ _ H Hi) as (x & Hx & Hf). eauto.
Qed.

(** ** Results *)

Lemma bind_Ok {A B : Type} (r : result A) (k : A -> result B) b :
  r ≫= k = Ok b <-> exists a, r = Ok a /\ k a = Ok b.
Proof.
  destruct r as [a|e]; simpl; split.
  - intros H. by exists a.
  - by intros (a' & ? & ?); simplify_eq.
  - done.
  - by intros (? & ? & ?).
Qed.

Lemma guard_Ok {A : Type} (c : bool) e (k : unit -> result A) b :
  (if c then Ok tt else Raised e) ≫= k = Ok b <-> c = true /\ k tt = Ok b.
Proof. destruct c; simpl; split; try done; by intros [? ?]. Qed.

(** ** Where the finders look *)

Lemma slice_from_subseteq {A : Type} start (l : list A) x :
  x ∈ slice_from start l -> x ∈ l.
Proof. unfold slice_from. case_match; apply subseteq_drop. Qed.

Lemma columns_in_range_row (m : matrix) cols row c :
  columns_in_range m cols = true -> row ∈ m -> c ∈ cols ->
  (c < length row)%nat.
Proof.
  unfold columns_in_range. intros H Hrow Hc.
  apply Is_true_true, forallb_True in H.
  rewrite Forall_forall in H. specialize (H row Hrow).
  apply forallb_True in H. rewrite Forall_forall in H.
  specialize (H c Hc). apply Is_true_true in H. by apply Nat.ltb_lt in H.
Qed.

Lemma take_column_in_range (m : matrix) start c :
  columns_in_range m [c] = true ->
  exists col, take_column (slice_from start m) c = Ok col.
Proof.
  intros H. unfold take_column.
  destruct (mapM (fun row : list Z => row !! c) (slice_from start m))
    as [col|] eqn:Hm; [by exists col|].
  assert (is_Some (mapM (fun row : list Z => row !! c) (slice_from start m)))
    as [? Hs]; [|congruence].
  apply mapM_is_Some, Forall_forall. intros row Hrow. simpl.
  apply lookup_lt_is_Some.
  eapply columns_in_range_row; [done| |apply list_elem_of_here].
  by eapply slice_from_subseteq.
Qed.

(** The entries of a column taken from a window that starts at a day that
    is not negative are the cells of that column from that day on. *)
Lemma take_column_cells (m : matrix) start c col k x :
  0 <= start ->
  take_column (slice_from start m) c = Ok col ->
  col !! k = Some x ->
  cell m (Z.to_nat start + k) c = Some x.
Proof.
  intros Hs H Hk. unfold take_column in H. apply or_raise_Ok in H.
  destruct (mapM_lookup_Some _ _ _ _ _ H Hk) as (row & Hrow & Hx).
  rewrite slice_from_nonneg, lookup_drop in Hrow by done.
  unfold cell. by rewrite Hrow.
Qed.

Lemma length_take_column (m : matrix) start c col :
  take_column (slice_from start m) c = Ok col ->
  length col = length (slice_from start m).
Proof.
  unfold take_column. intros H. apply or_raise_Ok in H.
  symmetry. by eapply length_mapM.
Qed.

(** ** [RepeatBooker.find_slot] *)

Lemma repeat_find_slot_bound rb d t day c :
  repeat_find_slot rb d t = Ok (day, c) ->
  t + repeat_min_wait rb <= day /\ c = clinic_id rb.
Proof.
  unfold repeat_find_slot. intros H.
  apply guard_Ok in H as [_ H].
  apply bind_Ok in H as (col & _ & H).
  apply bind_Ok in H as (first & _ & H).
  simplify_eq. split; [lia|done].
Qed.

(** When the column of the clinician has no positive entry from the start
    of the window on, the start of the window is returned. *)
Lemma repeat_find_slot_no_slot rb d t :
  columns_in_range (available_slots d) [clinic_id rb] = true ->
  0 <= t + repeat_min_wait rb < Z.of_nat (length (available_slots d)) ->
  (forall i x, (Z.to_nat (t + repeat_min_wait rb) <= i)%nat ->
     cell (available_slots d) i (clinic_id rb) = Some x -> x <= 0) ->
  repeat_find_slot rb d t = Ok (t + repeat_min_wait rb, clinic_id rb).
Proof.
  intros Hcols Hwin Hnone. unfold repeat_find_slot.
  rewrite Hcols. simpl.
  destruct (take_column_in_range (available_slots d)
              (t + repeat_min_wait rb) _ Hcols) as [col Hcol].
  rewrite Hcol. simpl.
  assert (length col <> 0%nat) as Hlen.
  { rewrite (length_take_column _ _ _ _ Hcol), slice_from_nonneg by lia.
    rewrite length_drop. lia. }
  assert (first_index (fun b : bool => b) (map positive col) = None) as Hf.
  { apply first_index_None. intros b Hb.
    apply list_elem_of_fmap in Hb as (x & -> & Hx).
    apply list_elem_of_lookup in Hx as [k Hk].
    pose proof (take_column_cells _ _ _ _ _ _ (proj1 Hwin) Hcol Hk) as Hc.
    apply Hnone in Hc; [|lia]. unfold positive. lia. }
  unfold argmax_flag. rewrite Hf.
  destruct col as [|x col]; [done|]. simpl. f_equal. f_equal. lia.
Qed.

(** ** The pooled finders *)

Lemma pick_slot_bound clinic_slots opts g mw t limit day c g' :
  pick_slot clinic_slots opts g mw t limit = Ok (day, c, g') ->
  exists best_t : nat,
    earliest_day clinic_slots limit = Ok best_t
    /\ day = Z.of_nat best_t + mw + t.
Proof.
  unfold pick_slot. intros H.
  apply bind_Ok in H as (best_t & Hb & H).
  apply bind_Ok in H as (row & _ & H).
  apply bind_Ok in H as ([sample g1] & _ & H).
  apply bind_Ok in H as (best & _ & H).
  simplify_eq. by exists best_t.
Qed.

Lemma find_slot_bound b d pool g t home limit day c g' :
  find_slot b d pool g t home limit = Ok (day, c, g') ->
  t + min_wait b <= day.
Proof.
  unfold find_slot. intros H.
  apply bind_Ok in H as (opts & _ & H).
  apply bind_Ok in H as (slots & _ & H).
  apply pick_slot_bound in H as (best_t & _ & ->). lia.
Qed.

(** ** Rules for programs *)

Section ProgramRules.

Context {S : Type}.

Lemma wp_ret {A : Type} (a : A) Q (E : S -> Prop) s :
  Q a s -> wp (mret a) Q E s.
Proof. done. Qed.

Lemma wp_bind {A B : Type} (c : Prog S A) (k : A -> Prog S B) Q E s :
  wp c (fun a => wp (k a) Q E) E s -> wp (c ≫= k) Q E s.
Proof.
  unfold wp, mbind, prog_bind. by destruct (c s) as [s' [a|e]].
Qed.

Lemma wp_conseq {A : Type} (c : Prog S A) (Q Q' : A -> S -> Prop)
    (E E' : S -> Prop) s :
  wp c Q E s ->
  (forall a s', Q a s' -> Q' a s') -> (forall s', E s' -> E' s') ->
  wp c Q' E' s.
Proof.
  unfold wp. destruct (c s) as [s' [a|e]]; eauto.
Qed.

Lemma wp_gets {A : Type} (f : S -> A) Q (E : S -> Prop) s :
  Q (f s) s -> wp (gets f) Q E s.
Proof. done. Qed.

Lemma wp_modify (f : S -> S) Q (E : S -> Prop) s :
  Q tt (f s) -> wp (modify f) Q E s.
Proof. done. Qed.

Lemma wp_lift {A : Type} (r : result A) (Q : A -> S -> Prop) E s :
  (forall a, r = Ok a -> Q a s) -> (forall e, r = Raised e -> E s) ->
  wp (lift r) Q E s.
Proof. unfold wp, lift. destruct r; eauto. Qed.

Lemma wp_raise {A : Type} e (Q : A -> S -> Prop) (E : S -> Prop) s :
  E s -> wp (raise e) Q E s.
Proof. done. Qed.

(** A loop keeps what every pass of its body keeps. *)
Lemma wp_for_each {A : Type} (l : list A) (body : A -> Prog S unit)
    (I E : S -> Prop) s :
  (forall x s', x ∈ l -> I s' -> wp (body x) (fun _ => I) E s') ->
  I s -> wp (for_each l body) (fun _ => I) E s.
Proof.
  revert s. induction l as [|x l IH]; intros s Hbody HI; simpl.
  - done.
  - apply wp_bind. eapply wp_conseq.
    + apply Hbody; [apply list_elem_of_here|done].
    + intros u s' HI'. apply IH; [|done].
      intros y s'' Hy. apply Hbody. by apply list_elem_of_further.
    + done.
Qed.

End ProgramRules.

(** ** Booking on the diary *)

Lemma only_at_refl (m : matrix) t c : only_at m m t c.
Proof. by split. Qed.

Lemma iat_update_only_at f (m : matrix) t c m' :
  iat_update f m t c = Ok m' -> only_at m m' t c.
Proof.
  intros H. apply iat_update_Ok in H as (i & v & Hi & _ & Hlen & Hcells).
  split; [done|]. intros i' j' Hne. rewrite Hcells.
  rewrite decide_False; [done|]. intros [-> ->]. by apply Hne.
Qed.

(** [book_slot] of the low priority booker leaves the carve-out matrix as
    it is and touches the two other matrices at the booked entry only,
    also when it raises half way. *)
Lemma book_slot_low_frame t c d d' r :
  book_slot_low t c d = (d', r) ->
  carve_out_slots d' = carve_out_slots d
  /\ only_at (available_slots d) (available_slots d') t c
  /\ only_at (bookings d) (bookings d') t c.
Proof.
  unfold book_slot_low, mbind, prog_bind, in_place, decrement_int64,
    increment_uint8. simpl.
  destruct (iat_update _ (available_slots d) t c) as [a'|e] eqn:Ha; simpl.
  - destruct (iat_update _ (bookings d) t c) as [b'|e] eqn:Hb; simpl;
      intros; simplify_eq; simpl; repeat split;
      eauto using iat_update_only_at, only_at_refl;
      eapply iat_update_only_at; eauto.
  - intros; simplify_eq. repeat split; apply only_at_refl.
Qed.

Lemma repeat_book_slot_frame rb t d d' r :
  repeat_book_slot rb t d = (d', r) ->
  carve_out_slots d' = carve_out_slots d
  /\ only_at (available_slots d) (available_slots d') t (clinic_id rb)
  /\ only_at (bookings d) (bookings d') t (clinic_id rb).
Proof. apply book_slot_low_frame. Qed.

(** An in-place update at a day that is not negative. *)
Lemma iat_update_nonneg f (m : matrix) t c :
  0 <= t ->
  match iat_update f m t c with
  | Ok m' =>
      exists v, cell m (Z.to_nat t) c = Some v
        /\ forall i j,
             cell m' i j
             = if decide (i = Z.to_nat t /\ j = c) then Some (f v)
               else cell m i j
  | Raised _ => cell m (Z.to_nat t) c = None
  end.
Proof.
  intros Ht. destruct (iat_update f m t c) as [m'|e] eqn:H.
  - apply iat_update_Ok in H as (i & v & Hi & Hv & _ & Hcells).
    rewrite norm_index_nonneg in Hi by done. case_match; simplify_eq.
    by exists v.
  - apply iat_update_Raised in H as [_ H]. by apply cell_None_nonneg.
Qed.

Lemma balance_after_booking b X a a' :
  b = X mod 256 -> a' mod 256 = (a - 1) mod 256 ->
  wrap_uint8 (b + 1) = (X + a - a') mod 256.
Proof.
  intros -> Ha. unfold wrap_uint8.
  rewrite Zplus_mod_idemp_l.
  rewrite <- (Zminus_mod_idemp_r (X + a) a'), Ha, Zminus_mod_idemp_r.
  f_equal. lia.
Qed.

(** Taking a slot from the public pool and counting the booking. *)
Lemma book_available_balanced d0 f t c d :
  0 <= t -> (forall v, f v mod 256 = (v - 1) mod 256) ->
  diary_balanced d0 d ->
  diary_balanced d0
    ((in_place available_slots set_available_slots
        (fun m => iat_update f m t c);;
      in_place bookings set_bookings (fun m => increment_uint8 m t c)) d).1.
Proof.
  intros Ht Hf Hbal.
  unfold mbind, prog_bind, in_place, increment_uint8.
  pose proof (iat_update_nonneg f (available_slots d) t c Ht) as Ha.
  destruct (iat_update f (available_slots d) t c) as [a'|e]; simpl; [|done].
  destruct Ha as (va & Hva & Ha).
  pose proof (iat_update_nonneg (fun v => wrap_uint8 (v + 1)) (bookings d)
                t c Ht) as Hb.
  destruct (iat_update _ (bookings d) t c) as [b'|e]; simpl.
  - destruct Hb as (vb & Hvb & Hb).
    intros i j b a cv a0 c0. simpl. rewrite Hb, Ha.
    case_decide as Hij.
    + destruct Hij as [-> ->]. intros; simplify_eq.
      replace (a0 - f va + (c0 - cv)) with ((a0 - va + (c0 - cv)) + va - f va)
        by lia.
      apply balance_after_booking; [|done]. by eapply Hbal.
    + apply Hbal.
  - intros i j b a cv a0 c0. simpl. rewrite Ha.
    case_decide as Hij.
    + destruct Hij as [-> ->]. intros; simplify_eq.
    + apply Hbal.
Qed.

(** Taking a slot from the carve-out pool and counting the booking. *)
Lemma book_carve_out_balanced d0 f t c d :
  0 <= t -> (forall v, f v mod 256 = (v - 1) mod 256) ->
  diary_balanced d0 d ->
  diary_balanced d0
    ((in_place carve_out_slots set_carve_out_slots
        (fun m => iat_update f m t c);;
      in_place bookings set_bookings (fun m => increment_uint8 m t c)) d).1.
Proof.
  intros Ht Hf Hbal.
  unfold mbind, prog_bind, in_place, increment_uint8.
  pose proof (iat_update_nonneg f (carve_out_slots d) t c Ht) as Ha.
  destruct (iat_update f (carve_out_slots d) t c) as [a'|e]; simpl; [|done].
  destruct Ha as (va & Hva & Ha).
  pose proof (iat_update_nonneg (fun v => wrap_uint8 (v + 1)) (bookings d)
                t c Ht) as Hb.
  destruct (iat_update _ (bookings d) t c) as [b'|e]; simpl.
  - destruct Hb as (vb & Hvb & Hb).
    intros i j b a cv a0 c0. simpl. rewrite Hb, Ha.
    case_decide as Hij.
    + destruct Hij as [-> ->]. intros; simplify_eq.
      replace (a0 - a + (c0 - f va)) with ((a0 - a + (c0 - va)) + va - f va)
        by lia.
      apply balance_after_booking; [|done]. by eapply Hbal.
    + apply Hbal.
  - intros i j b a cv a0 c0. simpl. rewrite Ha.
    case_decide as Hij.
    + destruct Hij as [-> ->]. intros; simplify_eq.
    + apply Hbal.
Qed.

Lemma decrement_int64_mod v : wrap_int64 (v - 1) mod 256 = (v - 1) mod 256.
Proof. apply wrap_int64_mod_256. Qed.

Lemma decrement_uint8_mod v : wrap_uint8 (v - 1) mod 256 = (v - 1) mod 256.
Proof. unfold wrap_uint8. apply Z.mod_mod. lia. Qed.

Lemma book_slot_low_balanced d0 t c d :
  0 <= t -> diary_balanced d0 d ->
  diary_balanced d0 (book_slot_low t c d).1.
Proof.
  intros. apply book_available_balanced; auto using decrement_int64_mod.
Qed.

Lemma repeat_book_slot_balanced d0 rb t d :
  0 <= t -> diary_balanced d0 d ->
  diary_balanced d0 (repeat_book_slot rb t d).1.
Proof.
  intros. apply book_available_balanced; auto using decrement_int64_mod.
Qed.

Lemma book_slot_high_balanced d0 t c d :
  0 <= t -> diary_balanced d0 d ->
  diary_balanced d0 (book_slot_high t c d).1.
Proof.
  intros Ht Hbal. unfold book_slot_high.
  unfold mbind at 1. unfold prog_bind at 1.
  destruct (iat (carve_out_slots d) t c) as [reserved|e]; [|done].
  destruct (0 <? reserved).
  - apply book_carve_out_balanced; auto using decrement_uint8_mod.
  - apply book_available_balanced; auto using decrement_int64_mod.
Qed.

Lemma book_slot_balanced d0 b t c d :
  0 <= t -> diary_balanced d0 d ->
  diary_balanced d0 (book_slot b t c d).1.
Proof.
  intros. unfold book_slot.
  destruct (kind b); auto using book_slot_low_balanced,
    book_slot_high_balanced.
Qed.

(** ** The queue *)

Lemma before_false_time a b : before a b = false -> at_time b <= at_time a.
Proof.
  unfold before. intros H.
  apply orb_false_iff in H as [H _]. lia.
Qed.

Lemma before_true_time a b : before a b = true -> at_time a <= at_time b.
Proof.
  unfold before. intros H.
  apply orb_true_iff in H as [H|H]; [lia|].
  apply andb_true_iff in H as [H _]. lia.
Qed.

(** [heappop] takes out an entry with the least time. *)
Lemma heappop_Some q x rest :
  heappop q = Some (x, rest) ->
  q ≡ₚ x :: rest /\ forall y, y ∈ rest -> at_time x <= at_time y.
Proof.
  revert x rest. induction q as [|z q IH]; intros x rest H; simpl in H;
    [done|].
  destruct (heappop q) as [[y rest']|] eqn:Hq.
  - destruct (IH y rest' eq_refl) as [Hperm Hmin].
    destruct (before y z) eqn:Hb; simplify_eq.
    + split.
      * rewrite Hperm. apply perm_swap.
      * intros w Hw. apply elem_of_cons in Hw as [->|Hw].
        -- by apply before_true_time.
        -- by apply Hmin.
    + split; [done|]. intros w Hw.
      apply before_false_time in Hb.
      rewrite Hperm in Hw. apply elem_of_cons in Hw as [->|Hw]; [done|].
      specialize (Hmin w Hw). lia.
  - simplify_eq. destruct q; [|simpl in Hq; repeat case_match; done].
    split; [done|]. intros y Hy. by apply elem_of_nil in Hy.
Qed.

Lemma resumables_cons it h :
  resumables (it :: h)
  = if resumable (target it) then target it :: resumables h
    else resumables h.
Proof. unfold resumables. simpl. by destruct (resumable (target it)). Qed.

Lemma elem_of_resumables tg h :
  tg ∈ resumables h <-> resumable tg = true /\ exists it, it ∈ h /\ target it = tg.
Proof.
  unfold resumables. rewrite list_elem_of_omap. split.
  - intros (it & Hit & H). destruct (resumable (target it)) eqn:Hr; [|done].
    simplify_eq. eauto.
  - intros (Hr & it & Hit & <-). exists it. by rewrite Hr.
Qed.

Lemma resumables_perm h h' : h ≡ₚ h' -> resumables h ≡ₚ resumables h'.
Proof. intros H. unfold resumables. by rewrite H. Qed.

(** ** The invariant under the writes of process code *)

Lemma booked_evidence_mono log log' t t' p :
  booked_evidence log t p -> log ⊆ log' -> t <= t' ->
  booked_evidence log' t' p.
Proof.
  intros (e & He & H1 & H2 & H3 & H4) Hsub Ht.
  exists e. repeat split; [by apply Hsub|done..|lia].
Qed.

Lemma point_ok_mono log log' t t' p :
  point_ok log t p -> log ⊆ log' -> t <= t' -> point_ok log' t' p.
Proof.
  unfold point_ok. intros H Hsub Ht.
  destruct (at_point p); try done.
  - by eapply booked_evidence_mono.
  - destruct H. split; [|done]. by eapply booked_evidence_mono.
Qed.

Lemma log_ok_snoc log e :
  log_ok log -> event_in_order log e -> log_ok (log ++ [e]).
Proof.
  intros Hlog He i x Hi Hx.
  apply lookup_app_Some in Hi as [Hi|[Hlen Hi]].
  - destruct (Hlog i x Hi Hx) as [(j & e' & Hj & He' & Hrest) Hb].
    split; [|done]. exists j, e'. split; [done|]. split; [|done].
    by apply lookup_app_l_Some.
  - destruct (length log) eqn:Hl in Hi at 1.
    all: apply list_lookup_singleton_Some in Hi as [Hi ->].
    all: destruct (He Hx) as [(e' & Hin & Hrest) Hb].
    all: split; [|done].
    all: apply list_elem_of_lookup in Hin as [j Hj].
    all: exists j, e'; split; [apply lookup_lt_Some in Hj; lia|].
    all: split; [by apply lookup_app_l_Some|done].
Qed.

Section InvariantWrites.

Context (d0 : Diary).

(** The invariant reads the queue, the patients, the log, the diary, the
    warm-up period, the retained patients and the day counter; a write to
    anything else keeps it. *)
Lemma Inv_footprint a m m' :
  env m' = env m -> patients m' = patients m ->
  event_log m' = event_log m -> diary (args m') = diary (args m) ->
  warm_up_period (args m') = warm_up_period (args m) ->
  referrals m' = referrals m -> arrivals_t m' = arrivals_t m ->
  Inv d0 a m -> Inv d0 a m'.
Proof.
  intros He Hp Hl Hd Hw Hr Ht [].
  constructor; rewrite ?He, ?Hp, ?Hl, ?Hd, ?Hw, ?Hr, ?Ht; done.
Qed.

Lemma Inv_set_dists a m ds :
  Inv d0 a m -> Inv d0 a (set_args (set_dists ds (args m)) m).
Proof. by apply Inv_footprint. Qed.

Lemma Inv_set_caseload a m c :
  Inv d0 a m -> Inv d0 a (set_args (set_existing_caseload c (args m)) m).
Proof. by apply Inv_footprint. Qed.

Lemma Inv_set_random a m g : Inv d0 a m -> Inv d0 a (set_random_module g m).
Proof. by apply Inv_footprint. Qed.

Lemma Inv_set_diary a m d :
  Inv d0 a m -> diary_balanced d0 d ->
  Inv d0 a (set_args (set_diary d (args m)) m).
Proof. intros [] Hd. by constructor. Qed.

Lemma Inv_append_event a m e :
  Inv d0 a m -> event_in_order (event_log m) e ->
  Inv d0 a (set_event_log (event_log m ++ [e]) m).
Proof.
  intros [] He. constructor; simpl; try done.
  - intros pid p Hp. destruct (inv_patients0 pid p Hp) as (? & ? & Hpt).
    repeat split; try done. intros Ha.
    eapply point_ok_mono; [by apply Hpt| |done].
    intros x Hx. apply elem_of_app. by left.
  - by apply log_ok_snoc.
Qed.

(** The running patient may write to its own object what keeps the day of
    referral and the identifier. *)
Lemma Inv_update_self self m f :
  Inv d0 (Some (ResumePatient self)) m ->
  (forall p, referral_t (f p) = referral_t p
             /\ identifier (f p) = identifier p) ->
  Inv d0 (Some (ResumePatient self))
    (set_patients (alter f self (patients m)) m).
Proof.
  intros [] Hf. constructor; simpl; try done.
  - intros it pid Hit Htg. rewrite length_alter. eauto.
  - intros pid p Hp. rewrite list_lookup_alter in Hp.
    case_decide as Hpid.
    + subst pid. destruct (patients m !! self) as [p0|] eqn:Hp0; [|done].
      simpl in Hp. simplify_eq. destruct (Hf p0) as [-> ->].
      destruct (inv_patients0 self p0 Hp0) as (? & ? & _).
      repeat split; try done.
    + eauto.
  - intros it pid p Hit Htg Hp. rewrite list_lookup_alter in Hp.
    case_decide as Hpid.
    + subst pid. exfalso. by eapply inv_idle0.
    + eauto.
  - intros pid p Hp. rewrite list_lookup_alter in Hp.
    case_decide as Hpid.
    + subst pid. destruct (patients m !! self) as [p0|] eqn:Hp0; [|done].
      simpl in Hp. simplify_eq. destruct (Hf p0) as [-> _]. eauto.
    + eauto.
  - intros pid Hpid. rewrite length_alter. eauto.
Qed.

(** The running patient stops being the running one once its object is at
    a program point whose conditions hold. *)
Lemma Inv_settle self m pt :
  Inv d0 (Some (ResumePatient self)) m ->
  (forall p, patients m !! self = Some p ->
     point_ok (event_log m) (now (env m)) (set_at_point pt p)) ->
  Inv d0 None (set_patients (alter (set_at_point pt) self (patients m)) m).
Proof.
  intros HI Hpt.
  pose proof (Inv_update_self self m (set_at_point pt) HI
                ltac:(by intros [])) as [].
  destruct HI as [_ _ _ _ Hidle _ Hpat _ _ _ _ _].
  constructor; simpl in *; try done.
  intros pid p Hp. destruct (inv_patients0 pid p Hp) as (? & ? & Hok).
  repeat split; try done. intros _.
  destruct (decide (pid = self)) as [->|Hne].
  - rewrite list_lookup_alter_eq in Hp.
    destruct (patients m !! self) as [p0|] eqn:Hp0; [|done].
    simpl in Hp. simplify_eq. by apply Hpt.
  - apply Hok. congruence.
Qed.

Lemma elem_of_schedule it tg prio delay e :
  it ∈ heap (schedule tg prio delay e) ->
  it = mkQItem (now e + delay) prio (next_eid e) tg \/ it ∈ heap e.
Proof. simpl. by rewrite elem_of_cons. Qed.

(** Queueing an event that resumes nothing. *)
Lemma Inv_schedule_other a m tg prio delay :
  Inv d0 a m -> resumable tg = false -> a <> Some tg -> 0 <= delay ->
  Inv d0 a (set_env (schedule tg prio delay (env m)) m).
Proof.
  intros [] Htg Ha Hd. constructor; try done.
  - intros it Hit. apply elem_of_cons in Hit as [->|Hit]; simpl; [lia|eauto].
  - intros it pid Hit Hpid. apply elem_of_cons in Hit as [->|Hit]; [|eauto].
    simpl in Hpid. subst tg. done.
  - change (NoDup (resumables (mkQItem (now (env m) + delay) prio
                                 (next_eid (env m)) tg :: heap (env m)))).
    rewrite resumables_cons. simpl. by rewrite Htg.
  - intros tg' it -> Hit. apply elem_of_cons in Hit as [->|Hit]; [|eauto].
    simpl. congruence.
  - intros it Hit Hr. apply elem_of_cons in Hit as [->|Hit]; [|eauto].
    simpl in Hr. subst tg. done.
  - intros it pid p Hit Hpid Hp.
    apply elem_of_cons in Hit as [->|Hit]; [|eauto].
    simpl in Hpid. subst tg. done.
Qed.

End InvariantWrites.

(** ** Rules for the writes of process code *)

Lemma wp_self_obj self (Q : PatientReferral -> Model -> Prop) E m :
  match patients m !! self with
  | Some p => Q p m
  | None => E m
  end ->
  wp (self_obj self) Q E m.
Proof. unfold wp, self_obj. by destruct (patients m !! self). Qed.

Lemma wp_draw {A : Type} (get : Distributions -> Dist A) set
    (Q : A -> Model -> Prop) E m :
  (forall x ds, Q x (set_args (set_dists ds (args m)) m)) ->
  wp (draw get set) Q E m.
Proof. intros H. unfold wp, draw. simpl. apply H. Qed.

Lemma wp_draw_referred_out clinic_id (Q : bool -> Model -> Prop) E m :
  (forall x ds, Q x (set_args (set_dists ds (args m)) m)) -> E m ->
  wp (draw_referred_out clinic_id) Q E m.
Proof.
  intros H HE. unfold wp, draw_referred_out.
  destruct (clinics (dists (args m)) !! clinic_id); simpl; [apply H|done].
Qed.

Lemma wp_append_event e (Q : unit -> Model -> Prop) E m :
  Q tt (set_event_log (event_log m ++ [e]) m) -> wp (append_event e) Q E m.
Proof. done. Qed.

Lemma wp_update_self self f (Q : unit -> Model -> Prop) E m :
  Q tt (set_patients (alter f self (patients m)) m) ->
  wp (update_self self f) Q E m.
Proof. done. Qed.

Lemma wp_on_diary {A : Type} (p : Prog Diary A) (Q : A -> Model -> Prop) E m :
  (forall d' a, p (diary (args m)) = (d', Ok a) ->
     Q a (set_args (set_diary d' (args m)) m)) ->
  (forall d' e, p (diary (args m)) = (d', Raised e) ->
     E (set_args (set_diary d' (args m)) m)) ->
  wp (on_diary p) Q E m.
Proof.
  intros HQ HE. unfold wp, on_diary.
  destruct (p (diary (args m))) as [d' [a|e]] eqn:Hp; eauto.
Qed.

Lemma wp_find_slot_in_model b t c limit (Q : Z * nat -> Model -> Prop) E m :
  (forall day c' g',
     find_slot b (diary (args m)) (pooling_np (args m)) (random_module m) t c
       limit = Ok (day, c', g') ->
     Q (day, c') (set_random_module g' m)) ->
  E m ->
  wp (find_slot_in_model b t c limit) Q E m.
Proof.
  intros HQ HE. unfold wp, find_slot_in_model.
  destruct (find_slot _ _ _ _ _ _ _) as [[[day c'] g']|e]; eauto.
Qed.

Lemma wp_caseload_add k v (Q : unit -> Model -> Prop) E m :
  (forall c, Q tt (set_args (set_existing_caseload c (args m)) m)) -> E m ->
  wp (caseload_add k v) Q E m.
Proof.
  intros HQ HE. unfold wp, caseload_add.
  destruct (existing_caseload (args m) !! k); eauto.
Qed.

Lemma wp_yield_timeout self delay pt (Q : Suspension -> Model -> Prop) E m :
  (delay < 0 -> E m) ->
  (0 <= delay ->
   Q Yield
     (set_patients
        (alter (set_at_point pt) self (patients m))
        (set_env (schedule (ResumePatient self) NORMAL delay (env m)) m))) ->
  wp (yield_timeout self delay pt) Q E m.
Proof.
  intros HE HQ. unfold wp, yield_timeout, timeout, update_self, modify,
    mbind, prog_bind, mret, prog_ret.
  destruct (delay <? 0) eqn:Hd; [apply HE; lia|apply HQ; lia].
Qed.

Section InvariantSteps.

Context (d0 : Diary).

(** The running patient yields a timeout: it is queued once, for a time
    and at a program point whose conditions hold. *)
Lemma Inv_yield self m delay pt :
  Inv d0 (Some (ResumePatient self)) m -> 0 <= delay ->
  (forall p, patients m !! self = Some p ->
     point_ok (event_log m) (now (env m)) (set_at_point pt p)
     /\ wake_ok (set_at_point pt p) (now (env m) + delay)) ->
  is_Some (patients m !! self) ->
  Inv d0 None
    (set_patients
       (alter (set_at_point pt) self (patients m))
       (set_env (schedule (ResumePatient self) NORMAL delay (env m)) m)).
Proof.
  intros [] Hd Hpt Hself. constructor; simpl.
  - done.
  - intros it Hit. apply elem_of_cons in Hit as [->|Hit]; simpl; [lia|eauto].
  - intros it pid Hit Hpid. rewrite length_alter.
    apply elem_of_cons in Hit as [->|Hit]; [|eauto].
    simpl in Hpid. simplify_eq. by apply lookup_lt_is_Some.
  - change (NoDup (resumables (mkQItem (now (env m) + delay) NORMAL
                                 (next_eid (env m)) (ResumePatient self)
                               :: heap (env m)))).
    rewrite resumables_cons. simpl. apply NoDup_cons. split; [|done].
    intros Hin. apply elem_of_resumables in Hin as (_ & it & Hit & Htg).
    by eapply inv_idle0.
  - done.
  - intros it Hit Htg. apply elem_of_cons in Hit as [->|Hit]; [done|eauto].
  - intros pid p Hp. rewrite list_lookup_alter in Hp. case_decide as Hpid.
    + subst pid. destruct (patients m !! self) as [p0|] eqn:Hp0; [|done].
      simpl in Hp. simplify_eq.
      destruct (inv_patients0 self p0 Hp0) as (? & ? & _).
      repeat split; try done. intros _. by apply Hpt.
    + destruct (inv_patients0 pid p Hp) as (? & ? & Hok).
      repeat split; try done. intros _. apply Hok. congruence.
  - intros it pid p Hit Htg Hp. rewrite list_lookup_alter in Hp.
    apply elem_of_cons in Hit as [->|Hit].
    + simpl in Htg. simplify_eq. rewrite decide_True in Hp by done.
      destruct (patients m !! pid) as [p0|] eqn:Hp0; [|done].
      simpl in Hp. simplify_eq. by apply Hpt.
    + case_decide as Hpid; [|eauto].
      subst pid. exfalso. by eapply inv_idle0.
  - done.
  - done.
  - intros pid p Hp. rewrite list_lookup_alter in Hp. case_decide as Hpid.
    + subst pid. destruct (patients m !! self) as [p0|] eqn:Hp0; [|done].
      simpl in Hp. simplify_eq. simpl. by apply inv_referrals0.
    + eauto.
  - intros pid Hpid. rewrite length_alter. eauto.
Qed.

End InvariantSteps.

(** ** The invariant along [execute] *)

Lemma event_in_order_other log e :
  ev_event e <> have_appointment -> event_in_order log e.
Proof. intros H He. done. Qed.

(** One statement of process code: the rule for the statement, and the
    invariant [HI] of the state moved over it. *)
Ltac wp_cmd HI c :=
  lazymatch c with
  | gets _ => apply wp_gets
  | mret _ => apply wp_ret
  | draw _ _ =>
      let x := fresh "x" in
      let ds := fresh "ds" in
      apply wp_draw; intros x ds; apply (Inv_set_dists _ _ _ ds) in HI
  | caseload_add _ _ =>
      apply wp_caseload_add;
      [let c := fresh "c" in
       intros c; apply (Inv_set_caseload _ _ _ c) in HI
      |exact HI]
  | append_event ?e =>
      apply wp_append_event;
      apply (Inv_append_event _ _ _ e) in HI;
      [|try (apply event_in_order_other; discriminate)]
  | update_self ?s ?f =>
      apply wp_update_self;
      apply (Inv_update_self _ s _ f) in HI; [|try (by intros [])]
  end; cbv beta.

Ltac wp_step HI :=
  lazymatch goal with
  | |- wp (mbind _ ?c) _ _ _ => apply wp_bind; wp_cmd HI c
  | |- wp ?c _ _ _ => wp_cmd HI c
  end.

(** Reading the object of the running patient, known to be [Hp]. *)
Ltac wp_self Hp :=
  lazymatch goal with
  | |- wp (mbind _ (self_obj _)) _ _ _ => apply wp_bind
  | |- _ => idtac
  end;
  apply wp_self_obj; simpl; rewrite ?list_lookup_alter_eq, ?Hp; simpl.

Section PatientSteps.

Context (d0 : Diary).

Lemma discharge_Inv self m p :
  Inv d0 (Some (ResumePatient self)) m -> patients m !! self = Some p ->
  wp (discharge self) (fun _ => Inv d0 None)
    (Inv d0 (Some (ResumePatient self))) m.
Proof.
  intros HI Hp. unfold discharge.
  wp_self Hp. wp_step HI.
  assert (forall m', Inv d0 (Some (ResumePatient self)) m' ->
            wp (append_event
                  (patient_event p arrival_departure depart
                     (now (env m) + 1));;
                update_self self (set_at_point finished);;
                mret Return)
              (fun _ => Inv d0 None) (Inv d0 (Some (ResumePatient self))) m')
    as Hrest.
  { clear HI Hp. intros m' HI. wp_step HI.
    apply wp_bind, wp_update_self, wp_ret.
    by apply Inv_settle. }
  destruct (follow_up_intensity p) as [[|]|].
  - wp_step HI. by apply Hrest.
  - wp_step HI. by apply Hrest.
  - wp_step HI. by apply Hrest.
Qed.

Lemma booked_evidence_snoc p t e log :
  ev_event e = appointment_booked_waiting -> ev_patient e = identifier p ->
  ev_booked_clinic e = Some (booked_clinic p) -> ev_time e <= t ->
  booked_evidence (log ++ [e]) t p.
Proof.
  intros. exists e. repeat split; try done.
  apply elem_of_app. right. apply list_elem_of_here.
Qed.

Lemma booked_evidence_grow p t e log :
  booked_evidence log t p -> booked_evidence (log ++ [e]) t p.
Proof.
  intros H. eapply booked_evidence_mono; [done| |done].
  intros x Hx. apply elem_of_app. by left.
Qed.

Lemma follow_up_iteration_Inv self m p i num_appts rb :
  Inv d0 (Some (ResumePatient self)) m -> patients m !! self = Some p ->
  booked_evidence (event_log m) (now (env m)) p ->
  0 <= repeat_min_wait rb -> referral_t p <= now (env m) ->
  wp (follow_up_iteration self i num_appts rb) (fun _ => Inv d0 None)
    (Inv d0 (Some (ResumePatient self))) m.
Proof.
  intros HI Hp Hev Hmw Hnow. unfold follow_up_iteration.
  destruct (i <? num_appts)%nat; [|by eapply discharge_Inv].
  pose proof (inv_now _ _ _ HI) as Hnow0.
  wp_self Hp. wp_step HI. wp_step HI.
  apply wp_bind, wp_lift; [|by intros].
  intros [best_t c] Hfind. apply repeat_find_slot_bound in Hfind as [Hbest _].
  apply wp_bind, wp_on_diary.
  - intros d' [] Hbook.
    apply (Inv_set_diary _ _ _ d') in HI.
    2:{ replace d' with (repeat_book_slot rb best_t (diary (args m))).1
          by (by rewrite Hbook).
        apply repeat_book_slot_balanced; [lia|apply HI]. }
    wp_step HI.
    apply wp_yield_timeout; [by intros|]. intros Hdelay.
    apply Inv_yield; [done|done| |by simpl; rewrite Hp].
    simpl. rewrite Hp. intros p' [= <-]. split.
    + split; [|done]. by apply booked_evidence_grow.
    + split; simpl; [lia|done].
  - intros d' e Hbook.
    apply (Inv_set_diary _ _ _ d') in HI; [done|].
    replace d' with (repeat_book_slot rb best_t (diary (args m))).1
      by (by rewrite Hbook).
    apply repeat_book_slot_balanced; [lia|apply HI].
Qed.

Lemma book_and_wait_Inv self m p best_t :
  Inv d0 (Some (ResumePatient self)) m -> patients m !! self = Some p ->
  0 <= best_t -> referral_t p <= now (env m) ->
  least_wait (kind (booker p)) <= best_t - referral_t p ->
  wp (book_and_wait self best_t) (fun _ => Inv d0 None)
    (Inv d0 (Some (ResumePatient self))) m.
Proof.
  intros HI Hp Hbest Hnow Hwait. unfold book_and_wait.
  wp_self Hp. wp_step HI.
  apply wp_bind, wp_on_diary.
  - intros d' [] Hbook.
    apply (Inv_set_diary _ _ _ d') in HI.
    2:{ replace d' with
          (book_slot (booker p) best_t (booked_clinic p) (diary (args m))).1
          by (by rewrite Hbook).
        apply book_slot_balanced; [lia|apply HI]. }
    wp_step HI. wp_step HI.
    apply wp_yield_timeout; [by intros|]. intros Hdelay.
    apply Inv_yield; [done|done| |by simpl; rewrite Hp].
    simpl. rewrite Hp. intros p' [= <-]. split.
    + by apply booked_evidence_snoc.
    + split; simpl; lia.
  - intros d' e Hbook.
    apply (Inv_set_diary _ _ _ d') in HI; [done|].
    replace d' with
      (book_slot (booker p) best_t (booked_clinic p) (diary (args m))).1
      by (by rewrite Hbook).
    apply book_slot_balanced; [lia|apply HI].
Qed.

Lemma priority_2_high b : (priority b =? 2) = true ->
  kind b = HighPriorityPooledBooker.
Proof. unfold priority. by destruct (kind b). Qed.

Lemma priority_1_low b : (priority b =? 1) = true ->
  kind b = LowPriorityPooledBooker.
Proof. unfold priority. by destruct (kind b). Qed.

Lemma execute_at_start_Inv self m p :
  Inv d0 (Some (ResumePatient self)) m -> patients m !! self = Some p ->
  booker p = new_booker (kind (booker p)) ->
  0 <= referral_t p -> referral_t p <= now (env m) ->
  wp (execute_at_start self) (fun _ => Inv d0 None)
    (Inv d0 (Some (ResumePatient self))) m.
Proof.
  intros HI Hp Hbk Href Hnow. unfold execute_at_start.
  wp_self Hp. wp_step HI. wp_step HI. wp_step HI.
  destruct (priority (booker p) =? 2) eqn:Hprio.
  - apply priority_2_high in Hprio.
    apply wp_bind, wp_find_slot_in_model; [|exact HI].
    intros day c g' Hfind. apply find_slot_bound in Hfind.
    rewrite Hbk, Hprio in Hfind. simpl in Hfind.
    apply (Inv_set_random _ _ _ g') in HI.
    wp_step HI.
    apply wp_bind, wp_on_diary.
    + intros d' [] Hbook.
      apply (Inv_set_diary _ _ _ d') in HI.
      2:{ match type of Hbook with
          | ?prog = _ => replace d' with (prog.1) by (by rewrite Hbook)
          end.
          apply book_slot_balanced; [lia|apply HI]. }
      wp_self Hp. wp_step HI.
      apply wp_yield_timeout; [by intros|]. intros Hdelay.
      apply Inv_yield; [done|done| |by simpl; rewrite list_lookup_alter_eq, Hp].
      simpl. rewrite list_lookup_alter_eq, Hp. intros p' [= <-]. split.
      * by apply booked_evidence_snoc.
      * split; simpl; [lia|]. rewrite Hprio. simpl. lia.
    + intros d' e Hbook.
      apply (Inv_set_diary _ _ _ d') in HI; [done|].
      match type of Hbook with
      | ?prog = _ => replace d' with (prog.1) by (by rewrite Hbook)
      end.
      apply book_slot_balanced; [lia|apply HI].
  - destruct (priority (booker p) =? 1) eqn:Hprio1; [|exact HI].
    apply priority_1_low in Hprio1.
    apply wp_yield_timeout; [by intros|]. intros Hdelay.
    apply Inv_yield; [done|done| |by simpl; rewrite Hp].
    simpl. rewrite Hp. intros p' [= <-]. split.
    + unfold point_ok. simpl. by rewrite Hbk, Hprio1.
    + split; simpl; [lia|done].
Qed.

Lemma execute_after_leapfrog_delay_Inv self m p :
  Inv d0 (Some (ResumePatient self)) m -> patients m !! self = Some p ->
  booker p = mkBooker LowPriorityPooledBooker 7 ->
  0 <= referral_t p -> referral_t p <= now (env m) ->
  wp (execute_after_leapfrog_delay self) (fun _ => Inv d0 None)
    (Inv d0 (Some (ResumePatient self))) m.
Proof.
  intros HI Hp Hbk Href Hnow. unfold execute_after_leapfrog_delay.
  wp_step HI. wp_step HI.
  apply wp_bind, wp_lift; [|by intros].
  intros [n available_caseload] _.
  destruct (0 <? n)%nat.
  - wp_self Hp.
    apply wp_bind, wp_find_slot_in_model; [|exact HI].
    intros day c g' Hfind. apply find_slot_bound in Hfind.
    rewrite Hbk in Hfind. simpl in Hfind.
    apply (Inv_set_random _ _ _ g') in HI.
    wp_step HI.
    eapply book_and_wait_Inv; [exact HI|..].
    + simpl. by rewrite !list_lookup_alter_eq, Hp.
    + lia.
    + simpl. lia.
    + simpl. rewrite Hbk. simpl. lia.
  - wp_step HI.
    apply wp_yield_timeout; [by intros|]. intros Hdelay.
    apply Inv_yield; [done|done| |by simpl; rewrite !list_lookup_alter_eq, Hp].
    simpl. rewrite !list_lookup_alter_eq, Hp. intros p' [= <-]. split.
    + unfold point_ok. simpl. by rewrite Hbk.
    + split; simpl; [lia|done].
Qed.

Lemma execute_awaiting_headroom_Inv self m p :
  Inv d0 (Some (ResumePatient self)) m -> patients m !! self = Some p ->
  booker p = mkBooker LowPriorityPooledBooker 7 ->
  0 <= referral_t p -> referral_t p <= now (env m) ->
  wp (execute_awaiting_headroom self) (fun _ => Inv d0 None)
    (Inv d0 (Some (ResumePatient self))) m.
Proof.
  intros HI Hp Hbk Href Hnow. unfold execute_awaiting_headroom.
  wp_step HI.
  apply wp_bind, wp_lift; [|by intros].
  intros [n available_caseload] _.
  destruct (n =? 0)%nat.
  - apply wp_yield_timeout; [by intros|]. intros Hdelay.
    apply Inv_yield; [done|done| |by simpl; rewrite Hp].
    simpl. rewrite Hp. intros p' [= <-]. split.
    + unfold point_ok. simpl. by rewrite Hbk.
    + split; simpl; [lia|done].
  - wp_self Hp. wp_step HI.
    apply wp_bind, wp_find_slot_in_model; [|exact HI].
    intros day c g' Hfind. apply find_slot_bound in Hfind.
    rewrite Hbk in Hfind. simpl in Hfind.
    apply (Inv_set_random _ _ _ g') in HI.
    wp_step HI.
    eapply book_and_wait_Inv; [exact HI|..].
    + simpl. by rewrite !list_lookup_alter_eq, Hp.
    + lia.
    + simpl. lia.
    + simpl. rewrite Hbk. simpl. lia.
Qed.

Lemma wp_draw_by_priority p gl gh sl sh (Q : bool -> Model -> Prop) E m :
  (forall x ds, Q x (set_args (set_dists ds (args m)) m)) -> E m ->
  wp (draw_by_priority p gl gh sl sh) Q E m.
Proof.
  intros HQ HE. unfold draw_by_priority.
  repeat case_match; try by apply wp_draw. done.
Qed.

Lemma execute_awaiting_follow_up_Inv self m p i num_appts interval rb :
  Inv d0 (Some (ResumePatient self)) m -> patients m !! self = Some p ->
  booked_evidence (event_log m) (now (env m)) p ->
  0 <= repeat_min_wait rb -> referral_t p <= now (env m) ->
  wp (execute_awaiting_follow_up self i num_appts interval rb)
    (fun _ => Inv d0 None) (Inv d0 (Some (ResumePatient self))) m.
Proof.
  intros HI Hp Hev Hmw Hnow. unfold execute_awaiting_follow_up.
  wp_self Hp. wp_step HI.
  apply wp_bind, wp_append_event.
  match goal with
  | |- context [event_log m ++ [?e]] =>
      apply (Inv_append_event _ _ _ e) in HI
  end.
  2:{ intros _. split; [|done].
      destruct Hev as (e' & ? & ? & ? & ? & ?). by exists e'. }
  cbv beta.
  eapply follow_up_iteration_Inv; [exact HI|by simpl| |done|by simpl].
  by apply booked_evidence_grow.
Qed.

Lemma execute_awaiting_assessment_Inv self m p best_t :
  Inv d0 (Some (ResumePatient self)) m -> patients m !! self = Some p ->
  booked_evidence (event_log m) (now (env m)) p ->
  (identifier p).1 = referral_t p ->
  least_wait (kind (booker p)) <= now (env m) - referral_t p ->
  referral_t p <= now (env m) ->
  wp (execute_awaiting_assessment self best_t) (fun _ => Inv d0 None)
    (Inv d0 (Some (ResumePatient self))) m.
Proof.
  intros HI Hp Hev Hid Hwait Hnow. unfold execute_awaiting_assessment.
  wp_step HI. wp_self Hp. wp_step HI.
  apply wp_bind, wp_append_event.
  match goal with
  | |- context [_ ++ [?e]] => apply (Inv_append_event _ _ _ e) in HI
  end.
  2:{ intros _. simpl. split.
      - destruct Hev as (e' & ? & ? & ? & ? & ?). by exists e'.
      - intros _. rewrite Hid. unfold priority.
        destruct (kind (booker p)); simpl in Hwait; split; intros [=]; lia. }
  cbv beta.
  assert (forall e, booked_evidence (event_log m ++ [e]) (now (env m)) p)
    as Hev' by (intros; by apply booked_evidence_grow).
  apply wp_bind, wp_draw_by_priority; [|exact HI].
  intros follow_up_y ds. apply (Inv_set_dists _ _ _ ds) in HI.
  destruct follow_up_y.
  - apply wp_bind, wp_draw_by_priority; [|exact HI].
    intros intensity ds'. apply (Inv_set_dists _ _ _ ds') in HI. simpl.
    wp_step HI.
    assert (forall m' rb,
              Inv d0 (Some (ResumePatient self)) m' ->
              patients m' !! self
              = Some (set_follow_up_intensity (Some intensity)
                        (set_waiting_time (Some (best_t - referral_t p)) p)) ->
              event_log m' = event_log m ++ [booked_event
                (set_waiting_time (Some (best_t - referral_t p)) p)
                have_appointment (now (env m)) (Some assessment)
                (Some (best_t - referral_t p)) None None None None] ->
              now (env m') = now (env m) ->
              0 <= repeat_min_wait rb ->
              forall num_appts,
              wp (follow_up_iteration self 0 num_appts rb)
                (fun _ => Inv d0 None) (Inv d0 (Some (ResumePatient self)))
                m') as Hloop.
    { intros m' rb HI' Hp' Hlog Hnow' Hrb num_appts.
      eapply follow_up_iteration_Inv; [exact HI'|exact Hp'| |done|].
      - rewrite Hlog, Hnow'.
        destruct (Hev' (booked_event
                (set_waiting_time (Some (best_t - referral_t p)) p)
                have_appointment (now (env m)) (Some assessment)
                (Some (best_t - referral_t p)) None None None None))
          as (e' & ? & ? & ? & ? & ?).
        by exists e'.
      - rewrite Hnow'. by simpl. }
    assert (forall m',
              Inv d0 (Some (ResumePatient self)) m' ->
              patients m' !! self
              = Some (set_follow_up_intensity (Some intensity)
                        (set_waiting_time (Some (best_t - referral_t p)) p)) ->
              event_log m' = event_log m ++ [booked_event
                (set_waiting_time (Some (best_t - referral_t p)) p)
                have_appointment (now (env m)) (Some assessment)
                (Some (best_t - referral_t p)) None None None None] ->
              now (env m') = now (env m) ->
              wp (if intensity
                  then
                    num_appts ← draw num_follow_up_dist_high_intensity
                                  set_num_follow_up_dist_high_intensity;
                    follow_up_iteration self 0 num_appts
                      (new_repeat_booker
                         HIGH_INTENSITY_FOLLOW_UP_TARGET_INTERVAL
                         (booked_clinic p))
                  else
                    num_appts ← draw num_follow_up_dist_low_intensity
                                  set_num_follow_up_dist_low_intensity;
                    follow_up_iteration self 0 num_appts
                      (new_repeat_booker
                         LOW_INTENSITY_FOLLOW_UP_TARGET_INTERVAL
                         (booked_clinic p)))
                (fun _ => Inv d0 None) (Inv d0 (Some (ResumePatient self)))
                m') as Hrest.
    { intros m' HI' Hp' Hlog Hnow'.
      destruct intensity; wp_step HI'; by apply Hloop. }
    assert (patients (set_patients
              (alter (set_follow_up_intensity (Some intensity)) self
                 (alter (fun p0 => set_waiting_time
                           (Some (best_t - referral_t p0)) p0) self
                    (patients m))) m) !! self
            = Some (set_follow_up_intensity (Some intensity)
                      (set_waiting_time (Some (best_t - referral_t p)) p)))
      as Hp2 by (simpl; by rewrite !list_lookup_alter_eq, Hp).
    destruct (negb intensity && (priority (booker p) =? 2));
      destruct (intensity && (priority (booker p) =? 1));
      repeat wp_step HI; by apply Hrest.
  - eapply discharge_Inv; [exact HI|].
    simpl. by rewrite !list_lookup_alter_eq, Hp.
Qed.

(** The running patient is at a program point whose conditions hold. *)
Lemma Inv_release self m :
  Inv d0 (Some (ResumePatient self)) m ->
  (forall p, patients m !! self = Some p ->
     point_ok (event_log m) (now (env m)) p) ->
  Inv d0 None m.
Proof.
  intros [] Hpt. constructor; try done.
  intros pid p Hp. destruct (inv_patients0 pid p Hp) as (? & ? & Hok).
  repeat split; try done. intros _.
  destruct (decide (pid = self)) as [->|Hne]; [by apply Hpt|].
  apply Hok. congruence.
Qed.

Lemma execute_Inv self m :
  Inv d0 (Some (ResumePatient self)) m ->
  (forall p, patients m !! self = Some p ->
     point_ok (event_log m) (now (env m)) p /\ wake_ok p (now (env m))) ->
  wp (execute self) (fun _ => Inv d0 None)
    (Inv d0 (Some (ResumePatient self))) m.
Proof.
  intros HI Hself. unfold execute.
  apply wp_bind, wp_self_obj.
  destruct (patients m !! self) as [p|] eqn:Hp; [|exact HI].
  destruct (Hself p eq_refl) as [Hpt [Hnow Hwake]].
  destruct (inv_patients _ _ _ HI self p Hp) as (Href & Hid & _).
  unfold point_ok in Hpt.
  destruct (at_point p) eqn:Hat.
  - by eapply execute_at_start_Inv.
  - by eapply execute_after_leapfrog_delay_Inv.
  - by eapply execute_awaiting_headroom_Inv.
  - by eapply execute_awaiting_assessment_Inv.
  - destruct Hpt. by eapply execute_awaiting_follow_up_Inv.
  - apply wp_ret. eapply Inv_release; [done|].
    intros p' Hp'. rewrite Hp in Hp'. simplify_eq.
    unfold point_ok. by rewrite Hat.
Qed.

Lemma resume_patient_Inv self m :
  Inv d0 (Some (ResumePatient self)) m ->
  (forall p, patients m !! self = Some p ->
     point_ok (event_log m) (now (env m)) p /\ wake_ok p (now (env m))) ->
  Inv d0 None (resume_patient self m).
Proof.
  intros HI Hself. pose proof (execute_Inv self m HI Hself) as H.
  unfold wp in H. unfold resume_patient.
  destruct (execute self m) as [m' [[|]|e]].
  - done.
  - by apply Inv_schedule_other.
  - unfold fail_process. apply Inv_schedule_other; try done.
    by apply Inv_settle.
Qed.

End PatientSteps.

(** ** The invariant along [generate_arrivals] and the event loop *)

Section LoopSteps.

Context (d0 : Diary).

(** A new patient process: the object is stored, its first event is
    queued, and the patient is retained when the warm-up is over. *)
Lemma Inv_new_process a m k c i (retain : bool) :
  Inv d0 a m -> a <> Some (ResumePatient (length (patients m))) ->
  retain = (warm_up_period (args m) <? now (env m)) ->
  let p := new_patient (now (env m)) c (new_booker k) (now (env m), i) in
  let m1 :=
    set_env (schedule (ResumePatient (length (patients m))) URGENT 0 (env m))
      (set_patients (patients m ++ [p]) m) in
  Inv d0 a
    (set_referrals
       (if retain then referrals m ++ [length (patients m)] else referrals m)
       m1).
Proof.
  intros [] Ha Hretain p m1. constructor; simpl.
  - done.
  - intros it Hit. apply elem_of_cons in Hit as [->|Hit]; simpl; [lia|eauto].
  - intros it pid Hit Hpid. rewrite length_app. simpl.
    apply elem_of_cons in Hit as [->|Hit].
    + simpl in Hpid. simplify_eq. lia.
    + specialize (inv_heap_pid0 it pid Hit Hpid). lia.
  - change (NoDup (resumables (mkQItem (now (env m) + 0) URGENT
                                 (next_eid (env m))
                                 (ResumePatient (length (patients m)))
                               :: heap (env m)))).
    rewrite resumables_cons. simpl. apply NoDup_cons. split; [|done].
    intros Hin. apply elem_of_resumables in Hin as (_ & it & Hit & Htg).
    specialize (inv_heap_pid0 it _ Hit Htg). lia.
  - intros tg it -> Hit. apply elem_of_cons in Hit as [->|Hit]; [|eauto].
    simpl. congruence.
  - intros it Hit Htg. apply elem_of_cons in Hit as [->|Hit]; [done|eauto].
  - intros pid q Hq. apply lookup_app_Some in Hq as [Hq|[Hlen Hq]].
    + eauto.
    + apply list_lookup_singleton_Some in Hq as [_ <-]. simpl.
      repeat split; try done. intros _. unfold point_ok. simpl.
      by destruct k.
  - intros it pid q Hit Hpid Hq.
    apply elem_of_cons in Hit as [->|Hit].
    + simpl in Hpid. simplify_eq.
      rewrite lookup_app_r, Nat.sub_diag in Hq by done.
      simpl in Hq. simplify_eq. split; simpl; [lia|done].
    + specialize (inv_heap_pid0 it pid Hit Hpid).
      rewrite lookup_app_l in Hq by done. eauto.
  - done.
  - done.
  - intros pid q Hq. apply lookup_app_Some in Hq as [Hq|[Hlen Hq]].
    + rewrite <- (inv_referrals0 pid q Hq).
      apply lookup_lt_Some in Hq.
      destruct retain; [|done].
      rewrite elem_of_app, list_elem_of_singleton. split; [|by left].
      intros [?|?]; [done|lia].
    + apply list_lookup_singleton_Some in Hq as [Hpid <-]. simpl.
      assert (pid = length (patients m)) as -> by lia.
      destruct retain.
      * symmetry in Hretain. apply Z.ltb_lt in Hretain.
        split; [done|]. intros _. apply elem_of_app. right.
        apply list_elem_of_here.
      * symmetry in Hretain. apply Z.ltb_ge in Hretain.
        split; [|lia]. intros Hin. apply inv_referrals_pid0 in Hin. lia.
  - intros pid Hpid. rewrite length_app. simpl.
    destruct retain.
    + apply elem_of_app in Hpid as [Hpid|Hpid].
      * apply inv_referrals_pid0 in Hpid. lia.
      * apply list_elem_of_singleton in Hpid. lia.
    + apply inv_referrals_pid0 in Hpid. lia.
Qed.

Lemma arrivals_running_dists t m ds :
  arrivals_running d0 t m ->
  arrivals_running d0 t (set_args (set_dists ds (args m)) m).
Proof. intros [HI Hnow]. split; [by apply Inv_set_dists|done]. Qed.

Lemma arrivals_running_append t m e :
  arrivals_running d0 t m -> ev_event e <> have_appointment ->
  arrivals_running d0 t (set_event_log (event_log m ++ [e]) m).
Proof.
  intros [HI Hnow] He. split; [|done].
  apply Inv_append_event; [done|]. by apply event_in_order_other.
Qed.

Lemma new_referral_running t i m c (high_priority : bool) :
  arrivals_running d0 t m ->
  wp (pid ← new_process
             (new_patient t c
                (if high_priority then new_booker HighPriorityPooledBooker
                 else new_booker LowPriorityPooledBooker) (t, i));
      m0 ← gets id;
      if warm_up_period (args m0) <? now (env m0)
      then modify (fun m => set_referrals (referrals m ++ [pid]) m)
      else mret tt)
    (fun _ => arrivals_running d0 t) (Inv d0 (Some ResumeArrivals)) m.
Proof.
  intros [HI <-].
  pose proof (Inv_new_process _ m
                (if high_priority then HighPriorityPooledBooker
                 else LowPriorityPooledBooker) c i _ HI ltac:(done) eq_refl)
    as H.
  simpl in H.
  apply wp_bind. unfold wp at 1, new_process. cbv beta.
  apply wp_bind, wp_gets. cbv beta. simpl.
  destruct (warm_up_period (args m) <? now (env m)).
  - apply wp_modify. split; [|done]. by destruct high_priority.
  - apply wp_ret. split; [|done].
    eapply Inv_footprint; [..|exact H]; by destruct high_priority.
Qed.

(** One referral keeps the invariant and the clock. *)
Lemma referral_running t i m :
  arrivals_running d0 t m ->
  wp (referral t i) (fun _ => arrivals_running d0 t)
    (Inv d0 (Some ResumeArrivals)) m.
Proof.
  intros HI. unfold referral.
  apply wp_bind, wp_draw. intros c ds.
  apply (arrivals_running_dists _ _ ds) in HI.
  generalize dependent (set_args (set_dists ds (args m)) m).
  clear m. intros m HI.
  apply wp_bind, wp_draw_referred_out; [|apply HI].
  intros triaged_out ds'.
  apply (arrivals_running_dists _ _ ds') in HI.
  generalize dependent (set_args (set_dists ds' (args m)) m).
  clear m. intros m HI.
  destruct triaged_out; simpl.
  - apply wp_bind, wp_ret.
    apply wp_bind, wp_gets.
    apply wp_bind, wp_append_event.
    apply wp_bind, wp_append_event.
    apply wp_append_event.
    repeat apply arrivals_running_append; done.
  - apply wp_bind.
    apply wp_conseq with (Q := fun _ => arrivals_running d0 t)
                         (E := Inv d0 (Some ResumeArrivals)).
    + apply wp_bind, wp_draw. intros high_priority ds''.
      apply (arrivals_running_dists _ _ ds'') in HI.
      by apply new_referral_running.
    + intros _ m' HI'. by apply wp_ret.
    + done.
Qed.

(** The arrivals generator yields: the counter moves to the next day, for
    which the generator is queued. *)
Lemma Inv_arrivals_yield m :
  Inv d0 (Some ResumeArrivals) m ->
  Inv d0 None
    (set_env (schedule ResumeArrivals NORMAL 1 (env m))
       (set_arrivals_t (now (env m) + 1) m)).
Proof.
  intros []. constructor; simpl; try done.
  - intros it Hit. apply elem_of_cons in Hit as [->|Hit]; simpl; [lia|eauto].
  - intros it pid Hit Hpid. apply elem_of_cons in Hit as [->|Hit]; [done|].
    eauto.
  - change (NoDup (resumables (mkQItem (now (env m) + 1) NORMAL
                                 (next_eid (env m)) ResumeArrivals
                               :: heap (env m)))).
    rewrite resumables_cons. simpl. apply NoDup_cons. split; [|done].
    intros Hin. apply elem_of_resumables in Hin as (_ & it & Hit & Htg).
    by eapply inv_idle0.
  - intros it Hit Htg. apply elem_of_cons in Hit as [->|Hit]; [done|].
    exfalso. by eapply inv_idle0.
  - intros pid p Hp. destruct (inv_patients0 pid p Hp) as (? & ? & Hok).
    repeat split; try done. intros _. by apply Hok.
  - intros it pid p Hit Hpid Hp.
    apply elem_of_cons in Hit as [->|Hit]; [done|eauto].
Qed.

Lemma resume_arrivals_Inv m :
  Inv d0 (Some ResumeArrivals) m -> now (env m) = arrivals_t m ->
  Inv d0 None (resume_arrivals m).
Proof.
  intros HI Hnow.
  assert (wp generate_arrivals (fun _ => Inv d0 None)
            (Inv d0 (Some ResumeArrivals)) m) as H.
  { unfold generate_arrivals.
    apply wp_bind, wp_gets.
    apply wp_bind, wp_draw. intros n ds.
    assert (arrivals_running d0 (arrivals_t m)
              (set_args (set_dists ds (args m)) m)) as HR.
    { split; [by apply Inv_set_dists|done]. }
    apply wp_bind.
    eapply wp_conseq.
    - apply (wp_for_each _ _ (arrivals_running d0 (arrivals_t m))
               (Inv d0 (Some ResumeArrivals))); [|exact HR].
      intros i m' _ HI'. by apply referral_running.
    - intros _ m' [HI' Hnow']. simpl.
      apply wp_bind, wp_modify. cbv beta.
      unfold wp, timeout. simpl.
      rewrite <- Hnow'. by apply Inv_arrivals_yield.
    - done. }
  unfold wp in H. unfold resume_arrivals.
  destruct (generate_arrivals m) as [m' [[]|e]]; [done|].
  unfold fail_process. apply Inv_schedule_other; try done.
  destruct H. constructor; try done.
  intros pid p Hp. destruct (inv_patients0 pid p Hp) as (? & ? & Hok).
  repeat split; try done. intros _. by apply Hok.
Qed.

(** Taking the next event out of the queue: the clock moves to its time
    and the generator it resumes becomes the running one. *)
Lemma Inv_pop m it rest :
  Inv d0 None m -> heappop (heap (env m)) = Some (it, rest) ->
  Inv d0 (active_of (target it))
    (set_env (mkEnvironment (at_time it) (next_eid (env m)) rest) m)
  /\ now (env m) <= at_time it
  /\ (target it = ResumeArrivals -> at_time it = arrivals_t m)
  /\ (forall pid p, target it = ResumePatient pid ->
        patients m !! pid = Some p ->
        point_ok (event_log m) (at_time it) p /\ wake_ok p (at_time it)).
Proof.
  intros [] Hpop. apply heappop_Some in Hpop as [Hperm Hmin].
  assert (it ∈ heap (env m)) as Hit.
  { rewrite Hperm. apply list_elem_of_here. }
  assert (forall y, y ∈ rest -> y ∈ heap (env m)) as Hrest.
  { intros y Hy. rewrite Hperm. by apply list_elem_of_further. }
  pose proof (inv_heap_time0 it Hit) as Htime.
  pose proof (resumables_perm _ _ Hperm) as Hres.
  rewrite resumables_cons in Hres.
  split; [|split; [done|split; [by eauto|]]].
  - constructor; simpl; try done.
    + lia.
    + eauto.
    + rewrite Hres in inv_heap_nodup0.
      destruct (resumable (target it)); [|done].
      by apply NoDup_cons in inv_heap_nodup0 as [_ ?].
    + intros tg y Hact Hy Htg. unfold active_of in Hact.
      destruct (resumable (target it)) eqn:Hr; [|done]. simplify_eq.
      rewrite Hres in inv_heap_nodup0.
      apply NoDup_cons in inv_heap_nodup0 as [Hnot _]. apply Hnot.
      apply elem_of_resumables. split; [done|]. by exists y.
    + eauto.
    + intros pid p Hp. destruct (inv_patients0 pid p Hp) as (? & ? & Hok).
      repeat split; try done. intros _.
      eapply point_ok_mono; [by apply Hok|done|done].
    + eauto.
  - intros pid p Htg Hp. split; [|by eauto].
    destruct (inv_patients0 pid p Hp) as (? & ? & Hok).
    eapply point_ok_mono; [by apply Hok|done|done].
Qed.

(** Every event of the loop keeps the invariant. *)
Lemma step_Inv m m' st :
  Inv d0 None m -> step m = (m', st) -> Inv d0 None m'.
Proof.
  intros HI Hstep. unfold step in Hstep.
  destruct (heappop (heap (env m))) as [[it rest]|] eqn:Hpop;
    [|by simplify_eq].
  destruct (Inv_pop m it rest HI Hpop) as (HI1 & Hnow & Harr & Hpat).
  unfold active_of in HI1.
  destruct (target it) as [|pid| | |] eqn:Htg; simpl in HI1; simplify_eq;
    try done.
  - apply resume_arrivals_Inv; [done|]. simpl. by apply Harr.
  - apply resume_patient_Inv; [done|]. simpl. intros p Hp. by eapply Hpat.
Qed.

End LoopSteps.

(** ** The start of a run *)

Lemma elem_of_concat_replicate {A : Type} n (tmpl : list A) x :
  x ∈ concat (replicate n tmpl) -> x ∈ tmpl.
Proof.
  induction n as [|n IH]; simpl; intros H.
  - by apply elem_of_nil in H.
  - apply elem_of_app in H as [H|H]; auto.
Qed.

Lemma create_bookings_zero run_length clinics i j b :
  cell (create_bookings run_length clinics) i j = Some b -> b = 0.
Proof.
  unfold create_bookings, cell. rewrite concat_copies_replicate.
  intros H.
  destruct ((replicate 5 (replicate clinics 0)
             ++ concat (replicate (horizon_rounds run_length)
                          (replicate 5 (replicate clinics 0)))) !! i)
    as [row|] eqn:Hrow; [|done].
  assert (row = replicate clinics 0) as ->.
  { apply list_elem_of_lookup_2 in Hrow.
    apply elem_of_app in Hrow as [Hrow|Hrow].
    - by apply elem_of_replicate in Hrow as [? _].
    - apply elem_of_concat_replicate in Hrow.
      by apply elem_of_replicate in Hrow as [? _]. }
  apply lookup_replicate in H as [? _]. done.
Qed.

Lemma diary_balanced_new f run_length (w : matrix) :
  diary_balanced (create_diary f run_length w) (create_diary f run_length w).
Proof.
  intros i j b a c a0 c0 Hb Ha Hc Ha0 Hc0.
  assert (a0 = a) as -> by congruence.
  assert (c0 = c) as -> by congruence.
  apply create_bookings_zero in Hb as ->.
  replace (a - a + (c - c)) with 0 by lia. done.
Qed.

Lemma log_ok_nil : log_ok [].
Proof. intros i e H. by rewrite lookup_nil in H. Qed.

Lemma Inv_start f rl wu (w pool : matrix) caseload ds g m0 :
  start_run (new_model (new_scenario f rl wu w pool caseload ds) g) = Ok m0 ->
  Inv (create_diary f rl w) None m0.
Proof.
  unfold start_run. simpl. intros H.
  destruct (rl <=? 0) eqn:Hrl; [done|]. simplify_eq.
  constructor; simpl; try done.
  - intros it Hit.
    repeat (apply elem_of_cons in Hit as [->|Hit]; [simpl; lia|]).
    by apply elem_of_nil in Hit.
  - intros it pid Hit Hpid.
    repeat (apply elem_of_cons in Hit as [->|Hit]; [done|]).
    by apply elem_of_nil in Hit.
  - apply NoDup_singleton.
  - intros it Hit Htg.
    repeat (apply elem_of_cons in Hit as [->|Hit]; [done|]).
    by apply elem_of_nil in Hit.
  - apply diary_balanced_new.
  - intros pid Hpid. by apply elem_of_nil in Hpid.
Qed.

(** The invariant holds in every state of a run. *)
Lemma reaches_Inv d0 m0 m st :
  Inv d0 None m0 -> reaches m0 m st -> Inv d0 None m.
Proof.
  intros H0 Hreach. induction Hreach as [|m m' st _ IH Hstep]; [done|].
  by eapply step_Inv.
Qed.

Lemma in_run_Inv f rl wu (w pool : matrix) caseload ds g m :
  in_run (new_scenario f rl wu w pool caseload ds) g m ->
  Inv (create_diary f rl w) None m.
Proof.
  intros (m0 & st & Hstart & Hreach).
  eapply reaches_Inv; [|done]. by eapply Inv_start.
Qed.

Lemma run_steps_reaches m0 fuel m :
  reaches m0 m Running ->
  reaches m0 (run_steps fuel m).1 (run_steps fuel m).2.
Proof.
  revert m. induction fuel as [|fuel IH]; intros m Hm; simpl; [done|].
  destruct (step m) as [m' st] eqn:Hstep.
  pose proof (reaches_step _ _ _ _ Hm Hstep) as Hm'.
  destruct st; simpl; auto.
Qed.

(** The states that [run] computes are states of a run. *)
Lemma run_in_run a g fuel m0 :
  start_run (new_model a g) = Ok m0 -> in_run a g (run a g fuel).1.
Proof.
  intros H. unfold run. rewrite H.
  exists m0, (run_steps fuel m0).2. split; [done|].
  apply run_steps_reaches. constructor.
Qed.

(** ** The event log of a run *)

(** C2: in every state of a run, every attended appointment of the event
    log comes after an [appointment_booked_waiting] event of the same
    patient with the same booked clinic and a time that is not later; an
    attended assessment of a patient of priority 2 is at least one day, and
    one of a patient of priority 1 at least six days, after the day of
    referral, which is the first part of the identifier and the
    [referral_t] of the patient with that identifier; and the day that the
    [find_slot] of a booker returns is at least [t] plus the [min_wait] the
    booker has at the call. *)
Theorem attended_after_booking f rl wu (w pool : matrix) caseload ds g m :
  in_run (new_scenario f rl wu w pool caseload ds) g m ->
  (forall i e,
     event_log m !! i = Some e -> ev_event e = have_appointment ->
     exists j e',
       (j < i)%nat /\ event_log m !! j = Some e'
       /\ ev_event e' = appointment_booked_waiting
       /\ ev_patient e' = ev_patient e
       /\ ev_booked_clinic e' = ev_booked_clinic e
       /\ ev_time e' <= ev_time e)
  /\ (forall e,
        e ∈ event_log m -> ev_event e = have_appointment ->
        ev_type e = Some assessment ->
        (ev_pathway e = Priority 2 -> 1 <= ev_time e - (ev_patient e).1)
        /\ (ev_pathway e = Priority 1 -> 6 <= ev_time e - (ev_patient e).1))
  /\ (forall pid p, patients m !! pid = Some p ->
        (identifier p).1 = referral_t p)
  /\ (forall b d pool' g0 t home limit day c g',
        find_slot b d pool' g0 t home limit = Ok (day, c, g') ->
        t + min_wait b <= day)
  /\ (forall rb d t day c,
        repeat_find_slot rb d t = Ok (day, c) ->
        t + repeat_min_wait rb <= day).
Proof.
  intros Hrun. apply in_run_Inv in Hrun as HI.
  split; [|split; [|split; [|split]]].
  - intros i e Hi He. by destruct (inv_log _ _ _ HI i e Hi He) as [? _].
  - intros e He Hev Hty. apply list_elem_of_lookup in He as [i Hi].
    destruct (inv_log _ _ _ HI i e Hi Hev) as [_ Hb].
    by apply Hb.
  - intros pid p Hp. by destruct (inv_patients _ _ _ HI pid p Hp) as (_ & ? & _).
  - intros. by eapply find_slot_bound.
  - intros rb d t day c H. by apply repeat_find_slot_bound in H as [? _].
Qed.

(** ** The bookkeeping of the diary *)

Lemma in_place_Ok get set op d d' :
  in_place get set op d = (d', Ok tt) ->
  exists m', op (get d) = Ok m' /\ d' = set m' d.
Proof.
  unfold in_place. destruct (op (get d)) as [m'|e]; [|done].
  intros [= <-]. by exists m'.
Qed.

Lemma prog_bind_Ok {S A B : Type} (c : Prog S A) (k : A -> Prog S B) s s' b :
  (c ≫= k) s = (s', Ok b) ->
  exists s1 a, c s = (s1, Ok a) /\ k a s1 = (s', Ok b).
Proof.
  unfold mbind, prog_bind. destruct (c s) as [s1 [a|e]]; [|done].
  intros H. by exists s1, a.
Qed.

(** A successful update of an entry at a day that is not negative. *)
Lemma iat_update_Ok_nonneg f (m : matrix) t c m' :
  0 <= t -> iat_update f m t c = Ok m' ->
  exists v, cell m (Z.to_nat t) c = Some v
    /\ forall i j,
         cell m' i j
         = if decide (i = Z.to_nat t /\ j = c) then Some (f v) else cell m i j.
Proof.
  intros Ht H. pose proof (iat_update_nonneg f m t c Ht) as Hu.
  by rewrite H in Hu.
Qed.

Lemma cell_updated (m m' : matrix) i c x :
  (forall i' j',
     cell m' i' j' = if decide (i' = i /\ j' = c) then Some x
                     else cell m i' j') ->
  cell m' i c = Some x.
Proof. intros H. rewrite H. by rewrite decide_True. Qed.

Lemma cell_not_updated (m m' : matrix) i c x i' j' :
  (forall i' j',
     cell m' i' j' = if decide (i' = i /\ j' = c) then Some x
                     else cell m i' j') ->
  ~ (i' = i /\ j' = c) -> cell m' i' j' = cell m i' j'.
Proof. intros H Hne. rewrite H. by rewrite decide_False. Qed.

Lemma book_slot_low_books_one t c d d' :
  0 <= t -> book_slot_low t c d = (d', Ok tt) ->
  books_one d d' (Z.to_nat t) c.
Proof.
  intros Ht H. unfold book_slot_low in H.
  apply prog_bind_Ok in H as (d1 & [] & H1 & H2).
  apply in_place_Ok in H1 as (a' & Ha & ->).
  apply in_place_Ok in H2 as (b' & Hb & ->).
  apply iat_update_Ok_nonneg in Ha as (a & Ha & Ha'); [|done].
  apply iat_update_Ok_nonneg in Hb as (b & Hb & Hb'); [|done].
  simpl in *. split; [|split].
  - exists b. split; [done|]. by eapply cell_updated.
  - left. exists a. repeat split; try done. by eapply cell_updated.
  - intros i' j' Hne. repeat split; try done; by eapply cell_not_updated.
Qed.

Lemma repeat_book_slot_books_one rb t d d' :
  0 <= t -> repeat_book_slot rb t d = (d', Ok tt) ->
  books_one d d' (Z.to_nat t) (clinic_id rb).
Proof. apply book_slot_low_books_one. Qed.

Lemma iat_nonneg (m : matrix) t c v :
  0 <= t -> iat m t c = Ok v -> cell m (Z.to_nat t) c = Some v.
Proof.
  intros Ht H. unfold iat in H. apply or_raise_Ok in H.
  rewrite norm_index_nonneg in H by done.
  destruct (t <? Z.of_nat (length m)); [done|discriminate H].
Qed.

Lemma book_slot_high_books_one t c d d' :
  0 <= t -> book_slot_high t c d = (d', Ok tt) ->
  books_one d d' (Z.to_nat t) c.
Proof.
  intros Ht H. unfold book_slot_high in H.
  apply prog_bind_Ok in H as (d0 & reserved & H0 & H).
  injection H0 as <- Hres. apply iat_nonneg in Hres; [|done].
  apply prog_bind_Ok in H as (d1 & [] & H1 & H2).
  apply in_place_Ok in H2 as (b' & Hb & ->).
  apply iat_update_Ok_nonneg in Hb as (b & Hb & Hb'); [|done].
  destruct (0 <? reserved) eqn:Hpos.
  - apply in_place_Ok in H1 as (r' & Hr & ->).
    apply iat_update_Ok_nonneg in Hr as (r & Hr & Hr'); [|done].
    simpl in *. assert (r = reserved) as -> by congruence.
    split; [|split].
    + exists b. split; [done|]. by eapply cell_updated.
    + right. exists reserved. repeat split; try done; [lia|].
      by eapply cell_updated.
    + intros i' j' Hne. repeat split; try done; by eapply cell_not_updated.
  - apply in_place_Ok in H1 as (a' & Ha & ->).
    apply iat_update_Ok_nonneg in Ha as (a & Ha & Ha'); [|done].
    simpl in *. split; [|split].
    + exists b. split; [done|]. by eapply cell_updated.
    + left. exists a. repeat split; try done. by eapply cell_updated.
    + intros i' j' Hne. repeat split; try done; by eapply cell_not_updated.
Qed.

(** The bookkeeping that the diary keeps: in every state of a run and at
    every entry, the count of bookings equals the number of slots taken
    from the two pools since the scenario was built, reduced modulo 256,
    because [bookings] is a matrix of unsigned 8-bit counts; and every
    [book_slot] that succeeds for a day that is not negative takes one
    slot from exactly one of [available] and [carve_out] and adds one,
    modulo 256, to [bookings] at the same entry. *)
Theorem diary_bookkeeping f rl wu (w pool : matrix) caseload ds g m :
  in_run (new_scenario f rl wu w pool caseload ds) g m ->
  (forall i j b a c a0 c0,
     cell (bookings (diary (args m))) i j = Some b ->
     cell (available_slots (diary (args m))) i j = Some a ->
     cell (carve_out_slots (diary (args m))) i j = Some c ->
     cell (available_slots (create_diary f rl w)) i j = Some a0 ->
     cell (carve_out_slots (create_diary f rl w)) i j = Some c0 ->
     b = ((a0 - a) + (c0 - c)) mod 256)
  /\ (forall bk t c d d',
        0 <= t -> book_slot bk t c d = (d', Ok tt) ->
        books_one d d' (Z.to_nat t) c)
  /\ (forall rb t d d',
        0 <= t -> repeat_book_slot rb t d = (d', Ok tt) ->
        books_one d d' (Z.to_nat t) (clinic_id rb)).
Proof.
  intros Hrun. apply in_run_Inv in Hrun as HI. split; [|split].
  - apply HI.
  - intros bk t c d d' Ht H. unfold book_slot in H.
    destruct (kind bk);
      auto using book_slot_low_books_one, book_slot_high_books_one.
  - intros. by apply repeat_book_slot_books_one.
Qed.

(** ** Warm-up *)


(** ** Capacity that runs out *)

(** The column of the clinician, read from the start of the window, has
    no positive entry: [argmax] of flags that are all false is 0 and the
    start of the window is returned. *)
Lemma repeat_find_slot_exhausted rb d t col :
  columns_in_range (available_slots d) [clinic_id rb] = true ->
  take_column (slice_from (t + repeat_min_wait rb) (available_slots d))
    (clinic_id rb) = Ok col ->
  col <> [] -> existsb positive col = false ->
  repeat_find_slot rb d t = Ok (t + repeat_min_wait rb, clinic_id rb).
Proof.
  intros Hcols Hcol Hne Hnone. unfold repeat_find_slot.
  rewrite Hcols. simpl. rewrite Hcol. simpl.
  assert (first_index (fun b : bool => b) (map positive col) = None) as Hf.
  { apply first_index_None. intros b Hb.
    apply list_elem_of_fmap in Hb as (x & -> & Hx).
    destruct (positive x) eqn:Hpos; [|done].
    assert (existsb positive col = true) as Hex; [|congruence].
    apply existsb_exists. exists x. split; [|done].
    by apply list_elem_of_In. }
  unfold argmax_flag. rewrite Hf.
  destruct col as [|x col]; [done|]. simpl. f_equal. f_equal. lia.
Qed.

(** ** The cells of the diary *)

Lemma cell_concat_copies (tmpl : matrix) n i j v :
  cell (concat_copies tmpl tmpl n) i j = Some v ->
  exists row, row ∈ tmpl /\ row !! j = Some v.
Proof.
  rewrite concat_copies_replicate. unfold cell. intros H.
  destruct ((tmpl ++ concat (replicate n tmpl)) !! i) as [row|] eqn:Hrow;
    [|done].
  exists row. split; [|done].
  apply list_elem_of_lookup_2 in Hrow.
  apply elem_of_app in Hrow as [?|?]; [done|].
  by eapply elem_of_concat_replicate.
Qed.

(** The entries of a new carve-out matrix are unsigned 8-bit values. *)
Lemma create_carve_out_uint8 f rl (w : matrix) i j v :
  cell (create_carve_out f rl w) i j = Some v -> 0 <= v < 256.
Proof.
  intros H. apply cell_concat_copies in H as (row & Hrow & Hv).
  unfold priority_template in Hrow.
  apply list_elem_of_fmap in Hrow as (wrow & -> & _).
  rewrite list_lookup_fmap in Hv.
  destruct (wrow !! j) as [x|]; [|done]. simpl in Hv. simplify_eq.
  apply wrap_uint8_range.
Qed.

(** The entries of a new matrix of available slots are signed 64-bit
    values: an entry of the weekly template minus its carved-out part. *)
Lemma create_slots_int64 f rl (w : matrix) i j v :
  cell (create_slots f rl w) i j = Some v ->
  exists x, v = wrap_int64 (x - wrap_uint8 (f x)).
Proof.
  intros H. apply cell_concat_copies in H as (row & Hrow & Hv).
  unfold open_template, priority_template in Hrow.
  apply list_elem_of_lookup in Hrow as [k Hk].
  apply lookup_zip_with_Some in Hk as (wrow & prow & -> & Hw & Hp).
  rewrite list_lookup_fmap, Hw in Hp. simpl in Hp. simplify_eq.
  apply lookup_zip_with_Some in Hv as (x & p & -> & Hx & Hp).
  rewrite list_lookup_fmap, Hx in Hp. simpl in Hp. simplify_eq.
  by exists x.
Qed.

Lemma book_slot_low_effect t c d d' :
  0 <= t -> book_slot_low t c d = (d', Ok tt) ->
  exists a b,
    cell (available_slots d) (Z.to_nat t) c = Some a
    /\ cell (bookings d) (Z.to_nat t) c = Some b
    /\ cell (available_slots d') (Z.to_nat t) c = Some (wrap_int64 (a - 1))
    /\ cell (bookings d') (Z.to_nat t) c = Some (wrap_uint8 (b + 1))
    /\ carve_out_slots d' = carve_out_slots d.
Proof.
  intros Ht H. unfold book_slot_low in H.
  apply prog_bind_Ok in H as (d1 & [] & H1 & H2).
  apply in_place_Ok in H1 as (a' & Ha & ->).
  apply in_place_Ok in H2 as (b' & Hb & ->).
  apply iat_update_Ok_nonneg in Ha as (a & Ha & Ha'); [|done].
  apply iat_update_Ok_nonneg in Hb as (b & Hb & Hb'); [|done].
  simpl in *. exists a, b. repeat split; try done; by eapply cell_updated.
Qed.

(** C10 as amended: of the three matrices of a new scenario, [carve_out]
    and [bookings] hold unsigned 8-bit values and [available] holds signed
    64-bit values, the weekly template minus the carved-out part; when the
    column of a repeat booker has no positive entry from the start of its
    window on, [find_slot] returns the start of the window, and booking
    that day where the entry is 0 leaves it at -1, not at 255, adds one
    modulo 256 to [bookings] and leaves [carve_out] as it is; the high
    priority booker takes from [carve_out] only where it is positive, so
    that a [carve_out] entry below 256 never goes up. *)
Theorem diary_cell_arithmetic f rl (w : matrix) rb d t col d' :
  let day := t + repeat_min_wait rb in
  columns_in_range (available_slots d) [clinic_id rb] = true ->
  take_column (slice_from day (available_slots d)) (clinic_id rb) = Ok col ->
  col <> [] -> existsb positive col = false ->
  0 <= day ->
  cell (available_slots d) (Z.to_nat day) (clinic_id rb) = Some 0 ->
  repeat_book_slot rb day d = (d', Ok tt) ->
  (forall i j v,
     cell (carve_out_slots (create_diary f rl w)) i j = Some v ->
     0 <= v < 256)
  /\ (forall i j v,
        cell (bookings (create_diary f rl w)) i j = Some v -> v = 0)
  /\ (forall i j v,
        cell (available_slots (create_diary f rl w)) i j = Some v ->
        exists x, v = wrap_int64 (x - wrap_uint8 (f x)))
  /\ repeat_find_slot rb d t = Ok (day, clinic_id rb)
  /\ cell (available_slots d') (Z.to_nat day) (clinic_id rb) = Some (-1)
  /\ (exists b,
        cell (bookings d) (Z.to_nat day) (clinic_id rb) = Some b
        /\ cell (bookings d') (Z.to_nat day) (clinic_id rb)
           = Some ((b + 1) mod 256))
  /\ carve_out_slots d' = carve_out_slots d
  /\ (forall t' c dh dh' r,
        0 <= t' -> book_slot_high t' c dh = (dh', Ok tt) ->
        cell (carve_out_slots dh) (Z.to_nat t') c = Some r -> 0 <= r < 256 ->
        exists r',
          cell (carve_out_slots dh') (Z.to_nat t') c = Some r'
          /\ 0 <= r' <= r).
Proof.
  intros day Hcols Hcol Hne Hnone Hday Hzero Hbook.
  split; [intros i j v; apply create_carve_out_uint8|].
  split; [intros i j v; apply create_bookings_zero|].
  split; [intros i j v; apply create_slots_int64|].
  split; [by eapply repeat_find_slot_exhausted|].
  apply book_slot_low_effect in Hbook as (a & b & Ha & Hb & Ha' & Hb' & Hc);
    [|done].
  assert (a = 0) as -> by congruence.
  split; [done|]. split; [by exists b|]. split; [done|].
  intros t' c dh dh' r Ht' Hhigh Hr Hrange.
  apply book_slot_high_books_one in Hhigh as (_ & Hpool & _); [|done].
  destruct Hpool as [(a & _ & _ & Hsame)|(r0 & Hpos & Hr0 & Hr0' & _)].
  - exists r. rewrite Hsame. split; [done|lia].
  - assert (r0 = r) as -> by congruence.
    exists (wrap_uint8 (r - 1)). split; [done|].
    rewrite wrap_uint8_small by lia. lia.
Qed.

(** ** The high priority finder *)

Lemma window_Ok (m : matrix) s opts rows :
  window m s opts = Ok rows ->
  take_columns (slice_from s m) opts = Ok rows.
Proof. unfold window. by destruct (columns_in_range m opts). Qed.

(** A row of a window is the row of the cells of the eligible clinicians
    on its day. *)
Lemma take_columns_row (m : matrix) s opts rows k r :
  0 <= s ->
  take_columns (slice_from s m) opts = Ok rows -> rows !! k = Some r ->
  mapM (cell m (Z.to_nat s + k)) opts = Some r.
Proof.
  intros Hs H Hk. unfold take_columns in H. apply or_raise_Ok in H.
  destruct (mapM_lookup_Some _ _ _ _ _ H Hk) as (row & Hrow & Hr).
  rewrite slice_from_nonneg, lookup_drop in Hrow by done.
  rewrite <- Hr. apply mapM_ext. intros c. unfold cell. by rewrite Hrow.
Qed.

Lemma length_take_columns (m : matrix) s opts rows :
  take_columns (slice_from s m) opts = Ok rows ->
  length rows = length (slice_from s m).
Proof.
  unfold take_columns. intros H. apply or_raise_Ok in H.
  symmetry. by eapply length_mapM.
Qed.

Lemma mapM_combined d i opts pr pu :
  mapM (cell (carve_out_slots d) i) opts = Some pr ->
  mapM (cell (available_slots d) i) opts = Some pu ->
  combined_row d opts i
  = Some (zip_with (fun p a => wrap_int64 (p + a)) pr pu).
Proof.
  unfold combined_row. intros Hp Hu.
  apply mapM_Some in Hp. apply mapM_Some in Hu. apply mapM_Some.
  revert pu Hu. induction Hp as [|c p opts pr Hc _ IH]; intros pu Hu.
  - inversion Hu. constructor.
  - inversion Hu as [|c' a opts' pu' Ha Hu']. subst. simpl.
    constructor; [|by apply IH].
    unfold combined. by rewrite Hc, Ha.
Qed.

Lemma elem_of_select_by_mask {A : Type} (l : list A) (mask : list bool) x :
  x ∈ select_by_mask l mask ->
  exists idx, l !! idx = Some x /\ mask !! idx = Some true.
Proof.
  revert mask. induction l as [|y l IH]; intros [|b mask] H; simpl in H;
    try by apply elem_of_nil in H.
  destruct b.
  - apply elem_of_cons in H as [->|H]; [by exists 0%nat|].
    destruct (IH mask H) as (idx & ? & ?). by exists (S idx).
  - destruct (IH mask H) as (idx & ? & ?). by exists (S idx).
Qed.

Lemma existsb_positive (row : list Z) :
  existsb positive row = true <-> exists x, x ∈ row /\ 0 < x.
Proof.
  rewrite existsb_exists. unfold positive. split.
  - intros (x & Hx & Hp). exists x. split; [by apply list_elem_of_In|lia].
  - intros (x & Hx & Hp). exists x. split; [by apply list_elem_of_In|lia].
Qed.

(** The test of [earliest_day] on a row is [day_counts]. *)
Lemma earliest_day_Ok slots limit best_t :
  earliest_day slots limit = Ok best_t ->
  (exists row, slots !! best_t = Some row /\ day_counts limit row)
  /\ forall k row, (k < best_t)%nat -> slots !! k = Some row ->
       ~ day_counts limit row.
Proof.
  unfold earliest_day. intros H. apply or_raise_Ok in H.
  destruct limit as [mask|]; apply first_index_Some in H as [(row & Hrow & Hp) Hlt].
  - split.
    + exists row. split; [done|]. unfold day_counts, positive in *. lia.
    + intros k r Hk Hr Hc. specialize (Hlt k r Hk Hr).
      unfold day_counts, positive in *. lia.
  - split.
    + exists row. split; [done|]. by apply existsb_positive.
    + intros k r Hk Hr Hc. specialize (Hlt k r Hk Hr).
      apply existsb_positive in Hc. congruence.
Qed.

Lemma add_slots_same_length pri pub slots :
  length pri = length pub -> add_slots pri pub = Ok slots ->
  slots = zip_with (zip_with (fun p a => wrap_int64 (p + a))) pri pub.
Proof.
  unfold add_slots, broadcast. intros Hlen H.
  rewrite decide_True in H by done. by simplify_eq.
Qed.

(** The rows a high priority finder looks at, for diaries whose two pools
    have the same days, are the combined rows from the start of the window
    on. *)
Lemma high_window_row d s opts pub pri slots k row :
  0 <= s -> length (carve_out_slots d) = length (available_slots d) ->
  window (available_slots d) s opts = Ok pub ->
  window (carve_out_slots d) s opts = Ok pri ->
  add_slots pri pub = Ok slots ->
  slots !! k = Some row ->
  combined_row d opts (Z.to_nat s + k) = Some row.
Proof.
  intros Hs Hlen Hpub Hpri Hadd Hrow.
  apply window_Ok in Hpub. apply window_Ok in Hpri.
  apply add_slots_same_length in Hadd.
  2:{ rewrite (length_take_columns _ _ _ _ Hpub),
        (length_take_columns _ _ _ _ Hpri), !slice_from_nonneg by done.
      by rewrite !length_drop, Hlen. }
  subst slots.
  apply lookup_zip_with_Some in Hrow as (pr & pu & -> & Hpr & Hpu).
  apply mapM_combined.
  - by eapply take_columns_row.
  - by eapply take_columns_row.
Qed.

Lemma combined_row_lookup d opts i row idx c x :
  combined_row d opts i = Some row -> opts !! idx = Some c ->
  row !! idx = Some x -> combined d i c = Some x.
Proof.
  unfold combined_row. intros H Hc Hx. apply mapM_Some in H.
  by apply (Forall2_lookup_lr _ _ _ _ _ _ H Hc Hx).
Qed.

Lemma book_slot_high_effect t c d d' :
  0 <= t -> book_slot_high t c d = (d', Ok tt) ->
  exists r,
    cell (carve_out_slots d) (Z.to_nat t) c = Some r
    /\ if 0 <? r then
         cell (carve_out_slots d') (Z.to_nat t) c = Some (wrap_uint8 (r - 1))
         /\ available_slots d' = available_slots d
       else
         carve_out_slots d' = carve_out_slots d
         /\ exists a,
              cell (available_slots d) (Z.to_nat t) c = Some a
              /\ cell (available_slots d') (Z.to_nat t) c
                 = Some (wrap_int64 (a - 1)).
Proof.
  intros Ht H. unfold book_slot_high in H.
  apply prog_bind_Ok in H as (d0 & reserved & H0 & H).
  injection H0 as <- Hres. apply iat_nonneg in Hres; [|done].
  apply prog_bind_Ok in H as (d1 & [] & H1 & H2).
  apply in_place_Ok in H2 as (b' & Hb & ->).
  exists reserved. split; [done|].
  destruct (0 <? reserved) eqn:Hpos.
  - apply in_place_Ok in H1 as (r' & Hr & ->).
    apply iat_update_Ok_nonneg in Hr as (r & Hr & Hr'); [|done].
    simpl in *. assert (r = reserved) as -> by congruence.
    split; [|done]. by eapply cell_updated.
  - apply in_place_Ok in H1 as (a' & Ha & ->).
    apply iat_update_Ok_nonneg in Ha as (a & Ha & Ha'); [|done].
    simpl in *. split; [done|]. exists a. split; [done|].
    by eapply cell_updated.
Qed.

(** The policy of the high priority booker as the code has it: for a
    diary whose two pools have the same days and a day [t + min_wait]
    that is not negative, the day that the [find_slot]
    of the high priority booker returns is the earliest day from
    [t + min_wait] on that passes the test of the finder on
    [available + carve_out] over the eligible clinicians: called without a
    mask, as the pathway calls it, that some eligible clinician has a
    positive entry; called with a mask, that the sum of the entries is
    positive.  The clinician returned is eligible and has a positive entry
    on that day.  [book_slot] takes the slot from [carve_out] where that
    is positive and from [available] otherwise. *)
Theorem high_priority_policy d pool g t home limit day c g' :
  let b := new_booker HighPriorityPooledBooker in
  0 <= t + min_wait b ->
  length (carve_out_slots d) = length (available_slots d) ->
  find_slot b d pool g t home limit = Ok (day, c, g') ->
  (exists opts,
     pooled_options pool home limit = Ok opts
     /\ c ∈ opts
     /\ t + min_wait b <= day
     /\ (exists x, combined d (Z.to_nat day) c = Some x /\ 0 < x)
     /\ (exists row,
           combined_row d opts (Z.to_nat day) = Some row
           /\ day_counts limit row)
     /\ (forall day' row,
           t + min_wait b <= day' < day ->
           combined_row d opts (Z.to_nat day') = Some row ->
           ~ day_counts limit row))
  /\ (forall tb cb db db',
        0 <= tb -> book_slot b tb cb db = (db', Ok tt) ->
        exists r,
          cell (carve_out_slots db) (Z.to_nat tb) cb = Some r
          /\ if 0 <? r then
               cell (carve_out_slots db') (Z.to_nat tb) cb
               = Some (wrap_uint8 (r - 1))
               /\ available_slots db' = available_slots db
             else
               carve_out_slots db' = carve_out_slots db
               /\ exists a,
                    cell (available_slots db) (Z.to_nat tb) cb = Some a
                    /\ cell (available_slots db') (Z.to_nat tb) cb
                       = Some (wrap_int64 (a - 1))).
Proof.
  intros b Hs Hlen Hfind. split; [|intros; by apply book_slot_high_effect].
  unfold find_slot in Hfind. simpl in Hfind, Hs.
  apply bind_Ok in Hfind as (opts & Hopts & Hfind).
  apply bind_Ok in Hfind as (slots & Hslots & Hpick).
  apply bind_Ok in Hslots as (pub & Hpub & Hslots).
  apply bind_Ok in Hslots as (pri & Hpri & Hadd).
  unfold pick_slot in Hpick.
  apply bind_Ok in Hpick as (best_t & Hbest & Hpick).
  apply bind_Ok in Hpick as (row & Hrow & Hpick).
  apply or_raise_Ok in Hrow.
  apply bind_Ok in Hpick as ([sample g1] & _ & Hpick).
  apply bind_Ok in Hpick as (best & Hcand & Hpick).
  apply or_raise_Ok in Hcand. simplify_eq.
  assert (forall k r, slots !! k = Some r ->
            combined_row d opts (Z.to_nat (t + 1) + k) = Some r) as Hrows.
  { intros k r Hk. by eapply high_window_row. }
  assert (Z.to_nat (Z.of_nat best_t + 1 + t) = (Z.to_nat (t + 1) + best_t)%nat)
    as Hday by lia.
  apply earliest_day_Ok in Hbest as [(row' & Hrow' & Hcount) Hearlier].
  assert (row' = row) as -> by congruence.
  exists opts. split; [done|].
  apply list_elem_of_lookup_2 in Hcand.
  apply elem_of_select_by_mask in Hcand as (idx & Hidx & Hmask).
  rewrite list_lookup_fmap in Hmask.
  destruct (row !! idx) as [x|] eqn:Hx; [|done]. simpl in Hmask.
  split; [by eapply list_elem_of_lookup_2|]. split; [simpl; lia|].
  simpl. rewrite Hday. split; [|split].
  - exists x. split.
    + eapply combined_row_lookup; [by apply Hrows|done|done].
    + unfold positive in Hmask. simplify_eq. lia.
  - exists row. split; [by apply Hrows|done].
  - intros day' r [Hlo Hhi] Hr.
    assert (exists k, Z.to_nat day' = (Z.to_nat (t + 1) + k)%nat
                      /\ (k < best_t)%nat) as (k & Hk & Hlt).
    { exists (Z.to_nat day' - Z.to_nat (t + 1))%nat. lia. }
    destruct (lookup_lt_is_Some_2 slots k) as [r' Hr'].
    { apply lookup_lt_Some in Hrow. lia. }
    pose proof (Hrows k r' Hr') as Hr''. rewrite <- Hk, Hr in Hr''.
    simplify_eq. by eapply Hearlier.
Qed.

(** ** The carve-out pool and patients of priority 1 *)

Section CarveOutKept.

Context (C : matrix) (self : nat).

Lemma keeps_same m m' :
  diary (args m') = diary (args m) -> patients m' = patients m ->
  keeps_carve_out C self m -> keeps_carve_out C self m'.
Proof. intros Hd Hp [? ?]. split; by rewrite ?Hd, ?Hp. Qed.

Lemma keeps_set_dists m ds :
  keeps_carve_out C self m ->
  keeps_carve_out C self (set_args (set_dists ds (args m)) m).
Proof. by apply keeps_same. Qed.

Lemma keeps_set_caseload m c :
  keeps_carve_out C self m ->
  keeps_carve_out C self (set_args (set_existing_caseload c (args m)) m).
Proof. by apply keeps_same. Qed.

Lemma keeps_set_random m g :
  keeps_carve_out C self m -> keeps_carve_out C self (set_random_module g m).
Proof. by apply keeps_same. Qed.

Lemma keeps_append_event m e :
  keeps_carve_out C self m ->
  keeps_carve_out C self (set_event_log (event_log m ++ [e]) m).
Proof. by apply keeps_same. Qed.

Lemma keeps_set_env m e :
  keeps_carve_out C self m -> keeps_carve_out C self (set_env e m).
Proof. by apply keeps_same. Qed.

Lemma keeps_update_self m f :
  keeps_carve_out C self m ->
  (forall p, kind (booker (f p)) = kind (booker p)) ->
  keeps_carve_out C self (set_patients (alter f self (patients m)) m).
Proof.
  intros [Hc Hk] Hf. split; [done|]. simpl. intros p Hp.
  rewrite list_lookup_alter_eq in Hp.
  destruct (patients m !! self) as [p0|] eqn:Hp0; [|done].
  simpl in Hp. simplify_eq. rewrite Hf. by apply Hk.
Qed.

Lemma keeps_yield m delay pt :
  keeps_carve_out C self m ->
  keeps_carve_out C self
    (set_patients
       (alter (set_at_point pt) self (patients m))
       (set_env (schedule (ResumePatient self) NORMAL delay (env m)) m)).
Proof.
  intros [Hc Hk]. split; [done|]. simpl. intros p Hp.
  rewrite list_lookup_alter_eq in Hp.
  destruct (patients m !! self) as [p0|] eqn:Hp0; [|done].
  simpl in Hp. simplify_eq. simpl. by apply Hk.
Qed.

Lemma keeps_set_diary m d' :
  keeps_carve_out C self m ->
  carve_out_slots d' = carve_out_slots (diary (args m)) ->
  keeps_carve_out C self (set_args (set_diary d' (args m)) m).
Proof. intros [Hc Hk] Hd. split; [by simpl; rewrite Hd|done]. Qed.

Lemma book_slot_low_kind_frame b t c d d' r :
  kind b = LowPriorityPooledBooker -> book_slot b t c d = (d', r) ->
  carve_out_slots d' = carve_out_slots d.
Proof.
  unfold book_slot. intros -> H.
  by apply book_slot_low_frame in H as (? & _).
Qed.

Lemma repeat_book_slot_carve_frame rb t d d' r :
  repeat_book_slot rb t d = (d', r) ->
  carve_out_slots d' = carve_out_slots d.
Proof. intros H. by apply repeat_book_slot_frame in H as (? & _). Qed.

End CarveOutKept.

(** One statement of process code, with [HK] moved over it. *)
Ltac keep_cmd HK c :=
  lazymatch c with
  | gets _ => apply wp_gets
  | mret _ => apply wp_ret
  | draw _ _ =>
      let x := fresh "x" in
      let ds := fresh "ds" in
      apply wp_draw; intros x ds; apply (keeps_set_dists _ _ _ ds) in HK
  | draw_by_priority _ _ _ _ _ =>
      let x := fresh "x" in
      let ds := fresh "ds" in
      apply wp_draw_by_priority;
      [intros x ds; apply (keeps_set_dists _ _ _ ds) in HK|exact HK]
  | caseload_add _ _ =>
      apply wp_caseload_add;
      [let c := fresh "c" in
       intros c; apply (keeps_set_caseload _ _ _ c) in HK
      |exact HK]
  | append_event ?e =>
      apply wp_append_event; apply (keeps_append_event _ _ _ e) in HK
  | update_self _ ?f =>
      apply wp_update_self;
      apply (fun H => keeps_update_self _ _ _ f H ltac:(by intros [])) in HK
  | lift _ => apply wp_lift; [intros ? _|by intros]
  | find_slot_in_model _ _ _ _ =>
      let g' := fresh "g'" in
      apply wp_find_slot_in_model;
      [intros ? ? g' _; apply (keeps_set_random _ _ _ g') in HK|exact HK]
  | self_obj _ =>
      let Hp := fresh "Hp" in
      let Hk := fresh "Hk" in
      apply wp_self_obj;
      lazymatch goal with
      | |- match ?o with _ => _ end =>
          destruct o as [?p|] eqn:Hp; [|exact HK];
          pose proof (proj2 HK _ Hp) as Hk
      end
  | on_diary _ =>
      let d' := fresh "d'" in
      let Hbook := fresh "Hbook" in
      apply wp_on_diary;
      [intros d' [] Hbook|intros d' ? Hbook];
      (apply (keeps_set_diary _ _ _ d') in HK;
       [|first [eapply book_slot_low_kind_frame; [|exact Hbook]; eassumption
               |eapply repeat_book_slot_carve_frame; exact Hbook]]);
      [|try exact HK]
  | yield_timeout _ _ _ =>
      apply wp_yield_timeout;
      [intros _; exact HK|intros _; by apply keeps_yield]
  end; cbv beta.

Ltac keep_step HK :=
  lazymatch goal with
  | |- wp (mbind _ (match ?x with _ => _ end)) _ _ _ => destruct x
  | |- wp (mbind _ ?c) _ _ _ => apply wp_bind; keep_cmd HK c
  | |- wp (if ?b then _ else _) _ _ _ => destruct b
  | |- wp (match ?x with _ => _ end) _ _ _ => destruct x
  | |- wp (let '(_, _) := ?x in _) _ _ _ => destruct x
  | |- wp ?c _ _ _ => keep_cmd HK c
  end.

Section CarveOutSteps.

Context (C : matrix) (self : nat).

Lemma discharge_keeps m :
  keeps_carve_out C self m ->
  wp (discharge self) (fun _ => keeps_carve_out C self)
    (keeps_carve_out C self) m.
Proof.
  intros HK. unfold discharge.
  repeat keep_step HK; exact HK.
Qed.

Lemma follow_up_iteration_keeps m i num_appts rb :
  keeps_carve_out C self m ->
  wp (follow_up_iteration self i num_appts rb)
    (fun _ => keeps_carve_out C self) (keeps_carve_out C self) m.
Proof.
  intros HK. unfold follow_up_iteration.
  destruct (i <? num_appts)%nat; [|by apply discharge_keeps].
  repeat keep_step HK; exact HK.
Qed.

Lemma book_and_wait_keeps m best_t :
  keeps_carve_out C self m ->
  wp (book_and_wait self best_t)
    (fun _ => keeps_carve_out C self) (keeps_carve_out C self) m.
Proof.
  intros HK. unfold book_and_wait.
  repeat keep_step HK; exact HK.
Qed.

Lemma execute_keeps m :
  keeps_carve_out C self m ->
  wp (execute self) (fun _ => keeps_carve_out C self)
    (keeps_carve_out C self) m.
Proof.
  intros HK. unfold execute.
  keep_step HK. destruct (at_point p).
  - unfold execute_at_start.
    repeat keep_step HK; try exact HK.
    all: unfold priority in *; rewrite Hk in *; done.
  - unfold execute_after_leapfrog_delay.
    repeat keep_step HK; try exact HK.
    by apply book_and_wait_keeps.
  - unfold execute_awaiting_headroom.
    repeat keep_step HK; try exact HK.
    by apply book_and_wait_keeps.
  - unfold execute_awaiting_assessment.
    repeat keep_step HK; try exact HK;
      try (by apply follow_up_iteration_keeps);
      try (by apply discharge_keeps).
  - unfold execute_awaiting_follow_up.
    repeat keep_step HK; try exact HK.
    by apply follow_up_iteration_keeps.
  - by apply wp_ret.
Qed.

Lemma resume_patient_keeps m :
  keeps_carve_out C self m -> keeps_carve_out C self (resume_patient self m).
Proof.
  intros HK. pose proof (execute_keeps m HK) as H.
  unfold wp in H. unfold resume_patient.
  destruct (execute self m) as [m' [[|]|e]].
  - done.
  - by apply keeps_set_env.
  - unfold fail_process. apply keeps_set_env.
    apply keeps_update_self; [done|by intros []].
Qed.

End CarveOutSteps.

(** C3: [book_slot] of the low priority booker and of the repeat booker
    leave every entry of [carve_out] as it is and change [available] and
    [bookings] at most at the booked entry, whatever the diary and the
    arguments and also when the call raises; and resuming the pathway of a
    patient of priority 1, in any state of the model, leaves [carve_out] as
    it is. *)
Theorem carve_out_exclusive :
  (forall t c d d' r,
     book_slot_low t c d = (d', r) ->
     carve_out_slots d' = carve_out_slots d
     /\ only_at (available_slots d) (available_slots d') t c
     /\ only_at (bookings d) (bookings d') t c)
  /\ (forall rb t d d' r,
        repeat_book_slot rb t d = (d', r) ->
        carve_out_slots d' = carve_out_slots d
        /\ only_at (available_slots d) (available_slots d') t (clinic_id rb)
        /\ only_at (bookings d) (bookings d') t (clinic_id rb))
  /\ (forall m self p,
        patients m !! self = Some p -> priority (booker p) = 1 ->
        carve_out_slots (diary (args (resume_patient self m)))
        = carve_out_slots (diary (args m))).
Proof.
  split; [apply book_slot_low_frame|].
  split; [apply repeat_book_slot_frame|].
  intros m self p Hp Hprio.
  apply (resume_patient_keeps (carve_out_slots (diary (args m))) self m).
  split; [done|]. intros p' Hp'. rewrite Hp in Hp'. simplify_eq.
  unfold priority in Hprio. by destruct (kind (booker p')).
Qed.

(** ** Concrete runs *)

Lemma attended_after_booking_witness :
  let m := (run small_scenario (constant 0) 40).1 in
  in_run small_scenario (constant 0) m
  /\ length (event_log m) = 23%nat
  /\ forall i e,
       event_log m !! i = Some e -> ev_event e = have_appointment ->
       exists j e',
         (j < i)%nat /\ event_log m !! j = Some e'
         /\ ev_event e' = appointment_booked_waiting
         /\ ev_patient e' = ev_patient e
         /\ ev_booked_clinic e' = ev_booked_clinic e
         /\ ev_time e' <= ev_time e.
Proof.
  intros m.
  assert (in_run small_scenario (constant 0) m) as Hrun.
  { eapply run_in_run. reflexivity. }
  split; [exact Hrun|]. split; [reflexivity|].
  exact (proj1 (attended_after_booking _ _ _ _ _ _ _ _ _ Hrun)).
Defined.

Lemma diary_bookkeeping_witness :
  let m := (run crowded_scenario (constant 0) 257).1 in
  in_run crowded_scenario (constant 0) m
  /\ forall i j b a c a0 c0,
       cell (bookings (diary (args m))) i j = Some b ->
       cell (available_slots (diary (args m))) i j = Some a ->
       cell (carve_out_slots (diary (args m))) i j = Some c ->
       cell (available_slots (diary crowded_scenario)) i j = Some a0 ->
       cell (carve_out_slots (diary crowded_scenario)) i j = Some c0 ->
       b = ((a0 - a) + (c0 - c)) mod 256.
Proof.
  intros m.
  assert (in_run crowded_scenario (constant 0) m) as Hrun.
  { eapply run_in_run. reflexivity. }
  split; [exact Hrun|].
  exact (proj1 (diary_bookkeeping _ _ _ _ _ _ _ _ _ Hrun)).
Defined.

(** C4, the count of bookings overflows: [bookings] is a matrix of
    unsigned 8-bit counts and [book_slot] adds one to an entry whatever it
    holds.  After 256 bookings of one entry, which had 300 slots, the
    count of bookings is back at 0 while 256 slots have gone from
    [available], so the count no longer records the appointments that
    were booked. *)
Lemma bookkeeping_not_over_the_integers :
  let m := (run crowded_scenario (constant 0) 257).1 in
  in_run crowded_scenario (constant 0) m
  /\ cell (bookings (diary (args m))) 1 0 = Some 0
  /\ cell (available_slots (diary (args m))) 1 0 = Some 44
  /\ cell (carve_out_slots (diary (args m))) 1 0 = Some 0
  /\ cell (available_slots (diary crowded_scenario)) 1 0 = Some 300
  /\ cell (carve_out_slots (diary crowded_scenario)) 1 0 = Some 0
  /\ 0 <> (300 - 44) + (0 - 0).
Proof.
  intros m. split; [eapply run_in_run; reflexivity|].
  repeat split; try (vm_compute; reflexivity). lia.
Qed.



(** C6, the code at a state of a run in which clinician 0 has no slot left
    from day 7 on: the repeat booker of that clinician, asked on day 1,
    returns day 7 and the run books it, leaving -1 slots, where the low
    priority booker, asked for the same clinician, raises [IndexError]. *)
Theorem repeat_booker_books_without_capacity :
  let m := (run booked_out_scenario (constant 0) 56).1 in
  let m' := (run booked_out_scenario (constant 0) 57).1 in
  let rb := new_repeat_booker HIGH_INTENSITY_FOLLOW_UP_TARGET_INTERVAL 0 in
  in_run booked_out_scenario (constant 0) m
  /\ in_run booked_out_scenario (constant 0) m'
  /\ now (env m) = 1
  /\ take_column (slice_from (1 + repeat_min_wait rb)
                    (available_slots (diary (args m)))) 0
     = Ok (replicate 48 0)
  /\ repeat_find_slot rb (diary (args m)) 1 = Ok (7, 0%nat)
  /\ find_slot (new_booker LowPriorityPooledBooker) (diary (args m))
       (pooling_np (args m)) (random_module m) 1 0 (Some [true])
     = Raised IndexError
  /\ cell (available_slots (diary (args m))) 7 0 = Some 0
  /\ cell (available_slots (diary (args m'))) 7 0 = Some (-1)
  /\ cell (bookings (diary (args m'))) 7 0 = Some 2
  /\ (summary <$> last (event_log m'))
     = Some ((0, 0%nat), follow_up_appointment_booked_waiting, None,
             Some 0%nat, 1).
Proof.
  intros m m' rb.
  split; [eapply run_in_run; reflexivity|].
  split; [eapply run_in_run; reflexivity|].
  repeat split; vm_compute; reflexivity.
Qed.

(** C1, the code on one scenario, so with the same streams for every
    seeded distribution, and two states of the module-level [random]
    generator: the first patient is booked with clinician 0 in one run and
    with clinician 1 in the other, and the event logs differ. *)
Theorem tie_break_not_seeded :
  let log0 := event_log (run small_scenario (constant 0) 40).1 in
  let log1 := event_log (run small_scenario (constant 1) 40).1 in
  (summary <$> log0 !! 2%nat)
  = Some ((0, 0%nat), appointment_booked_waiting, None, Some 0%nat, 0)
  /\ (summary <$> log1 !! 2%nat)
     = Some ((0, 0%nat), appointment_booked_waiting, None, Some 1%nat, 0)
  /\ log0 <> log1
  /\ ~ (forall a g g' fuel,
          event_log (run a g fuel).1 = event_log (run a g' fuel).1).
Proof.
  intros log0 log1.
  assert ((summary <$> log0 !! 2%nat)
          = Some ((0, 0%nat), appointment_booked_waiting, None, Some 0%nat, 0))
    as H0 by (vm_compute; reflexivity).
  assert ((summary <$> log1 !! 2%nat)
          = Some ((0, 0%nat), appointment_booked_waiting, None, Some 1%nat, 0))
    as H1 by (vm_compute; reflexivity).
  assert (log0 <> log1) as Hne.
  { intros Heq. rewrite Heq, H1 in H0. discriminate H0. }
  split; [exact H0|]. split; [exact H1|]. split; [exact Hne|].
  intros H. apply Hne. apply H.
Qed.

Lemma diary_cell_arithmetic_witness :
  let d := diary (args (run booked_out_scenario (constant 0) 56).1) in
  let d' := diary (args (run booked_out_scenario (constant 0) 57).1) in
  let rb := new_repeat_booker 7 0 in
  repeat_find_slot rb d 1 = Ok (7, 0%nat)
  /\ cell (available_slots d') 7 0 = Some (-1)
  /\ carve_out_slots d' = carve_out_slots d.
Proof.
  intros d d' rb.
  assert (repeat_book_slot rb (1 + repeat_min_wait rb) d = (d', Ok tt))
    as Hbook by (vm_compute; reflexivity).
  pose proof (diary_cell_arithmetic (round_half_even 0 1) 7
                (replicate 5 [1; 1]) rb d 1 (replicate 48 0) d'
                ltac:(vm_compute; reflexivity)
                ltac:(vm_compute; reflexivity)
                ltac:(discriminate)
                ltac:(vm_compute; reflexivity)
                ltac:(vm_compute; discriminate)
                ltac:(vm_compute; reflexivity)
                Hbook) as (_ & _ & _ & Hfind & Hcell & _ & Hcarve & _).
  split; [exact Hfind|]. split; [exact Hcell|]. exact Hcarve.
Defined.

(** C10 as stated fails: the entries of [available] are not stored modulo
    256, as 300 slots stay 300, and in a state of a run the booking of an
    entry that is 0 leaves it at -1, not at 255. *)
Lemma available_not_uint8 :
  let m := (run booked_out_scenario (constant 0) 56).1 in
  let m' := (run booked_out_scenario (constant 0) 57).1 in
  cell (available_slots (diary crowded_scenario)) 0 0 = Some 300
  /\ in_run booked_out_scenario (constant 0) m
  /\ in_run booked_out_scenario (constant 0) m'
  /\ cell (available_slots (diary (args m))) 7 0 = Some 0
  /\ cell (available_slots (diary (args m'))) 7 0 = Some (-1)
  /\ Some (-1) <> Some 255.
Proof.
  intros m m'. split; [vm_compute; reflexivity|].
  split; [eapply run_in_run; reflexivity|].
  split; [eapply run_in_run; reflexivity|].
  split; [vm_compute; reflexivity|].
  split; [vm_compute; reflexivity|]. discriminate.
Qed.

Lemma high_priority_policy_witness :
  let m := (run booked_out_scenario (constant 0) 67).1 in
  let d := diary (args m) in
  length (carve_out_slots d) = length (available_slots d)
  /\ exists x, combined d 7 1 = Some x /\ 0 < x.
Proof.
  intros m d.
  assert (length (carve_out_slots d) = length (available_slots d)) as Hlen
    by (vm_compute; reflexivity).
  split; [exact Hlen|].
  pose proof (high_priority_policy d (pooling_np (args m)) (random_module m)
                6 1 None 7 1
                (mkDist (samples (random_module m))
                   (S (drawn (random_module m))))
                ltac:(simpl; lia) Hlen
                ltac:(vm_compute; reflexivity))
    as [(opts & _ & _ & _ & Hx & _) _].
  exact Hx.
Defined.

(** C5, the finder called without a mask, as the pathway calls it, does
    not test the sum over the eligible clinicians that it computes: in a
    state of a run on day 6, where clinician 0 has -1 slots and clinician
    1 has one slot on each of the days 7 to 12, it returns day 7, on which
    the sum over the two eligible clinicians is 0.  The earliest day with
    a positive sum is day 13, and that is the day the same call returns
    when it is given a mask that lets both clinicians through. *)
Lemma earliest_day_not_by_sum :
  let m := (run booked_out_scenario (constant 0) 67).1 in
  let d := diary (args m) in
  in_run booked_out_scenario (constant 0) m
  /\ now (env m) = 6
  /\ pooled_options (pooling_np (args m)) 1 None = Ok [0%nat; 1%nat]
  /\ match find_slot (new_booker HighPriorityPooledBooker) d
             (pooling_np (args m)) (random_module m) 6 1 None with
     | Ok (day, c, _) => Some (day, c)
     | Raised _ => None
     end = Some (7, 1%nat)
  /\ match find_slot (new_booker HighPriorityPooledBooker) d
             (pooling_np (args m)) (random_module m) 6 1
             (Some [true; true]) with
     | Ok (day, c, _) => Some (day, c)
     | Raised _ => None
     end = Some (13, 1%nat)
  /\ map (combined_row d [0%nat; 1%nat]) [7; 8; 9; 10; 11; 12; 13]%nat
     = [Some [-1; 1]; Some [-1; 1]; Some [-1; 1]; Some [-1; 1];
        Some [-1; 1]; Some [-1; 1]; Some [0; 1]]
  /\ sum_int64 [-1; 1] = 0
  /\ sum_int64 [0; 1] = 1.
Proof.
  intros m d. split; [eapply run_in_run; reflexivity|].
  repeat split; vm_compute; reflexivity.
Qed.

Lemma carve_out_exclusive_witness :
  let m := (run small_scenario (constant 0) 6).1 in
  let m' := resume_patient 1 m in
  cell (bookings (diary (args m))) 6 0 = Some 0
  /\ cell (bookings (diary (args m'))) 6 0 = Some 1
  /\ carve_out_slots (diary (args m')) = carve_out_slots (diary (args m)).
Proof.
  intros m m'.
  split; [vm_compute; reflexivity|]. split; [vm_compute; reflexivity|].
  destruct (patients m !! 1%nat) as [p|] eqn:Hp;
    [|vm_compute in Hp; discriminate Hp].
  apply (proj2 (proj2 carve_out_exclusive) m 1%nat p Hp).
  vm_compute in Hp. injection Hp as <-. reflexivity.
Defined.

(** * Further properties of the code *)

(** ** The low priority finder *)

Lemma low_window_row d s opts slots k row :
  0 <= s ->
  window (available_slots d) s opts = Ok slots ->
  slots !! k = Some row ->
  available_row d opts (Z.to_nat s + k) = Some row.
Proof.
  intros Hs Hwin Hrow. apply window_Ok in Hwin.
  by eapply take_columns_row.
Qed.

Lemma available_row_lookup d opts i row idx c x :
  available_row d opts i = Some row -> opts !! idx = Some c ->
  row !! idx = Some x -> cell (available_slots d) i c = Some x.
Proof.
  unfold available_row. intros H Hc Hx. apply mapM_Some in H.
  by apply (Forall2_lookup_lr _ _ _ _ _ _ H Hc Hx).
Qed.

(** [LowPriorityPooledBooker.find_slot], whatever [min_wait] the booker has
    at the call: the day returned is the earliest day from [t + min_wait]
    on that passes the test of the finder on the open slots of the eligible
    clinicians, the clinician returned is eligible and has an open slot on
    that day; the carved-out slots are not looked at. *)
Theorem low_priority_finder b d pool g t home limit day c g' :
  kind b = LowPriorityPooledBooker ->
  0 <= t + min_wait b ->
  find_slot b d pool g t home limit = Ok (day, c, g') ->
  exists opts,
    pooled_options pool home limit = Ok opts
    /\ c ∈ opts
    /\ t + min_wait b <= day
    /\ (exists x,
          cell (available_slots d) (Z.to_nat day) c = Some x /\ 0 < x)
    /\ (exists row,
          available_row d opts (Z.to_nat day) = Some row
          /\ day_counts limit row)
    /\ (forall day' row,
          t + min_wait b <= day' < day ->
          available_row d opts (Z.to_nat day') = Some row ->
          ~ day_counts limit row).
Proof.
  intros Hkind Hs Hfind. unfold find_slot in Hfind. rewrite Hkind in Hfind.
  apply bind_Ok in Hfind as (opts & Hopts & Hfind).
  apply bind_Ok in Hfind as (slots & Hslots & Hpick).
  unfold pick_slot in Hpick.
  apply bind_Ok in Hpick as (best_t & Hbest & Hpick).
  apply bind_Ok in Hpick as (row & Hrow & Hpick).
  apply or_raise_Ok in Hrow.
  apply bind_Ok in Hpick as ([sample g1] & _ & Hpick).
  apply bind_Ok in Hpick as (best & Hcand & Hpick).
  apply or_raise_Ok in Hcand. simplify_eq.
  assert (forall k r, slots !! k = Some r ->
            available_row d opts (Z.to_nat (t + min_wait b) + k) = Some r)
    as Hrows.
  { intros k r Hk. by eapply low_window_row. }
  assert (Z.to_nat (Z.of_nat best_t + min_wait b + t)
          = (Z.to_nat (t + min_wait b) + best_t)%nat) as Hday by lia.
  apply earliest_day_Ok in Hbest as [(row' & Hrow' & Hcount) Hearlier].
  assert (row' = row) as -> by congruence.
  exists opts. split; [done|].
  apply list_elem_of_lookup_2 in Hcand.
  apply elem_of_select_by_mask in Hcand as (idx & Hidx & Hmask).
  rewrite list_lookup_fmap in Hmask.
  destruct (row !! idx) as [x|] eqn:Hx; [|done]. simpl in Hmask.
  split; [by eapply list_elem_of_lookup_2|]. split; [lia|].
  rewrite Hday. split; [|split].
  - exists x. split.
    + eapply available_row_lookup; [by apply Hrows|done|done].
    + unfold positive in Hmask. simplify_eq. lia.
  - exists row. split; [by apply Hrows|done].
  - intros day' r [Hlo Hhi] Hr.
    assert (exists k, Z.to_nat day' = (Z.to_nat (t + min_wait b) + k)%nat
                      /\ (k < best_t)%nat) as (k & Hk & Hlt).
    { exists (Z.to_nat day' - Z.to_nat (t + min_wait b))%nat. lia. }
    destruct (lookup_lt_is_Some_2 slots k) as [r' Hr'].
    { apply lookup_lt_Some in Hrow. lia. }
    pose proof (Hrows k r' Hr') as Hr''. rewrite <- Hk, Hr in Hr''.
    simplify_eq. by eapply Hearlier.
Qed.

Lemma low_priority_finder_witness :
  let d := mkDiary [[9; 9]; [9; 9]; [9; 9]] [[1; 0]; [0; 0]; [0; 2]]
             [[0; 0]; [0; 0]; [0; 0]] in
  exists x, cell (available_slots d) 2 1 = Some x /\ 0 < x.
Proof.
  intros d.
  destruct (low_priority_finder (mkBooker LowPriorityPooledBooker 1) d
              [[1; 1]; [1; 1]] (mkDist (fun _ => 0) 0) 0 0
              (Some [true; true]) 2 1%nat (mkDist (fun _ => 0) 1)
              eq_refl ltac:(simpl; lia) ltac:(vm_compute; reflexivity))
    as (opts & _ & _ & _ & Hx & _).
  exact Hx.
Defined.

(** ** A pooled finder with nothing to find *)

Lemma pooled_options_Raised pool home limit e :
  pooled_options pool home limit = Raised e -> e = IndexError.
Proof.
  unfold pooled_options, limit_options.
  destruct (pool !! home) as [row|]; simpl; [|by intros [= <-]].
  destruct limit as [mask|]; [|done].
  case_decide; [done|by intros [= <-]].
Qed.

Lemma window_Raised (m : matrix) s opts e :
  window m s opts = Raised e -> e = IndexError.
Proof.
  unfold window, take_columns.
  destruct (columns_in_range m opts); [|by intros [= <-]].
  destruct (mapM _ _); simpl; [done|by intros [= <-]].
Qed.

Lemma earliest_day_none slots limit :
  (forall row, row ∈ slots -> ~ day_counts limit row) ->
  earliest_day slots limit = Raised IndexError.
Proof.
  intros H. unfold earliest_day.
  destruct limit as [mask|].
  - rewrite (proj2 (first_index_None _ _)); [done|].
    intros row Hrow. specialize (H row Hrow).
    unfold day_counts, positive in *.
    destruct (0 <? sum_int64 row) eqn:E; [|done].
    apply Z.ltb_lt in E. done.
  - rewrite (proj2 (first_index_None _ _)); [done|].
    intros row Hrow. specialize (H row Hrow).
    destruct (existsb positive row) eqn:E; [|done].
    apply existsb_positive in E. done.
Qed.

(** [find_slot] of a pooled booker raises [IndexError] when no day from
    [t + min_wait] to the end of the diary passes its test, on a diary
    whose two pools have the same days: the list of days that [np.where]
    returns is empty and its first entry is read. *)
Theorem pooled_finder_exhausted b d pool g t home limit :
  0 <= t + min_wait b ->
  length (carve_out_slots d) = length (available_slots d) ->
  (forall opts i row,
     pooled_options pool home limit = Ok opts ->
     (Z.to_nat (t + min_wait b) <= i)%nat ->
     slots_row (kind b) d opts i = Some row -> ~ day_counts limit row) ->
  find_slot b d pool g t home limit = Raised IndexError.
Proof.
  intros Hs Hlen Hnone. unfold find_slot.
  destruct (pooled_options pool home limit) as [opts|e] eqn:Hopts; simpl.
  2:{ by apply pooled_options_Raised in Hopts as ->. }
  specialize (Hnone opts).
  destruct (kind b) eqn:Hk; simpl in Hnone.
  - destruct (window (available_slots d) (t + min_wait b) opts)
      as [slots|e] eqn:Hw; simpl.
    2:{ by apply window_Raised in Hw as ->. }
    unfold pick_slot. rewrite earliest_day_none; [done|].
    intros row Hrow. apply list_elem_of_lookup in Hrow as [k Hrow].
    eapply Hnone; [done| |by eapply low_window_row]. lia.
  - destruct (window (available_slots d) (t + min_wait b) opts)
      as [pub|e] eqn:Hpub; simpl.
    2:{ by apply window_Raised in Hpub as ->. }
    destruct (window (carve_out_slots d) (t + min_wait b) opts)
      as [pri|e] eqn:Hpri; simpl.
    2:{ by apply window_Raised in Hpri as ->. }
    destruct (add_slots pri pub) as [slots|e] eqn:Hadd; simpl.
    2:{ exfalso. unfold add_slots, broadcast in Hadd.
        rewrite decide_True in Hadd; [done|].
        apply window_Ok in Hpub. apply window_Ok in Hpri.
        rewrite (length_take_columns _ _ _ _ Hpub),
          (length_take_columns _ _ _ _ Hpri), !slice_from_nonneg by done.
        by rewrite !length_drop, Hlen. }
    unfold pick_slot. rewrite earliest_day_none; [done|].
    intros row Hrow. apply list_elem_of_lookup in Hrow as [k Hrow].
    eapply Hnone; [done| |by eapply high_window_row]. lia.
Qed.

Lemma pooled_finder_exhausted_witness :
  find_slot (new_booker HighPriorityPooledBooker)
    (mkDiary [[1]; [0]; [0]] [[1]; [0]; [-1]] [[0]; [0]; [1]])
    [[1]] (mkDist (fun _ => 0) 0) 0 0 None
  = Raised IndexError.
Proof.
  apply pooled_finder_exhausted; [simpl; lia|reflexivity|].
  intros opts i row Hopts Hi Hrow [x [Hx Hpos]].
  injection Hopts as <-. simpl in Hi, Hrow.
  destruct i as [|[|[|i]]]; [lia| | |]; vm_compute in Hrow;
    try discriminate Hrow; injection Hrow as <-;
    apply list_elem_of_singleton in Hx; lia.
Defined.

(** ** The repeat finder *)

Lemma argmax_flag_Ok flags first :
  argmax_flag flags = Ok first ->
  flags <> [] /\ first = default 0%nat (first_index (fun b : bool => b) flags).
Proof.
  unfold argmax_flag. destruct flags; [done|].
  intros [= <-]. done.
Qed.

Lemma cell_lt (m : matrix) i c v : cell m i c = Some v -> (i < length m)%nat.
Proof.
  unfold cell. destruct (m !! i) as [row|] eqn:Hrow; [|done].
  intros _. by eapply lookup_lt_Some.
Qed.

(** [RepeatBooker.find_slot] returns the clinician of the booker and a day
    of the diary from [t + min_wait] on before which that clinician has no
    open slot.  Either the clinician has an open slot on the day returned,
    or the day is [t + min_wait] itself and the clinician has no open slot
    from there to the end of the diary. *)
Theorem repeat_finder_earliest rb d t day c :
  0 <= t + repeat_min_wait rb ->
  repeat_find_slot rb d t = Ok (day, c) ->
  c = clinic_id rb
  /\ t + repeat_min_wait rb <= day < Z.of_nat (length (available_slots d))
  /\ (forall day' v,
        t + repeat_min_wait rb <= day' < day ->
        cell (available_slots d) (Z.to_nat day') c = Some v -> v <= 0)
  /\ ((exists v,
         cell (available_slots d) (Z.to_nat day) c = Some v /\ 0 < v)
      \/ (day = t + repeat_min_wait rb
          /\ forall i v,
               (Z.to_nat day <= i)%nat ->
               cell (available_slots d) i c = Some v -> v <= 0)).
Proof.
  intros Hs H. unfold repeat_find_slot in H.
  apply guard_Ok in H as [Hcols H].
  apply bind_Ok in H as (col & Hcol & H).
  apply bind_Ok in H as (first & Hfirst & H). simplify_eq.
  pose proof (length_take_column _ _ _ _ Hcol) as Hlen.
  rewrite slice_from_nonneg, length_drop in Hlen by done.
  apply argmax_flag_Ok in Hfirst as [Hne ->].
  assert (length col <> 0%nat) as Hpos.
  { destruct col; [done|simpl; lia]. }
  assert (forall i v,
            (Z.to_nat (t + repeat_min_wait rb) <= i)%nat ->
            cell (available_slots d) i (clinic_id rb) = Some v ->
            col !! (i - Z.to_nat (t + repeat_min_wait rb))%nat = Some v)
    as Hback.
  { intros i v Hi Hv. pose proof (cell_lt _ _ _ _ Hv) as Hlt.
    destruct (lookup_lt_is_Some_2 col
                (i - Z.to_nat (t + repeat_min_wait rb))%nat) as [y Hy];
      [lia|].
    pose proof (take_column_cells _ _ _ _ _ _ Hs Hcol Hy) as Hc.
    replace (Z.to_nat (t + repeat_min_wait rb)
             + (i - Z.to_nat (t + repeat_min_wait rb)))%nat with i in Hc
      by lia.
    congruence. }
  split; [done|].
  destruct (first_index (fun b : bool => b) (map positive col)) as [k|]
    eqn:Hk; simpl.
  - apply first_index_Some in Hk as [(b & Hb & Hbt) Hbefore].
    rewrite list_lookup_fmap in Hb.
    destruct (col !! k) as [x|] eqn:Hx; [|done]. simpl in Hb.
    assert (0 < x) as Hxpos.
    { injection Hb as <-. unfold positive in Hbt. lia. }
    pose proof (lookup_lt_Some _ _ _ Hx) as Hklt.
    pose proof (take_column_cells _ _ _ _ _ _ Hs Hcol Hx) as Hc.
    split; [lia|]. split.
    + intros day' v [Hlo Hhi] Hv.
      apply Hback in Hv; [|lia].
      specialize (Hbefore (Z.to_nat day'
                           - Z.to_nat (t + repeat_min_wait rb))%nat
                    (positive v)).
      rewrite list_lookup_fmap, Hv in Hbefore.
      specialize (Hbefore ltac:(lia) eq_refl).
      unfold positive in Hbefore. lia.
    + left. exists x. split.
      * replace (Z.to_nat (Z.of_nat k + repeat_min_wait rb + t))
          with (Z.to_nat (t + repeat_min_wait rb) + k)%nat by lia.
        done.
      * done.
  - split; [lia|]. split; [intros; lia|].
    right. split; [lia|]. intros i v Hi Hv.
    apply Hback in Hv; [|lia].
    pose proof (proj1 (first_index_None _ _) Hk (positive v)) as Hf.
    unfold positive in Hf.
    assert ((0 <? v) = false) as Hv0; [|lia].
    apply Hf. apply list_elem_of_fmap. exists v. split; [done|].
    by eapply list_elem_of_lookup_2.
Qed.

Lemma repeat_finder_earliest_witness :
  let d := mkDiary [[0]; [0]; [0]; [0]] [[3]; [0]; [-1]; [2]]
             [[0]; [0]; [0]; [0]] in
  exists v, cell (available_slots d) 3 0 = Some v /\ 0 < v.
Proof.
  intros d.
  destruct (repeat_finder_earliest (new_repeat_booker 2 0) d 0 3 0%nat
              ltac:(simpl; lia) ltac:(vm_compute; reflexivity))
    as (_ & _ & _ & [Hv|[Hday _]]).
  - exact Hv.
  - discriminate Hday.
Defined.

(** [RepeatBooker.find_slot] asked for a window that starts after the last
    day of the diary raises [ValueError]: the column it takes is empty and
    [np.argmax] does not accept an empty sequence. *)
Theorem repeat_finder_past_diary rb d t :
  available_slots d <> [] ->
  columns_in_range (available_slots d) [clinic_id rb] = true ->
  Z.of_nat (length (available_slots d)) <= t + repeat_min_wait rb ->
  repeat_find_slot rb d t = Raised ValueError.
Proof.
  intros Hne Hcols Hpast. unfold repeat_find_slot. rewrite Hcols. simpl.
  destruct (take_column_in_range (available_slots d)
              (t + repeat_min_wait rb) _ Hcols) as [col Hcol].
  rewrite Hcol. simpl.
  pose proof (length_take_column _ _ _ _ Hcol) as Hlen.
  rewrite slice_from_nonneg, length_drop in Hlen by lia.
  destruct col as [|x col]; [done|]. simpl in Hlen. lia.
Qed.

Lemma repeat_finder_past_diary_witness :
  repeat_find_slot (new_repeat_booker 7 0)
    (mkDiary [[0]; [0]; [0]] [[1]; [1]; [1]] [[0]; [0]; [0]]) 0
  = Raised ValueError.
Proof.
  apply repeat_finder_past_diary; [discriminate|reflexivity|simpl; lia].
Defined.

(** ** Booking an entry that does not exist *)

Lemma iat_update_no_entry f (m : matrix) t c :
  no_entry m t c -> iat_update f m t c = Raised IndexError.
Proof.
  unfold no_entry, iat_update, iat. intros H.
  destruct (norm_index (length m) t) as [i|]; [|done].
  by rewrite (H i eq_refl).
Qed.

Lemma iat_update_has_entry f (m : matrix) t c :
  has_entry m t c -> exists m', iat_update f m t c = Ok m'.
Proof.
  unfold has_entry, iat_update, iat, iat_set.
  intros (i & v & Hi & Hv). rewrite Hi, Hv. simpl.
  unfold cell in Hv. destruct (m !! i) as [row|] eqn:Hrow; [|done].
  apply lookup_lt_Some in Hv. rewrite decide_True by done. eauto.
Qed.

Lemma book_slot_low_no_entry t c d :
  no_entry (available_slots d) t c ->
  book_slot_low t c d = (d, Raised IndexError).
Proof.
  intros H. unfold book_slot_low, mbind, prog_bind, in_place, decrement_int64.
  by rewrite iat_update_no_entry.
Qed.

Lemma book_slot_high_no_entry t c d :
  no_entry (carve_out_slots d) t c ->
  book_slot_high t c d = (d, Raised IndexError).
Proof.
  intros H. unfold book_slot_high, mbind, prog_bind, iat.
  unfold no_entry in H.
  destruct (norm_index (length (carve_out_slots d)) t) as [i|]; [|done].
  by rewrite (H i eq_refl).
Qed.

Lemma book_slot_low_has_entry t c d :
  has_entry (available_slots d) t c -> has_entry (bookings d) t c ->
  exists d', book_slot_low t c d = (d', Ok tt).
Proof.
  intros Ha Hb.
  destruct (iat_update_has_entry (fun v => wrap_int64 (v - 1)) _ _ _ Ha)
    as [a' Ha'].
  destruct (iat_update_has_entry (fun v => wrap_uint8 (v + 1)) _ _ _ Hb)
    as [b' Hb'].
  unfold book_slot_low, mbind, prog_bind, in_place, decrement_int64,
    increment_uint8.
  rewrite Ha'. simpl. rewrite Hb'. eauto.
Qed.

Lemma book_slot_high_has_entry t c d :
  has_entry (carve_out_slots d) t c -> has_entry (available_slots d) t c ->
  has_entry (bookings d) t c ->
  exists d', book_slot_high t c d = (d', Ok tt).
Proof.
  intros Hr Ha Hb.
  destruct (iat_update_has_entry (fun v => wrap_uint8 (v - 1)) _ _ _ Hr)
    as [r' Hr'].
  destruct (iat_update_has_entry (fun v => wrap_int64 (v - 1)) _ _ _ Ha)
    as [a' Ha'].
  destruct (iat_update_has_entry (fun v => wrap_uint8 (v + 1)) _ _ _ Hb)
    as [b' Hb'].
  destruct Hr as (i & v & Hi & Hv).
  unfold book_slot_high, mbind, prog_bind, in_place, decrement_int64,
    decrement_uint8, increment_uint8, iat.
  rewrite Hi, Hv. simpl.
  destruct (0 <? v).
  - rewrite Hr'. simpl. rewrite Hb'. eauto.
  - rewrite Ha'. simpl. rewrite Hb'. eauto.
Qed.

(** [book_slot] for an entry that the diary does not have, because the
    day is outside [-days .. days-1] or the clinician is not a column,
    raises [IndexError] before anything is written, for each of the three
    bookers; and it succeeds when the three matrices have the entry. *)
Theorem book_slot_entry_missing :
  (forall b t c d,
     no_entry (carve_out_slots d) t c -> no_entry (available_slots d) t c ->
     book_slot b t c d = (d, Raised IndexError))
  /\ (forall rb t d,
        no_entry (available_slots d) t (clinic_id rb) ->
        repeat_book_slot rb t d = (d, Raised IndexError))
  /\ (forall b t c d,
        has_entry (carve_out_slots d) t c ->
        has_entry (available_slots d) t c ->
        has_entry (bookings d) t c ->
        exists d', book_slot b t c d = (d', Ok tt))
  /\ (forall rb t d,
        has_entry (available_slots d) t (clinic_id rb) ->
        has_entry (bookings d) t (clinic_id rb) ->
        exists d', repeat_book_slot rb t d = (d', Ok tt)).
Proof.
  split; [|split; [|split]].
  - intros b t c d Hr Ha. unfold book_slot.
    destruct (kind b);
      auto using book_slot_low_no_entry, book_slot_high_no_entry.
  - intros rb t d Ha. by apply book_slot_low_no_entry.
  - intros b t c d Hr Ha Hb. unfold book_slot.
    destruct (kind b);
      auto using book_slot_low_has_entry, book_slot_high_has_entry.
  - intros rb t d Ha Hb. by apply book_slot_low_has_entry.
Qed.

(** ** The diary of a new scenario *)

Lemma lookup_concat_replicate {A : Type} (tmpl : list A) n i :
  (i < n * length tmpl)%nat ->
  concat (replicate n tmpl) !! i = tmpl !! (i mod length tmpl)%nat.
Proof.
  revert i. induction n as [|n IH]; intros i Hi; simpl in *; [lia|].
  destruct (decide (i < length tmpl)%nat) as [Hlt|Hge].
  - rewrite lookup_app_l by done. by rewrite Nat.mod_small.
  - rewrite lookup_app_r by lia. rewrite IH by lia. f_equal.
    replace i with ((i - length tmpl) + 1 * length tmpl)%nat at 2 by lia.
    by rewrite Nat.Div0.mod_add.
Qed.

Lemma cell_concat_copies_mod (tmpl : matrix) n i j v :
  cell (concat_copies tmpl tmpl n) i j = Some v ->
  cell tmpl (i mod length tmpl)%nat j = Some v.
Proof.
  rewrite concat_copies_replicate.
  change (tmpl ++ concat (replicate n tmpl))
    with (concat (replicate (S n) tmpl)).
  intros H. pose proof (cell_lt _ _ _ _ H) as Hlt.
  rewrite length_concat_replicate in Hlt.
  unfold cell in *. by rewrite lookup_concat_replicate in H.
Qed.

(** The diary of a new scenario repeats the weekly template: on every day
    [i] and for every clinician, the carved-out slots are the rounded share
    of the template entry of day [i mod 5] as an unsigned 8-bit value, and
    carved-out and open slots together are that template entry, for
    template entries within the range of 64-bit integers. *)
Theorem diary_repeats_template f rl (w : matrix) i j p a :
  (forall row x, row ∈ w -> x ∈ row -> - 2 ^ 63 + 255 <= x < 2 ^ 63) ->
  cell (carve_out_slots (create_diary f rl w)) i j = Some p ->
  cell (available_slots (create_diary f rl w)) i j = Some a ->
  exists x,
    cell w (i mod length w)%nat j = Some x
    /\ p = wrap_uint8 (f x)
    /\ 0 <= p < 256
    /\ p + a = x.
Proof.
  intros Hrange Hp Ha. simpl in Hp, Ha.
  unfold create_carve_out in Hp. unfold create_slots in Ha.
  apply cell_concat_copies_mod in Hp. apply cell_concat_copies_mod in Ha.
  rewrite length_priority_template in Hp.
  rewrite length_open_template in Ha.
  unfold cell, priority_template in Hp. rewrite list_lookup_fmap in Hp.
  unfold cell, open_template, priority_template in Ha.
  destruct (w !! (i mod length w)%nat) as [wrow|] eqn:Hw; [|done].
  simpl in Hp. rewrite list_lookup_fmap in Hp.
  destruct (wrow !! j) as [x|] eqn:Hx; [|done]. simpl in Hp.
  rewrite lookup_zip_with, list_lookup_fmap, Hw in Ha. simpl in Ha.
  rewrite lookup_zip_with, list_lookup_fmap, Hx in Ha. simpl in Ha.
  simplify_eq. exists x.
  pose proof (wrap_uint8_range (f x)) as Hu.
  split; [unfold cell; by rewrite Hw|]. split; [done|]. split; [done|].
  rewrite wrap_int64_small; [lia|].
  assert (- 2 ^ 63 + 255 <= x < 2 ^ 63) as Hxr.
  { eapply Hrange; by eapply list_elem_of_lookup_2. }
  lia.
Qed.

Lemma diary_repeats_template_witness :
  exists x,
    cell (two_clinicians 4) 2 1 = Some x
    /\ 2 = wrap_uint8 (round_half_even 1 2 x)
    /\ 0 <= 2 < 256
    /\ 2 + 2 = x.
Proof.
  apply (diary_repeats_template (round_half_even 1 2) 10 (two_clinicians 4)
           7 1 2 2).
  - intros row x Hrow Hx. unfold two_clinicians in Hrow.
    apply elem_of_replicate in Hrow as [-> _].
    repeat (apply elem_of_cons in Hx as [->|Hx]; [lia|]).
    by apply elem_of_nil in Hx.
  - reflexivity.
  - reflexivity.
Defined.

(** ** A run length that is not positive *)

Lemma horizon_rounds_not_positive rl : rl <= 0 -> horizon_rounds rl = 0%nat.
Proof.
  intros H. unfold horizon_rounds.
  assert (Z.quot (3 * rl) 2 <= 0); [|lia].
  apply Z.quot_le_upper_bound; lia.
Qed.

(** With a run length that is zero or negative the loops of the three
    constructors do not run, so the diary is the weekly template entered
    once, and [run] raises the [ValueError] of [env.run(until)] before any
    event is processed: the event log stays empty. *)
Theorem run_length_not_positive f rl wu (w pool : matrix) caseload ds g
    fuel :
  rl <= 0 ->
  let a := new_scenario f rl wu w pool caseload ds in
  carve_out_slots (diary a) = priority_template f w
  /\ available_slots (diary a) = open_template f w
  /\ bookings (diary a) = replicate 5 (replicate (n_columns w) 0)
  /\ run a g fuel = (new_model a g, Crashed ValueError)
  /\ event_log (run a g fuel).1 = [].
Proof.
  intros Hrl a. subst a. simpl.
  unfold create_carve_out, create_slots, create_bookings.
  rewrite horizon_rounds_not_positive by done. simpl.
  assert (run (new_scenario f rl wu w pool caseload ds) g fuel
          = (new_model (new_scenario f rl wu w pool caseload ds) g,
             Crashed ValueError)) as Hrun.
  { unfold run, start_run. simpl.
    destruct (rl <=? 0) eqn:E; [done|lia]. }
  rewrite Hrun. done.
Qed.

Lemma run_length_not_positive_witness :
  run (new_scenario (round_half_even 1 2) 0 0 (two_clinicians 4)
         [[1; 1]; [1; 1]] [0%Q; 0%Q] small_dists) (constant 0) 10
  = (new_model
       (new_scenario (round_half_even 1 2) 0 0 (two_clinicians 4)
          [[1; 1]; [1; 1]] [0%Q; 0%Q] small_dists) (constant 0),
     Crashed ValueError).
Proof.
  exact (proj1 (proj2 (proj2 (proj2
           (run_length_not_positive (round_half_even 1 2) 0 0
              (two_clinicians 4) [[1; 1]; [1; 1]] [0%Q; 0%Q] small_dists
              (constant 0) 10 ltac:(lia)))))).
Defined.

(** ** The results of a run *)

Lemma results_by_priority (l : list PatientReferral) :
  omap waiting_time (List.filter (fun p => priority (booker p) =? 1) l)
  ++ omap waiting_time (List.filter (fun p => priority (booker p) =? 2) l)
  ≡ₚ omap waiting_time l.
Proof.
  induction l as [|p l IH]; simpl; [done|].
  destruct (kind (booker p)) eqn:Hk.
  - assert ((priority (booker p) =? 1) = true) as ->
      by (unfold priority; by rewrite Hk).
    assert ((priority (booker p) =? 2) = false) as ->
      by (unfold priority; by rewrite Hk).
    simpl in *. destruct (waiting_time p) as [x|]; [|done].
    by apply Permutation_skip.
  - assert ((priority (booker p) =? 1) = false) as ->
      by (unfold priority; by rewrite Hk).
    assert ((priority (booker p) =? 2) = true) as ->
      by (unfold priority; by rewrite Hk).
    simpl in *. destruct (waiting_time p) as [x|]; [|done].
    rewrite <- Permutation_middle. by apply Permutation_skip.
Qed.

(** [process_run_results]: the waiting times of the patients of low
    priority and those of the patients of high priority are, together,
    the overall waiting times, each of them counted once. *)
Theorem results_split_by_priority m :
  results_low m ++ results_high m ≡ₚ results_all m
  /\ length (results_all m)
     = (length (results_low m) + length (results_high m))%nat
  /\ forall x, x ∈ results_all m <-> x ∈ results_low m \/ x ∈ results_high m.
Proof.
  pose proof (results_by_priority (retained m)) as H.
  fold (results_low m) (results_high m) (results_all m) in H.
  split; [done|]. split.
  - by rewrite <- H, length_app.
  - intros x. by rewrite <- H, elem_of_app.
Qed.

(** ** What a run never undoes *)

Section Respects.

Context {S : Type} (R : S -> S -> Prop) `{!PreOrder R}.

Lemma respects_ret {A : Type} (a : A) : respects R (mret a : Prog S A).
Proof. intros s. reflexivity. Qed.

Lemma respects_bind {A B : Type} (c : Prog S A) (k : A -> Prog S B) :
  respects R c -> (forall a, respects R (k a)) -> respects R (c ≫= k).
Proof.
  intros Hc Hk s. unfold mbind, prog_bind. specialize (Hc s).
  destruct (c s) as [s' [a|e]]; simpl in *; [|done].
  etrans; [done|apply Hk].
Qed.

Lemma respects_gets {A : Type} (f : S -> A) : respects R (gets f).
Proof. intros s. reflexivity. Qed.

Lemma respects_lift {A : Type} (r : result A) : respects R (lift r : Prog S A).
Proof. intros s. reflexivity. Qed.

Lemma respects_raise {A : Type} e : respects R (raise e : Prog S A).
Proof. intros s. reflexivity. Qed.

Lemma respects_modify (f : S -> S) :
  (forall s, R s (f s)) -> respects R (modify f).
Proof. intros H s. apply H. Qed.

Lemma respects_for_each {A : Type} (l : list A) (body : A -> Prog S unit) :
  (forall x, respects R (body x)) -> respects R (for_each l body).
Proof.
  intros H. induction l as [|x l IH]; simpl.
  - apply respects_ret.
  - apply respects_bind; [apply H|]. intros _. apply IH.
Qed.

End Respects.

(** *** The diary *)

Lemma same_shape_refl (m : matrix) : same_shape m m.
Proof. done. Qed.

Lemma same_shape_trans (m1 m2 m3 : matrix) :
  same_shape m1 m2 -> same_shape m2 m3 -> same_shape m1 m3.
Proof. unfold same_shape. congruence. Qed.

Lemma shrinks_refl (m : matrix) : shrinks m m.
Proof. intros i j v H. exists v. auto. Qed.

Lemma shrinks_trans (m1 m2 m3 : matrix) :
  shrinks m1 m2 -> shrinks m2 m3 -> shrinks m1 m3.
Proof.
  intros H12 H23 i j v Hv.
  destruct (H12 i j v Hv) as (v2 & Hv2 & Hle2).
  destruct (H23 i j v2 Hv2) as (v3 & Hv3 & Hle3).
  exists v3. split; [done|]. lia.
Qed.

#[local] Instance diary_extends_preorder : PreOrder diary_extends.
Proof.
  split.
  - intros d. constructor; auto using same_shape_refl, shrinks_refl.
  - intros d1 d2 d3 [] []. constructor;
      eauto using same_shape_trans, shrinks_trans.
Qed.

Lemma iat_update_shape f (m : matrix) t c m' :
  iat_update f m t c = Ok m' -> same_shape m m'.
Proof.
  unfold iat_update, iat, iat_set. intros H.
  destruct (norm_index (length m) t) as [i|]; simpl in H; [|done].
  destruct (cell m i c) as [v|]; simpl in H; [|done].
  destruct (m !! i) as [row|] eqn:Hrow; [|done].
  case_decide; [|done]. simplify_eq.
  unfold same_shape. rewrite list_fmap_insert, length_insert.
  apply list_insert_id. by rewrite list_lookup_fmap, Hrow.
Qed.

Lemma same_shape_cell (m m' : matrix) i j v' :
  same_shape m m' -> cell m' i j = Some v' -> exists v, cell m i j = Some v.
Proof.
  unfold same_shape, cell. intros Hs Hv.
  destruct (m' !! i) as [row'|] eqn:Hrow'; [|done].
  assert (map length m' !! i = Some (length row')) as Hl
    by (by rewrite list_lookup_fmap, Hrow').
  rewrite Hs, list_lookup_fmap in Hl.
  destruct (m !! i) as [row|]; [|done]. simpl in Hl.
  apply lookup_lt_Some in Hv. apply lookup_lt_is_Some. injection Hl. lia.
Qed.

Lemma book_slot_low_extends t c : respects diary_extends (book_slot_low t c).
Proof.
  intros d. unfold book_slot_low, mbind, prog_bind, in_place.
  destruct (decrement_int64 (available_slots d) t c) as [a'|e] eqn:Ha;
    simpl; [|reflexivity].
  destruct (increment_uint8 (bookings d) t c) as [b'|e] eqn:Hb; simpl.
  - constructor; simpl;
      eauto using same_shape_refl, shrinks_refl, iat_update_shape.
  - constructor; simpl;
      eauto using same_shape_refl, shrinks_refl, iat_update_shape.
Qed.

Lemma decrement_positive_shrinks (m : matrix) t c reserved m' :
  iat m t c = Ok reserved -> 0 < reserved ->
  decrement_uint8 m t c = Ok m' -> shrinks m m'.
Proof.
  intros Hread Hpos Hdec.
  apply iat_update_Ok in Hdec as (i & v & Hi & Hv & _ & Hcells).
  unfold iat in Hread. rewrite Hi, Hv in Hread. simpl in Hread.
  simplify_eq. intros i' j' v' Hv'. rewrite Hcells.
  case_decide as Heq.
  - destruct Heq as [-> ->]. assert (v' = reserved) as -> by congruence.
    exists (wrap_uint8 (reserved - 1)). split; [done|]. right.
    unfold wrap_uint8.
    pose proof (Z.mod_pos_bound (reserved - 1) 256 ltac:(lia)).
    pose proof (Z.mod_le (reserved - 1) 256 ltac:(lia) ltac:(lia)). lia.
  - exists v'. auto.
Qed.

Lemma book_slot_high_extends t c :
  respects diary_extends (book_slot_high t c).
Proof.
  intros d. unfold book_slot_high, mbind, prog_bind, in_place.
  destruct (iat (carve_out_slots d) t c) as [reserved|e] eqn:Hread;
    simpl; [|reflexivity].
  destruct (0 <? reserved) eqn:Hpos.
  - destruct (decrement_uint8 (carve_out_slots d) t c) as [r'|e] eqn:Hr;
      simpl; [|reflexivity].
    assert (shrinks (carve_out_slots d) r') as Hshrinks.
    { eapply decrement_positive_shrinks; [done| |done]. lia. }
    destruct (increment_uint8 (bookings d) t c) as [b'|e] eqn:Hb; simpl.
    + constructor; simpl;
        eauto using same_shape_refl, shrinks_refl, iat_update_shape.
    + constructor; simpl;
        eauto using same_shape_refl, shrinks_refl, iat_update_shape.
  - destruct (decrement_int64 (available_slots d) t c) as [a'|e] eqn:Ha;
      simpl; [|reflexivity].
    destruct (increment_uint8 (bookings d) t c) as [b'|e] eqn:Hb; simpl.
    + constructor; simpl;
        eauto using same_shape_refl, shrinks_refl, iat_update_shape.
    + constructor; simpl;
        eauto using same_shape_refl, shrinks_refl, iat_update_shape.
Qed.

Lemma book_slot_extends b t c : respects diary_extends (book_slot b t c).
Proof.
  unfold book_slot.
  destruct (kind b); auto using book_slot_low_extends, book_slot_high_extends.
Qed.

Lemma repeat_book_slot_extends rb t :
  respects diary_extends (repeat_book_slot rb t).
Proof. apply book_slot_low_extends. Qed.

(** *** The model *)

Lemma same_patient_refl p : same_patient p p.
Proof. done. Qed.

Lemma same_patient_trans p1 p2 p3 :
  same_patient p1 p2 -> same_patient p2 p3 -> same_patient p1 p3.
Proof. unfold same_patient. intros (? & ? & ? & ?) (? & ? & ? & ?).
  repeat split; congruence. Qed.

#[local] Instance extends_preorder : PreOrder extends.
Proof.
  split.
  - intros m. constructor; try reflexivity.
    intros pid p Hp. exists p. split; [done|apply same_patient_refl].
  - intros m1 m2 m3 [] []. constructor; try (etrans; done); try congruence.
    intros pid p Hp.
    destruct (ext_patients0 pid p Hp) as (p2 & Hp2 & Hs2).
    destruct (ext_patients1 pid p2 Hp2) as (p3 & Hp3 & Hs3).
    exists p3. split; [done|]. by eapply same_patient_trans.
Qed.

Ltac ext_same :=
  constructor; simpl; try reflexivity; eauto using same_patient_refl.

Lemma respects_draw {A : Type} (get : Distributions -> Dist A) set :
  respects extends (draw get set).
Proof. intros m. unfold draw. simpl. ext_same. Qed.

Lemma respects_draw_referred_out clinic_id :
  respects extends (draw_referred_out clinic_id).
Proof.
  intros m. unfold draw_referred_out.
  destruct (clinics (dists (args m)) !! clinic_id); simpl; [|reflexivity].
  ext_same.
Qed.

Lemma respects_append_event e : respects extends (append_event e).
Proof.
  intros m. unfold append_event, modify. simpl. ext_same.
  by apply prefix_app_r.
Qed.

Lemma respects_self_obj self : respects extends (self_obj self).
Proof. intros m. reflexivity. Qed.

Lemma extends_alter self f m :
  (forall p, same_patient p (f p)) ->
  extends m (set_patients (alter f self (patients m)) m).
Proof.
  intros Hf. ext_same. intros pid p Hp.
  destruct (decide (pid = self)) as [->|Hne].
  - exists (f p). split; [|apply Hf].
    rewrite list_lookup_alter, decide_True by done. by rewrite Hp.
  - exists p. split; [|apply same_patient_refl].
    rewrite list_lookup_alter, decide_False by done. done.
Qed.

Lemma respects_update_self self f :
  (forall p, same_patient p (f p)) -> respects extends (update_self self f).
Proof. intros Hf m. by apply extends_alter. Qed.

Lemma respects_on_diary {A : Type} (p : Prog Diary A) :
  respects diary_extends p -> respects extends (on_diary p).
Proof.
  intros Hp m. unfold on_diary. specialize (Hp (diary (args m))).
  destruct (p (diary (args m))) as [d' r]. simpl in *. ext_same.
Qed.

Lemma respects_find_slot_in_model b t c limit :
  respects extends (find_slot_in_model b t c limit).
Proof.
  intros m. unfold find_slot_in_model.
  destruct (find_slot _ _ _ _ _ _ _) as [[[best_t c'] g']|e]; simpl;
    [|reflexivity].
  ext_same.
Qed.

Lemma respects_caseload_add k v : respects extends (caseload_add k v).
Proof.
  intros m. unfold caseload_add.
  destruct (existing_caseload (args m) !! k); simpl; [|reflexivity].
  ext_same. by rewrite length_insert.
Qed.

Lemma extends_schedule tg prio delay m :
  extends m (set_env (schedule tg prio delay (env m)) m).
Proof. ext_same. Qed.

Lemma respects_timeout tg delay : respects extends (timeout tg delay).
Proof.
  intros m. unfold timeout. destruct (delay <? 0); simpl; [reflexivity|].
  apply extends_schedule.
Qed.

Lemma respects_new_process p : respects extends (new_process p).
Proof.
  intros m. unfold new_process. simpl. ext_same.
  intros pid p' Hp'. exists p'. split; [|apply same_patient_refl].
  by apply lookup_app_l_Some.
Qed.

Lemma respects_retain pid :
  respects extends (modify (fun m => set_referrals (referrals m ++ [pid]) m)).
Proof. intros m. unfold modify. simpl. ext_same. by apply prefix_app_r. Qed.

Lemma respects_set_arrivals_t t :
  respects extends (modify (set_arrivals_t t)).
Proof. intros m. unfold modify. simpl. ext_same. Qed.

Create HintDb respects.

#[local] Hint Resolve respects_draw respects_draw_referred_out
  respects_append_event respects_self_obj respects_find_slot_in_model
  respects_caseload_add respects_timeout respects_new_process
  respects_retain respects_set_arrivals_t respects_update_self
  respects_on_diary book_slot_extends repeat_book_slot_extends : respects.

#[local] Hint Extern 1 (same_patient _ _) =>
  (repeat split; reflexivity) : respects.

Ltac respects_step :=
  lazymatch goal with
  | |- respects ?R (mbind _ _) => apply (respects_bind R); [|intros ?]
  | |- respects ?R (mret _) => apply (respects_ret R)
  | |- respects ?R (gets _) => apply (respects_gets R)
  | |- respects ?R (lift _) => apply (respects_lift R)
  | |- respects ?R (raise _) => apply (respects_raise R)
  | |- respects _ (match ?x with _ => _ end) => destruct x
  | |- respects _ _ => solve [auto with respects]
  end.

Lemma respects_yield_timeout self delay pt :
  respects extends (yield_timeout self delay pt).
Proof. unfold yield_timeout. repeat respects_step. Qed.

#[local] Hint Resolve respects_yield_timeout : respects.

Lemma respects_discharge self : respects extends (discharge self).
Proof. unfold discharge. repeat respects_step. Qed.

#[local] Hint Resolve respects_discharge : respects.

Lemma respects_follow_up_iteration self i num_appts rb :
  respects extends (follow_up_iteration self i num_appts rb).
Proof. unfold follow_up_iteration. repeat respects_step. Qed.

Lemma respects_book_and_wait self best_t :
  respects extends (book_and_wait self best_t).
Proof. unfold book_and_wait. repeat respects_step. Qed.

#[local] Hint Resolve respects_follow_up_iteration respects_book_and_wait
  : respects.

Lemma respects_draw_by_priority p gl gh sl sh :
  respects extends (draw_by_priority p gl gh sl sh).
Proof. unfold draw_by_priority. repeat respects_step. Qed.

#[local] Hint Resolve respects_draw_by_priority : respects.

Lemma respects_execute self : respects extends (execute self).
Proof.
  unfold execute. respects_step; [respects_step|]. respects_step.
  - unfold execute_at_start. repeat respects_step.
  - unfold execute_after_leapfrog_delay. repeat respects_step.
  - unfold execute_awaiting_headroom. repeat respects_step.
  - unfold execute_awaiting_assessment. repeat respects_step.
  - unfold execute_awaiting_follow_up. repeat respects_step.
  - respects_step.
Qed.

Lemma respects_referral t i : respects extends (referral t i).
Proof. unfold referral. repeat respects_step. Qed.

Lemma respects_generate_arrivals : respects extends generate_arrivals.
Proof.
  unfold generate_arrivals. respects_step; [respects_step|].
  respects_step; [respects_step|]. respects_step.
  - apply (respects_for_each extends). intros i. apply respects_referral.
  - repeat respects_step.
Qed.

Lemma resume_patient_extends self m : extends m (resume_patient self m).
Proof.
  unfold resume_patient. pose proof (respects_execute self m) as H.
  destruct (execute self m) as [m' [[|]|e]]; simpl in H.
  - done.
  - etrans; [done|]. apply extends_schedule.
  - etrans; [done|]. unfold fail_process.
    etrans; [|apply extends_schedule].
    apply extends_alter. intros p. by repeat split.
Qed.

Lemma resume_arrivals_extends m : extends m (resume_arrivals m).
Proof.
  unfold resume_arrivals. pose proof (respects_generate_arrivals m) as H.
  destruct (generate_arrivals m) as [m' [[]|e]]; simpl in H; [done|].
  etrans; [done|]. apply extends_schedule.
Qed.

(** One event of the loop, from a state in which no queued event lies in
    the past. *)
Lemma step_extends d0 m m' st :
  Inv d0 None m -> step m = (m', st) -> extends m m'.
Proof.
  intros HI Hstep. unfold step in Hstep.
  destruct (heappop (heap (env m))) as [[it rest]|] eqn:Hpop;
    [|simplify_eq; reflexivity].
  destruct (Inv_pop d0 m it rest HI Hpop) as (_ & Hnow & _).
  assert (extends m
            (set_env (mkEnvironment (at_time it) (next_eid (env m)) rest) m))
    as H1 by ext_same.
  destruct (target it); simplify_eq; try done.
  - etrans; [done|]. apply resume_arrivals_extends.
  - etrans; [done|]. apply resume_patient_extends.
Qed.

Lemma reaches_extends d0 m m' st :
  Inv d0 None m -> reaches m m' st -> extends m m'.
Proof.
  intros HI Hreach. induction Hreach as [|m1 m2 st Hreach IH Hstep].
  - reflexivity.
  - etrans; [done|]. eapply step_extends; [|done].
    by eapply reaches_Inv.
Qed.

Lemma in_run_extends f rl wu (w pool : matrix) caseload ds g m :
  in_run (new_scenario f rl wu w pool caseload ds) g m ->
  exists m0,
    args m0 = new_scenario f rl wu w pool caseload ds /\ extends m0 m.
Proof.
  intros (m0 & st & Hstart & Hreach). exists m0. split.
  - unfold start_run in Hstart. case_match; [done|]. by simplify_eq.
  - eapply reaches_extends; [|done]. by eapply Inv_start.
Qed.

(** From a state of a run to any state the run reaches later: the clock,
    which is never negative, does not go back, and the event log, the list
    of the retained patients and the store of the patient objects are only
    added to at their ends. *)
Theorem run_only_appends f rl wu (w pool : matrix) caseload ds g m m' st :
  in_run (new_scenario f rl wu w pool caseload ds) g m ->
  reaches m m' st ->
  0 <= now (env m) <= now (env m')
  /\ event_log m `prefix_of` event_log m'
  /\ referrals m `prefix_of` referrals m'
  /\ (length (patients m) <= length (patients m'))%nat.
Proof.
  intros Hrun Hreach. apply in_run_Inv in Hrun as HI.
  pose proof (reaches_extends _ _ _ _ HI Hreach) as [].
  pose proof (inv_now _ _ _ HI).
  repeat split; try done.
  destruct (decide (length (patients m) = 0)%nat) as [|Hne]; [lia|].
  destruct (lookup_lt_is_Some_2 (patients m) (length (patients m) - 1))
    as [p Hp]; [lia|].
  destruct (ext_patients0 _ _ Hp) as (p' & Hp' & _).
  apply lookup_lt_Some in Hp'. lia.
Qed.

Lemma run_only_appends_witness :
  let m := (run small_scenario (constant 0) 5).1 in
  let m' := (run_steps 10 m).1 in
  event_log m `prefix_of` event_log m'.
Proof.
  intros m m'.
  assert (in_run small_scenario (constant 0) m) as Hrun.
  { eapply run_in_run. reflexivity. }
  assert (reaches m m' (run_steps 10 m).2) as Hreach.
  { apply run_steps_reaches. constructor. }
  exact (proj1 (proj2 (run_only_appends _ _ _ _ _ _ _ _ _ _ _ Hrun Hreach))).
Defined.

(** A patient object keeps its place in the store, its identifier, its
    day of referral, its home clinic and its priority from the state of a
    run in which it exists to every state the run reaches later. *)
Theorem patients_keep_identity f rl wu (w pool : matrix) caseload ds g m m'
    st pid p :
  in_run (new_scenario f rl wu w pool caseload ds) g m ->
  reaches m m' st ->
  patients m !! pid = Some p ->
  exists p',
    patients m' !! pid = Some p'
    /\ identifier p' = identifier p
    /\ referral_t p' = referral_t p
    /\ home_clinic p' = home_clinic p
    /\ priority (booker p') = priority (booker p).
Proof.
  intros Hrun Hreach Hp. apply in_run_Inv in Hrun as HI.
  pose proof (reaches_extends _ _ _ _ HI Hreach) as [].
  destruct (ext_patients0 _ _ Hp) as (p' & Hp' & Hid & Ht & Hh & Hk).
  exists p'. repeat split; try done. unfold priority. by rewrite Hk.
Qed.

Lemma patients_keep_identity_witness :
  let m := (run small_scenario (constant 0) 5).1 in
  let m' := (run_steps 10 m).1 in
  exists p', patients m' !! 1%nat = Some p' /\ identifier p' = (0, 1%nat).
Proof.
  intros m m'.
  assert (in_run small_scenario (constant 0) m) as Hrun.
  { eapply run_in_run. reflexivity. }
  assert (reaches m m' (run_steps 10 m).2) as Hreach.
  { apply run_steps_reaches. constructor. }
  destruct (patients m !! 1%nat) as [p|] eqn:Hp;
    [|vm_compute in Hp; discriminate Hp].
  destruct (patients_keep_identity _ _ _ _ _ _ _ _ _ _ _ _ _
              Hrun Hreach Hp) as (p' & Hp' & Hid & _).
  exists p'. split; [exact Hp'|].
  rewrite Hid. vm_compute in Hp. injection Hp as <-. reflexivity.
Defined.

(** In every state of a run the scenario has the run length, the warm-up
    period, the weekly slots and the pooling table it was built with, the
    caseload row has the length it had, and the three matrices of the diary
    have the days and the clinicians they were built with. *)
Theorem scenario_fixed_in_run f rl wu (w pool : matrix) caseload ds g m :
  in_run (new_scenario f rl wu w pool caseload ds) g m ->
  run_length (args m) = rl
  /\ warm_up_period (args m) = wu
  /\ weekly_slots (args m) = w
  /\ pooling_np (args m) = pool
  /\ length (existing_caseload (args m)) = length caseload
  /\ same_shape (create_carve_out f rl w) (carve_out_slots (diary (args m)))
  /\ same_shape (create_slots f rl w) (available_slots (diary (args m)))
  /\ same_shape (create_bookings rl (n_columns w))
       (bookings (diary (args m))).
Proof.
  intros Hrun. apply in_run_extends in Hrun as (m0 & Hargs & []).
  rewrite Hargs in *. simpl in *. destruct ext_diary0. simpl in *.
  repeat split; done.
Qed.

Lemma scenario_fixed_in_run_witness :
  let m := (run small_scenario (constant 0) 12).1 in
  run_length (args m) = 20 /\ warm_up_period (args m) = 0.
Proof.
  intros m.
  assert (in_run small_scenario (constant 0) m) as Hrun.
  { eapply run_in_run. reflexivity. }
  destruct (scenario_fixed_in_run _ _ _ _ _ _ _ _ _ Hrun) as (H1 & H2 & _).
  split; [exact H1|exact H2].
Defined.

(** In every state of a run every entry of [carve_out] lies between 0 and
    the value it was built with, which is below 256: a carved-out slot is
    never given back and the unsigned count never wraps around. *)
Theorem carve_out_within_bounds f rl wu (w pool : matrix) caseload ds g m
    i j v :
  in_run (new_scenario f rl wu w pool caseload ds) g m ->
  cell (carve_out_slots (diary (args m))) i j = Some v ->
  exists v0,
    cell (create_carve_out f rl w) i j = Some v0
    /\ 0 <= v <= v0
    /\ v0 < 256.
Proof.
  intros Hrun Hv. apply in_run_extends in Hrun as (m0 & Hargs & []).
  rewrite Hargs in *. simpl in *. destruct ext_diary0. simpl in *.
  destruct (same_shape_cell _ _ _ _ _ dext_carve_out_shape0 Hv) as [v0 Hv0].
  exists v0. split; [done|].
  pose proof (create_carve_out_uint8 _ _ _ _ _ _ Hv0).
  destruct (dext_carve_out0 _ _ _ Hv0) as (v' & Hv' & Hle).
  assert (v' = v) as -> by congruence. lia.
Qed.

Lemma carve_out_within_bounds_witness :
  let m := (run small_scenario (constant 0) 12).1 in
  exists v0,
    cell (create_carve_out (round_half_even 1 2) 20 (replicate 5 [2; 2])) 1 0
    = Some v0
    /\ 0 <= 0 <= v0 /\ v0 < 256.
Proof.
  intros m.
  assert (in_run small_scenario (constant 0) m) as Hrun.
  { eapply run_in_run. reflexivity. }
  apply (carve_out_within_bounds _ _ _ _ _ _ _ _ _ _ _ _ Hrun).
  vm_compute. reflexivity.
Defined.

(** ** One referral *)

(** A referral that the clinic refers out: the clinic is sampled, then the
    triage of that clinic, and when it says [1] the only trace is three
    events of the pathway "Unsuitable for service", an arrival and a
    [referred_out] at the current time and a departure one day later.  No
    patient object and no process are created, the priority is not
    sampled, and the diary, the caseload and the retained patients stay as
    they are. *)
Theorem referral_referred_out t i m c rd :
  samples (clinic_dist (dists (args m)))
    (drawn (clinic_dist (dists (args m)))) = c ->
  clinics (dists (args m)) !! c = Some rd ->
  samples rd (drawn rd) = true ->
  exists m',
    referral t i m = (m', Ok tt)
    /\ event_log m'
       = event_log m
         ++ [triage_event (t, i) arrival_departure arrival c (now (env m));
             triage_event (t, i) queue referred_out c (now (env m));
             triage_event (t, i) arrival_departure depart c
               (now (env m) + 1)]
    /\ patients m' = patients m
    /\ referrals m' = referrals m
    /\ env m' = env m
    /\ diary (args m') = diary (args m)
    /\ existing_caseload (args m') = existing_caseload (args m)
    /\ priority_dist (dists (args m')) = priority_dist (dists (args m)).
Proof.
  intros Hc Hrd Hout.
  unfold referral, mbind, prog_bind, draw, draw_referred_out, sample.
  simpl. rewrite Hc, Hrd. simpl. rewrite Hout. simpl.
  eexists. split; [reflexivity|]. simpl.
  repeat split. by rewrite <- !app_assoc.
Qed.

(** A referral that the clinic accepts: a patient object is made for the
    day [t] with the identifier [t_i], the sampled clinic as home and as
    booked clinic, and the booker of the sampled priority; its process is
    queued as urgent at the current time; it is added to the retained
    patients when the current time is after the warm-up period.  Nothing
    is logged and nothing is booked until the process starts. *)
Theorem referral_accepted t i m c rd :
  samples (clinic_dist (dists (args m)))
    (drawn (clinic_dist (dists (args m)))) = c ->
  clinics (dists (args m)) !! c = Some rd ->
  samples rd (drawn rd) = false ->
  let high_priority :=
    samples (priority_dist (dists (args m)))
      (drawn (priority_dist (dists (args m)))) in
  let b := new_booker (if high_priority then HighPriorityPooledBooker
                       else LowPriorityPooledBooker) in
  exists m',
    referral t i m = (m', Ok tt)
    /\ patients m' = patients m ++ [new_patient t c b (t, i)]
    /\ heap (env m')
       = mkQItem (now (env m)) URGENT (next_eid (env m))
           (ResumePatient (length (patients m))) :: heap (env m)
    /\ now (env m') = now (env m)
    /\ referrals m'
       = (if warm_up_period (args m) <? now (env m)
          then referrals m ++ [length (patients m)] else referrals m)
    /\ event_log m' = event_log m
    /\ diary (args m') = diary (args m)
    /\ existing_caseload (args m') = existing_caseload (args m).
Proof.
  intros Hc Hrd Hin high_priority b. subst b high_priority.
  unfold referral, mbind, prog_bind, draw, draw_referred_out, sample,
    new_process, gets, modify.
  simpl. rewrite Hc, Hrd. simpl. rewrite Hin. simpl.
  destruct (priority_dist (dists (args m))) as [ps pn]. simpl.
  destruct (ps pn); simpl.
  - destruct (warm_up_period (args m) <? now (env m)); simpl;
      eexists; (split; [reflexivity|]); simpl; repeat split;
      by rewrite Z.add_0_r.
  - destruct (warm_up_period (args m) <? now (env m)); simpl;
      eexists; (split; [reflexivity|]); simpl; repeat split;
      by rewrite Z.add_0_r.
Qed.

Lemma referral_referred_out_witness :
  let m := new_model
             (set_dists
                (set_clinics [constant true; constant true] small_dists)
                small_scenario) (constant 0) in
  exists m', referral 0 0 m = (m', Ok tt) /\ length (event_log m') = 3%nat.
Proof.
  intros m.
  destruct (referral_referred_out 0 0 m 0%nat (constant true)
              eq_refl eq_refl eq_refl) as (m' & H & Hlog & _).
  exists m'. split; [exact H|]. rewrite Hlog. reflexivity.
Defined.

Lemma referral_accepted_witness :
  let m := new_model small_scenario (constant 0) in
  exists m',
    referral 0 0 m = (m', Ok tt)
    /\ patients m'
       = [new_patient 0 0 (new_booker HighPriorityPooledBooker) (0, 0%nat)].
Proof.
  intros m.
  destruct (referral_accepted 0 0 m 0%nat (constant false)
              eq_refl eq_refl eq_refl) as (m' & H & Hp & _).
  exists m'. split; [exact H|exact Hp].
Defined.

(** ** Admission control *)

(** A patient of priority 1 for whom [check_for_availability] counts no
    clinician with headroom, whether after the first day or after a day of
    waiting, looks for no slot and books nothing: the scenario with its
    diary and caseload, the event log and the [random] generator stay as
    they are, the [min_wait] of the booker is what it was, and the patient
    is queued to check again one day later. *)
Theorem no_headroom_no_booking self m p ac :
  patients m !! self = Some p ->
  check_for_availability (args m) = Ok (0%nat, ac) ->
  (exists m',
     execute_after_leapfrog_delay self m = (m', Ok Yield)
     /\ waits_for_headroom self p m m')
  /\ (exists m',
        execute_awaiting_headroom self m = (m', Ok Yield)
        /\ waits_for_headroom self p m m').
Proof.
  intros Hp Hcheck. split.
  - unfold execute_after_leapfrog_delay, yield_timeout, timeout, update_self,
      mbind, prog_bind, gets, modify, lift, mret, prog_ret.
    simpl. rewrite Hcheck. simpl.
    eexists. split; [reflexivity|]. unfold waits_for_headroom. simpl.
    repeat split.
    rewrite !list_lookup_alter_eq, Hp. simpl. eexists. split; [reflexivity|].
    simpl. repeat split. lia.
  - unfold execute_awaiting_headroom, yield_timeout, timeout, update_self,
      mbind, prog_bind, gets, modify, lift, mret, prog_ret.
    simpl. rewrite Hcheck. simpl.
    eexists. split; [reflexivity|]. unfold waits_for_headroom. simpl.
    repeat split.
    rewrite !list_lookup_alter_eq, Hp. simpl. eexists. split; [reflexivity|].
    simpl. repeat split.
Qed.

Lemma no_headroom_no_booking_witness :
  let m := set_patients
             [new_patient 0 0 (new_booker LowPriorityPooledBooker)
                (0, 0%nat)]
             (new_model (set_existing_caseload [9%Q; 9%Q] small_scenario)
                (constant 0)) in
  exists m',
    execute_after_leapfrog_delay 0 m = (m', Ok Yield)
    /\ event_log m' = event_log m.
Proof.
  intros m.
  destruct (no_headroom_no_booking 0 m
              (new_patient 0 0 (new_booker LowPriorityPooledBooker)
                 (0, 0%nat))
              [0%Q; 0%Q] eq_refl ltac:(vm_compute; reflexivity))
    as [(m' & H & _ & Hlog & _) _].
  exists m'. split; [exact H|exact Hlog].
Defined.




(** ** Booking with a negative day *)

Lemma iat_Ok (m : matrix) t c v :
  iat m t c = Ok v ->
  exists i, norm_index (length m) t = Some i /\ cell m i c = Some v.
Proof.
  unfold iat. intros H. apply or_raise_Ok in H.
  destruct (norm_index (length m) t) as [i|]; [|done]. by exists i.
Qed.

Lemma book_slot_low_books_at t c d d' i :
  norm_index (length (available_slots d)) t = Some i ->
  length (bookings d) = length (available_slots d) ->
  book_slot_low t c d = (d', Ok tt) ->
  books_one d d' i c.
Proof.
  intros Hi Hlen H. unfold book_slot_low in H.
  apply prog_bind_Ok in H as (d1 & [] & H1 & H2).
  apply in_place_Ok in H1 as (a' & Ha & ->).
  apply in_place_Ok in H2 as (b' & Hb & ->).
  apply iat_update_Ok in Ha as (ia & a & Hia & Ha & _ & Ha').
  apply iat_update_Ok in Hb as (ib & b & Hib & Hb & _ & Hb').
  simpl in *. rewrite Hlen in Hib.
  assert (ia = i) as -> by congruence.
  assert (ib = i) as -> by congruence.
  split; [|split].
  - exists b. split; [done|]. by eapply cell_updated.
  - left. exists a. repeat split; try done. by eapply cell_updated.
  - intros i' j' Hne. repeat split; try done; by eapply cell_not_updated.
Qed.

Lemma book_slot_high_books_at t c d d' i :
  norm_index (length (available_slots d)) t = Some i ->
  length (carve_out_slots d) = length (available_slots d) ->
  length (bookings d) = length (available_slots d) ->
  book_slot_high t c d = (d', Ok tt) ->
  books_one d d' i c.
Proof.
  intros Hi Hlenr Hlenb H. unfold book_slot_high in H.
  apply prog_bind_Ok in H as (d0 & reserved & H0 & H).
  injection H0 as <- Hres.
  apply iat_Ok in Hres as (ir & Hir & Hres). rewrite Hlenr in Hir.
  assert (ir = i) as -> by congruence.
  apply prog_bind_Ok in H as (d1 & [] & H1 & H2).
  apply in_place_Ok in H2 as (b' & Hb & ->).
  apply iat_update_Ok in Hb as (ib & b & Hib & Hb & _ & Hb').
  destruct (0 <? reserved) eqn:Hpos.
  - apply in_place_Ok in H1 as (r' & Hr & ->).
    apply iat_update_Ok in Hr as (ir & r & Hir' & Hr & _ & Hr').
    simpl in *. rewrite Hlenr in Hir'. rewrite Hlenb in Hib.
    assert (ir = i) as -> by congruence.
    assert (ib = i) as -> by congruence.
    assert (r = reserved) as -> by congruence.
    split; [|split].
    + exists b. split; [done|]. by eapply cell_updated.
    + right. exists reserved. repeat split; try done; [lia|].
      by eapply cell_updated.
    + intros i' j' Hne. repeat split; try done; by eapply cell_not_updated.
  - apply in_place_Ok in H1 as (a' & Ha & ->).
    apply iat_update_Ok in Ha as (ia & a & Hia & Ha & _ & Ha').
    simpl in *. rewrite Hlenb in Hib.
    assert (ia = i) as -> by congruence.
    assert (ib = i) as -> by congruence.
    split; [|split].
    + exists b. split; [done|]. by eapply cell_updated.
    + left. exists a. repeat split; try done. by eapply cell_updated.
    + intros i' j' Hne. repeat split; try done; by eapply cell_not_updated.
Qed.

Lemma book_slot_Ok_index b t c d d' :
  length (carve_out_slots d) = length (available_slots d) ->
  book_slot b t c d = (d', Ok tt) ->
  is_Some (norm_index (length (available_slots d)) t).
Proof.
  intros Hlen H. unfold book_slot in H. destruct (kind b).
  - unfold book_slot_low in H.
    apply prog_bind_Ok in H as (d1 & [] & H1 & _).
    apply in_place_Ok in H1 as (a' & Ha & _).
    apply iat_update_Ok in Ha as (ia & a & Hia & _). eauto.
  - unfold book_slot_high in H.
    apply prog_bind_Ok in H as (d0 & reserved & H0 & _).
    injection H0 as <- Hres.
    apply iat_Ok in Hres as (ir & Hir & _). rewrite Hlen in Hir. eauto.
Qed.

(** [book_slot] of a pooled booker with a negative day, on a diary whose
    three matrices have the same days: a day below minus the number of
    days raises, and a day [t] from there to -1 is counted from the end of
    the diary, as Python counts positions, so that the slot is taken and
    the booking is counted on day [days + t]. *)
Theorem book_slot_negative_day b t c d d' :
  t < 0 ->
  length (carve_out_slots d) = length (available_slots d) ->
  length (bookings d) = length (available_slots d) ->
  book_slot b t c d = (d', Ok tt) ->
  - Z.of_nat (length (available_slots d)) <= t
  /\ books_one d d' (Z.to_nat (Z.of_nat (length (available_slots d)) + t)) c.
Proof.
  intros Ht Hlenr Hlenb H.
  destruct (book_slot_Ok_index _ _ _ _ _ Hlenr H) as [i Hi].
  assert (- Z.of_nat (length (available_slots d)) <= t
          /\ i = Z.to_nat (Z.of_nat (length (available_slots d)) + t))
    as [Hlo ->].
  { unfold norm_index in Hi. repeat case_match; simplify_eq; lia. }
  split; [done|]. unfold book_slot in H. destruct (kind b).
  - by apply (book_slot_low_books_at t).
  - by apply (book_slot_high_books_at t).
Qed.

Lemma book_slot_negative_day_witness :
  let d := mkDiary [[1]; [1]; [1]] [[4]; [5]; [6]] [[0]; [0]; [0]] in
  let d' := (book_slot (new_booker LowPriorityPooledBooker) (-1) 0 d).1 in
  books_one d d' 2 0.
Proof.
  intros d d'.
  exact (proj2 (book_slot_negative_day (new_booker LowPriorityPooledBooker)
                  (-1) 0 d d' ltac:(lia) eq_refl eq_refl
                  ltac:(vm_compute; reflexivity))).
Defined.

(** ** Waiting times *)

Lemma Waits_footprint m m' :
  env m' = env m -> patients m' = patients m ->
  event_log m' = event_log m -> Waits m -> Waits m'.
Proof. intros He Hp Hl []. constructor; rewrite ?He, ?Hp, ?Hl; done. Qed.

Section WaitsWrites.

Context (self : nat).

Lemma Waits_running_footprint m m' :
  env m' = env m -> patients m' = patients m ->
  event_log m' = event_log m -> Waits_running self m -> Waits_running self m'.
Proof.
  intros He Hp Hl [HW Hidle]. split; [by eapply Waits_footprint|].
  by rewrite He.
Qed.

Lemma Waits_running_set_dists m ds :
  Waits_running self m ->
  Waits_running self (set_args (set_dists ds (args m)) m).
Proof. by apply Waits_running_footprint. Qed.

Lemma Waits_running_set_caseload m c :
  Waits_running self m ->
  Waits_running self (set_args (set_existing_caseload c (args m)) m).
Proof. by apply Waits_running_footprint. Qed.

Lemma Waits_running_set_random m g :
  Waits_running self m -> Waits_running self (set_random_module g m).
Proof. by apply Waits_running_footprint. Qed.

Lemma Waits_running_set_diary m d :
  Waits_running self m ->
  Waits_running self (set_args (set_diary d (args m)) m).
Proof. by apply Waits_running_footprint. Qed.

Lemma Waits_append_event m e :
  Waits m ->
  (ev_event e = have_appointment -> ev_type e = Some assessment ->
   wait_ok e) ->
  now (env m) <= ev_time e <= now (env m) + 1 ->
  Waits (set_event_log (event_log m ++ [e]) m).
Proof.
  intros [] He Ht. constructor; simpl; try done.
  - intros x Hx. apply elem_of_app in Hx as [Hx|Hx]; [eauto|].
    apply list_elem_of_singleton in Hx as ->. lia.
  - intros x Hx. apply elem_of_app in Hx as [Hx|Hx]; [eauto|].
    apply list_elem_of_singleton in Hx as ->. done.
Qed.

Lemma Waits_running_append_event m e :
  Waits_running self m ->
  (ev_event e = have_appointment -> ev_type e = Some assessment ->
   wait_ok e) ->
  now (env m) <= ev_time e <= now (env m) + 1 ->
  Waits_running self (set_event_log (event_log m ++ [e]) m).
Proof.
  intros [HW Hidle] He Ht. split; [by apply Waits_append_event|done].
Qed.

(** The running patient writes to its own object. *)
Lemma Waits_running_alter m f :
  Waits_running self m ->
  (forall p, patients m !! self = Some p ->
     (forall w, waiting_time (f p) = Some w ->
        least_wait (kind (booker (f p))) <= w)
     /\ (forall best_t, at_point (f p) = awaiting_assessment best_t ->
           least_wait (kind (booker (f p))) <= best_t - referral_t (f p))) ->
  Waits_running self (set_patients (alter f self (patients m)) m).
Proof.
  intros [[] Hidle] Hf. split; [|done]. constructor; simpl; try done.
  - intros pid p w Hp Hw. rewrite list_lookup_alter in Hp.
    case_decide as Hpid; [|eauto]. subst pid.
    destruct (patients m !! self) as [p0|] eqn:Hp0; [|done].
    simpl in Hp. simplify_eq. by apply (Hf p0).
  - intros pid p best_t Hp Hat. rewrite list_lookup_alter in Hp.
    case_decide as Hpid; [|eauto]. subst pid.
    destruct (patients m !! self) as [p0|] eqn:Hp0; [|done].
    simpl in Hp. simplify_eq. by apply (Hf p0).
  - intros it pid p Hit Htg Hp. rewrite list_lookup_alter in Hp.
    case_decide as Hpid; [|eauto]. subst pid. exfalso. by eapply Hidle.
Qed.

Lemma Waits_running_update_self m f :
  Waits_running self m -> keeps_wait f ->
  Waits_running self (set_patients (alter f self (patients m)) m).
Proof.
  intros HW Hf. apply Waits_running_alter; [done|].
  intros p Hp. destruct (Hf p) as (-> & -> & -> & ->).
  destruct HW as [[] _]. split; eauto.
Qed.

(** The running patient yields a timeout. *)
Lemma Waits_yield m delay pt :
  Waits_running self m ->
  (forall p, patients m !! self = Some p ->
     wake_at (set_at_point pt p) (now (env m) + delay)
     /\ forall best_t, pt = awaiting_assessment best_t ->
          least_wait (kind (booker p)) <= best_t - referral_t p) ->
  Waits
    (set_patients
       (alter (set_at_point pt) self (patients m))
       (set_env (schedule (ResumePatient self) NORMAL delay (env m)) m)).
Proof.
  intros [[] Hidle] Hpt. constructor; simpl; try done.
  - intros pid p w Hp Hw. rewrite list_lookup_alter in Hp.
    case_decide as Hpid; [|eauto]. subst pid.
    destruct (patients m !! self) as [p0|] eqn:Hp0; [|done].
    simpl in Hp. simplify_eq. simpl in *. eauto.
  - intros pid p best_t Hp Hat. rewrite list_lookup_alter in Hp.
    case_decide as Hpid; [|eauto]. subst pid.
    destruct (patients m !! self) as [p0|] eqn:Hp0; [|done].
    simpl in Hp. simplify_eq. simpl in *. by apply (Hpt p0).
  - intros it pid p Hit Htg Hp. rewrite list_lookup_alter in Hp.
    apply elem_of_cons in Hit as [->|Hit].
    + simpl in Htg. simplify_eq. rewrite decide_True in Hp by done.
      destruct (patients m !! pid) as [p0|] eqn:Hp0; [|done].
      simpl in Hp. simplify_eq. by apply (Hpt p0).
    + case_decide as Hpid; [|eauto]. subst pid. exfalso. by eapply Hidle.
Qed.

(** The running patient ends, or fails and is marked as finished. *)
Lemma Waits_settle m :
  Waits_running self m ->
  Waits (set_patients (alter (set_at_point finished) self (patients m)) m).
Proof.
  intros HW. apply (Waits_running_alter m (set_at_point finished)); [done|].
  intros p Hp. destruct HW as [[] _]. split; simpl; [eauto|done].
Qed.

End WaitsWrites.

Lemma Waits_schedule_other m tg prio delay :
  Waits m -> (forall pid, tg <> ResumePatient pid) ->
  Waits (set_env (schedule tg prio delay (env m)) m).
Proof.
  intros [] Htg. constructor; simpl; try done.
  intros it pid p Hit Hpid Hp. apply elem_of_cons in Hit as [->|Hit]; [|eauto].
  simpl in Hpid. by destruct (Htg pid).
Qed.

(** One statement of process code, with the invariant [HW] of the state
    moved over it. *)
Ltac wt_cmd HW c :=
  lazymatch c with
  | gets _ => apply wp_gets
  | mret _ => apply wp_ret
  | draw _ _ =>
      let x := fresh "x" in
      let ds := fresh "ds" in
      apply wp_draw; intros x ds;
      apply (Waits_running_set_dists _ _ ds) in HW
  | caseload_add _ _ =>
      apply wp_caseload_add;
      [let c := fresh "c" in
       intros c; apply (Waits_running_set_caseload _ _ c) in HW
      |exact HW]
  | append_event ?e =>
      apply wp_append_event;
      apply (Waits_running_append_event _ _ e) in HW;
      [|try (intros; discriminate)|try (simpl; lia)]
  | update_self ?s ?f =>
      apply wp_update_self;
      apply (Waits_running_update_self s _ f) in HW; [|try (by intros [])]
  end; cbv beta.

Ltac wt_step HW :=
  lazymatch goal with
  | |- wp (mbind _ ?c) _ _ _ => apply wp_bind; wt_cmd HW c
  | |- wp ?c _ _ _ => wt_cmd HW c
  end.

Section WaitsSteps.

Context (self : nat).

Lemma discharge_Waits m p :
  Waits_running self m -> patients m !! self = Some p ->
  wp (discharge self) (fun _ => Waits) (Waits_running self) m.
Proof.
  intros HW Hp. unfold discharge.
  wp_self Hp. wt_step HW.
  assert (forall m', Waits_running self m' ->
            now (env m') = now (env m) ->
            wp (append_event
                  (patient_event p arrival_departure depart
                     (now (env m) + 1));;
                update_self self (set_at_point finished);;
                mret Return)
              (fun _ => Waits) (Waits_running self) m') as Hrest.
  { clear HW Hp. intros m' HW Hnow. wt_step HW.
    apply wp_bind, wp_update_self, wp_ret.
    by apply Waits_settle. }
  destruct (follow_up_intensity p) as [[|]|].
  - wt_step HW. by apply Hrest.
  - wt_step HW. by apply Hrest.
  - wt_step HW. by apply Hrest.
Qed.

Lemma follow_up_iteration_Waits m p i num_appts rb :
  Waits_running self m -> patients m !! self = Some p ->
  wp (follow_up_iteration self i num_appts rb) (fun _ => Waits)
    (Waits_running self) m.
Proof.
  intros HW Hp. unfold follow_up_iteration.
  destruct (i <? num_appts)%nat; [|by eapply discharge_Waits].
  wp_self Hp. wt_step HW. wt_step HW.
  apply wp_bind, wp_lift; [|by intros].
  intros [best_t c] _.
  apply wp_bind, wp_on_diary.
  - intros d' [] _. apply (Waits_running_set_diary _ _ d') in HW.
    wt_step HW.
    apply wp_yield_timeout; [by intros|]. intros _.
    apply Waits_yield; [done|]. intros p' _. split; [done|]. by intros.
  - intros d' e _. by apply Waits_running_set_diary.
Qed.

Lemma book_and_wait_Waits m p best_t :
  Waits_running self m -> patients m !! self = Some p ->
  least_wait (kind (booker p)) <= best_t - referral_t p ->
  match kind (booker p) with
  | HighPriorityPooledBooker => now (env m) = referral_t p
  | LowPriorityPooledBooker => referral_t p + 1 <= now (env m)
  end ->
  wp (book_and_wait self best_t) (fun _ => Waits) (Waits_running self) m.
Proof.
  intros HW Hp Hwait Hnow. unfold book_and_wait.
  wp_self Hp. wt_step HW.
  apply wp_bind, wp_on_diary.
  - intros d' [] _. apply (Waits_running_set_diary _ _ d') in HW.
    wt_step HW. wt_step HW.
    apply wp_yield_timeout; [by intros|]. intros _.
    apply Waits_yield; [done|]. simpl. rewrite Hp. intros p' [= <-].
    split.
    + unfold wake_at. simpl. destruct (kind (booker p)); lia.
    + intros b [= <-]. done.
  - intros d' e _. by apply Waits_running_set_diary.
Qed.

Lemma execute_at_start_Waits m p :
  Waits_running self m -> patients m !! self = Some p ->
  booker p = new_booker (kind (booker p)) ->
  now (env m) = referral_t p ->
  wp (execute_at_start self) (fun _ => Waits) (Waits_running self) m.
Proof.
  intros HW Hp Hbk Hnow. unfold execute_at_start.
  wp_self Hp. wt_step HW. wt_step HW. wt_step HW.
  destruct (priority (booker p) =? 2) eqn:Hprio.
  - apply priority_2_high in Hprio.
    apply wp_bind, wp_find_slot_in_model; [|exact HW].
    intros day c g' Hfind. apply find_slot_bound in Hfind.
    rewrite Hbk, Hprio in Hfind. simpl in Hfind.
    apply (Waits_running_set_random _ _ g') in HW.
    wt_step HW.
    apply wp_bind, wp_on_diary.
    + intros d' [] _. apply (Waits_running_set_diary _ _ d') in HW.
      wp_self Hp. wt_step HW.
      apply wp_yield_timeout; [by intros|]. intros _.
      apply Waits_yield; [done|].
      simpl. rewrite list_lookup_alter_eq, Hp. intros p' [= <-]. split.
      * unfold wake_at. simpl. rewrite Hprio. lia.
      * intros b [= <-]. simpl. rewrite Hprio. simpl. lia.
    + intros d' e _. by apply Waits_running_set_diary.
  - destruct (priority (booker p) =? 1) eqn:Hprio1; [|exact HW].
    apply wp_yield_timeout; [by intros|]. intros _.
    apply Waits_yield; [done|].
    simpl. rewrite Hp. intros p' [= <-]. split.
    + unfold wake_at. simpl. lia.
    + by intros.
Qed.

Lemma execute_after_leapfrog_delay_Waits m p :
  Waits_running self m -> patients m !! self = Some p ->
  booker p = mkBooker LowPriorityPooledBooker 7 ->
  referral_t p + 1 <= now (env m) ->
  wp (execute_after_leapfrog_delay self) (fun _ => Waits)
    (Waits_running self) m.
Proof.
  intros HW Hp Hbk Hnow. unfold execute_after_leapfrog_delay.
  wt_step HW. wt_step HW.
  apply wp_bind, wp_lift; [|by intros].
  intros [n available_caseload] _.
  destruct (0 <? n)%nat.
  - wp_self Hp.
    apply wp_bind, wp_find_slot_in_model; [|exact HW].
    intros day c g' Hfind. apply find_slot_bound in Hfind.
    rewrite Hbk in Hfind. simpl in Hfind.
    apply (Waits_running_set_random _ _ g') in HW.
    wt_step HW.
    eapply book_and_wait_Waits; [exact HW|..].
    + simpl. by rewrite !list_lookup_alter_eq, Hp.
    + simpl. rewrite Hbk. simpl. lia.
    + simpl. rewrite Hbk. simpl. lia.
  - wt_step HW.
    apply wp_yield_timeout; [by intros|]. intros _.
    apply Waits_yield; [done|].
    simpl. rewrite !list_lookup_alter_eq, Hp. intros p' [= <-]. split.
    + unfold wake_at. simpl. lia.
    + by intros.
Qed.

Lemma execute_awaiting_headroom_Waits m p :
  Waits_running self m -> patients m !! self = Some p ->
  booker p = mkBooker LowPriorityPooledBooker 7 ->
  referral_t p + 1 <= now (env m) ->
  wp (execute_awaiting_headroom self) (fun _ => Waits)
    (Waits_running self) m.
Proof.
  intros HW Hp Hbk Hnow. unfold execute_awaiting_headroom.
  wt_step HW.
  apply wp_bind, wp_lift; [|by intros].
  intros [n available_caseload] _.
  destruct (n =? 0)%nat.
  - apply wp_yield_timeout; [by intros|]. intros _.
    apply Waits_yield; [done|].
    simpl. rewrite Hp. intros p' [= <-]. split.
    + unfold wake_at. simpl. lia.
    + by intros.
  - wp_self Hp. wt_step HW.
    apply wp_bind, wp_find_slot_in_model; [|exact HW].
    intros day c g' Hfind. apply find_slot_bound in Hfind.
    rewrite Hbk in Hfind. simpl in Hfind.
    apply (Waits_running_set_random _ _ g') in HW.
    wt_step HW.
    eapply book_and_wait_Waits; [exact HW|..].
    + simpl. by rewrite !list_lookup_alter_eq, Hp.
    + simpl. rewrite Hbk. simpl. lia.
    + simpl. rewrite Hbk. simpl. lia.
Qed.

Lemma execute_awaiting_follow_up_Waits m p i num_appts interval rb :
  Waits_running self m -> patients m !! self = Some p ->
  wp (execute_awaiting_follow_up self i num_appts interval rb)
    (fun _ => Waits) (Waits_running self) m.
Proof.
  intros HW Hp. unfold execute_awaiting_follow_up.
  wp_self Hp. wt_step HW. wt_step HW.
  by eapply follow_up_iteration_Waits.
Qed.

Lemma execute_awaiting_assessment_Waits m p best_t :
  Waits_running self m -> patients m !! self = Some p ->
  at_point p = awaiting_assessment best_t ->
  (identifier p).1 = referral_t p ->
  wake_at p (now (env m)) ->
  wp (execute_awaiting_assessment self best_t) (fun _ => Waits)
    (Waits_running self) m.
Proof.
  intros HW Hp Hat Hid Hwake. unfold execute_awaiting_assessment.
  pose proof (waits_booked _ (proj1 HW) _ _ _ Hp Hat) as Hwait.
  unfold wake_at in Hwake. rewrite Hat in Hwake.
  apply wp_bind, wp_update_self.
  apply (Waits_running_alter self m
           (fun p0 => set_waiting_time (Some (best_t - referral_t p0)) p0))
    in HW.
  2:{ intros p0 Hp0. rewrite Hp in Hp0. simplify_eq. simpl. split.
      - intros w [= <-]. done.
      - intros b Hb. rewrite Hat in Hb. by simplify_eq. }
  cbv beta. wp_self Hp. wt_step HW.
  apply wp_bind, wp_append_event.
  match goal with
  | |- context [_ ++ [?e]] =>
      apply (Waits_running_append_event _ _ e) in HW
  end.
  2:{ intros _ _. exists (best_t - referral_t p). simpl.
      split; [done|]. rewrite Hid. unfold priority.
      destruct (kind (booker p)); simpl in Hwait; split; intros [=]; lia. }
  2:{ simpl. lia. }
  cbv beta.
  assert (forall m', Waits_running self m' ->
            is_Some (patients m' !! self) ->
            forall num_appts rb,
              wp (follow_up_iteration self 0 num_appts rb)
                (fun _ => Waits) (Waits_running self) m') as Hloop.
  { intros m' HW' [p' Hp'] num_appts rb.
    by eapply follow_up_iteration_Waits. }
  apply wp_bind, wp_draw_by_priority; [|exact HW].
  intros follow_up_y ds. apply (Waits_running_set_dists _ _ ds) in HW.
  destruct follow_up_y.
  - apply wp_bind, wp_draw_by_priority; [|exact HW].
    intros intensity ds'. apply (Waits_running_set_dists _ _ ds') in HW.
    simpl. wt_step HW.
    assert (forall m', Waits_running self m' ->
              is_Some (patients m' !! self) ->
              wp (if intensity
                  then
                    num_appts ← draw num_follow_up_dist_high_intensity
                                  set_num_follow_up_dist_high_intensity;
                    follow_up_iteration self 0 num_appts
                      (new_repeat_booker
                         HIGH_INTENSITY_FOLLOW_UP_TARGET_INTERVAL
                         (booked_clinic p))
                  else
                    num_appts ← draw num_follow_up_dist_low_intensity
                                  set_num_follow_up_dist_low_intensity;
                    follow_up_iteration self 0 num_appts
                      (new_repeat_booker
                         LOW_INTENSITY_FOLLOW_UP_TARGET_INTERVAL
                         (booked_clinic p)))
                (fun _ => Waits) (Waits_running self) m') as Hrest.
    { intros m' HW' Hsome.
      destruct intensity; wt_step HW'; by apply Hloop. }
    assert (is_Some
              (alter (set_follow_up_intensity (Some intensity)) self
                 (alter (fun p0 => set_waiting_time
                           (Some (best_t - referral_t p0)) p0) self
                    (patients m)) !! self)) as Hsome.
    { rewrite !list_lookup_alter_eq, Hp. by eexists. }
    destruct (negb intensity && (priority (booker p) =? 2));
      destruct (intensity && (priority (booker p) =? 1));
      repeat wt_step HW; by apply Hrest.
  - eapply discharge_Waits; [exact HW|].
    simpl. by rewrite !list_lookup_alter_eq, Hp.
Qed.

End WaitsSteps.

Lemma execute_Waits d0 self m :
  Inv d0 (Some (ResumePatient self)) m -> Waits_running self m ->
  (forall p, patients m !! self = Some p ->
     point_ok (event_log m) (now (env m)) p /\ wake_at p (now (env m))) ->
  wp (execute self) (fun _ => Waits) (Waits_running self) m.
Proof.
  intros HI HW Hself. unfold execute.
  apply wp_bind, wp_self_obj.
  destruct (patients m !! self) as [p|] eqn:Hp; [|exact HW].
  destruct (Hself p eq_refl) as [Hpt Hwake].
  destruct (inv_patients _ _ _ HI self p Hp) as (Href & Hid & _).
  unfold point_ok in Hpt.
  destruct (at_point p) eqn:Hat.
  - eapply execute_at_start_Waits; [done..|].
    unfold wake_at in Hwake. by rewrite Hat in Hwake.
  - eapply execute_after_leapfrog_delay_Waits; [done..|].
    unfold wake_at in Hwake. by rewrite Hat in Hwake.
  - eapply execute_awaiting_headroom_Waits; [done..|].
    unfold wake_at in Hwake. by rewrite Hat in Hwake.
  - by eapply execute_awaiting_assessment_Waits.
  - by eapply execute_awaiting_follow_up_Waits.
  - apply wp_ret. apply HW.
Qed.

Lemma resume_patient_Waits d0 self m :
  Inv d0 (Some (ResumePatient self)) m -> Waits_running self m ->
  (forall p, patients m !! self = Some p ->
     point_ok (event_log m) (now (env m)) p /\ wake_at p (now (env m))) ->
  Waits (resume_patient self m).
Proof.
  intros HI HW Hself. pose proof (execute_Waits d0 self m HI HW Hself) as H.
  unfold wp in H. unfold resume_patient.
  destruct (execute self m) as [m' [[|]|e]].
  - done.
  - by apply Waits_schedule_other.
  - unfold fail_process. apply Waits_schedule_other; [|done].
    by apply Waits_settle.
Qed.

(** *** Arrivals *)

Lemma Waits_arriving_footprint t m m' :
  env m' = env m -> patients m' = patients m ->
  event_log m' = event_log m -> Waits_arriving t m -> Waits_arriving t m'.
Proof.
  intros He Hp Hl (HW & Hnow & Hpid). split; [|split].
  - by eapply Waits_footprint.
  - by rewrite He.
  - by rewrite He, Hp.
Qed.

Lemma Waits_arriving_append t m e :
  Waits_arriving t m -> ev_event e <> have_appointment ->
  t <= ev_time e <= t + 1 ->
  Waits_arriving t (set_event_log (event_log m ++ [e]) m).
Proof.
  intros (HW & Hnow & Hpid) He Ht. split; [|done].
  apply Waits_append_event; [done|by intros|lia].
Qed.

Lemma Waits_arriving_new_process t m p :
  Waits_arriving t m -> at_point p = at_start -> waiting_time p = None ->
  referral_t p = t ->
  Waits_arriving t
    (set_env (schedule (ResumePatient (length (patients m))) URGENT 0 (env m))
       (set_patients (patients m ++ [p]) m)).
Proof.
  intros ([] & Hnow & Hpid) Hat Hw Hp. split; [|split]; simpl.
  - constructor; simpl; try done.
    + intros pid q w Hq Hqw. apply lookup_app_Some in Hq as [Hq|[_ Hq]].
      * eauto.
      * apply list_lookup_singleton_Some in Hq as [_ <-]. congruence.
    + intros pid q best_t Hq Hqat.
      apply lookup_app_Some in Hq as [Hq|[_ Hq]].
      * eauto.
      * apply list_lookup_singleton_Some in Hq as [_ <-]. congruence.
    + intros it pid q Hit Htg Hq. apply elem_of_cons in Hit as [->|Hit].
      * simpl in Htg. simplify_eq.
        rewrite lookup_app_r, Nat.sub_diag in Hq by done.
        simpl in Hq. simplify_eq. unfold wake_at. rewrite Hat. simpl. lia.
      * specialize (Hpid it pid Hit Htg).
        rewrite lookup_app_l in Hq by done. eauto.
  - done.
  - intros it pid Hit Htg. rewrite length_app. simpl.
    apply elem_of_cons in Hit as [->|Hit].
    + simpl in Htg. simplify_eq. lia.
    + specialize (Hpid it pid Hit Htg). lia.
Qed.

Lemma new_referral_Waits t i m c (high_priority : bool) :
  Waits_arriving t m ->
  wp (pid ← new_process
             (new_patient t c
                (if high_priority then new_booker HighPriorityPooledBooker
                 else new_booker LowPriorityPooledBooker) (t, i));
      m0 ← gets id;
      if warm_up_period (args m0) <? now (env m0)
      then modify (fun m => set_referrals (referrals m ++ [pid]) m)
      else mret tt)
    (fun _ => Waits_arriving t) (Waits_arriving t) m.
Proof.
  intros HW.
  pose proof (Waits_arriving_new_process t m
                (new_patient t c
                   (if high_priority then new_booker HighPriorityPooledBooker
                    else new_booker LowPriorityPooledBooker) (t, i))
                HW eq_refl eq_refl eq_refl) as H.
  apply wp_bind. unfold wp at 1, new_process. cbv beta.
  apply wp_bind, wp_gets. cbv beta. simpl.
  destruct (warm_up_period (args m) <? now (env m)).
  - apply wp_modify. eapply Waits_arriving_footprint; [..|exact H]; done.
  - apply wp_ret. exact H.
Qed.

Lemma referral_Waits t i m :
  Waits_arriving t m ->
  wp (referral t i) (fun _ => Waits_arriving t) (Waits_arriving t) m.
Proof.
  intros HW. unfold referral.
  apply wp_bind, wp_draw. intros c ds.
  apply (Waits_arriving_footprint t m (set_args (set_dists ds (args m)) m))
    in HW; [|done..].
  generalize dependent (set_args (set_dists ds (args m)) m).
  clear m. intros m HW.
  apply wp_bind, wp_draw_referred_out; [|apply HW].
  intros triaged_out ds'.
  apply (Waits_arriving_footprint t m (set_args (set_dists ds' (args m)) m))
    in HW; [|done..].
  generalize dependent (set_args (set_dists ds' (args m)) m).
  clear m. intros m HW.
  destruct triaged_out; simpl.
  - apply wp_bind, wp_ret.
    apply wp_bind, wp_gets.
    apply wp_bind, wp_append_event.
    apply wp_bind, wp_append_event.
    apply wp_append_event.
    pose proof (proj1 (proj2 HW)) as Hnow.
    repeat apply Waits_arriving_append; simpl; (done || lia).
  - apply wp_bind.
    apply wp_conseq with (Q := fun _ => Waits_arriving t)
                         (E := Waits_arriving t).
    + apply wp_bind, wp_draw. intros high_priority ds''.
      apply (Waits_arriving_footprint t m
               (set_args (set_dists ds'' (args m)) m)) in HW; [|done..].
      by apply new_referral_Waits.
    + intros _ m' HW'. by apply wp_ret.
    + done.
Qed.

Lemma resume_arrivals_Waits m :
  Waits_arriving (arrivals_t m) m -> Waits (resume_arrivals m).
Proof.
  intros HW.
  assert (wp generate_arrivals (fun _ => Waits) Waits m) as H.
  { unfold generate_arrivals.
    apply wp_bind, wp_gets.
    apply wp_bind, wp_draw. intros n ds.
    apply (Waits_arriving_footprint _ m (set_args (set_dists ds (args m)) m))
      in HW; [|done..].
    apply wp_bind.
    eapply wp_conseq.
    - apply (wp_for_each _ _ (Waits_arriving (arrivals_t m))
               (Waits_arriving (arrivals_t m))); [|exact HW].
      intros i m' _ HW'. by apply referral_Waits.
    - intros _ m' (HW' & _ & _). simpl.
      apply wp_bind, wp_modify. cbv beta.
      unfold wp, timeout. simpl.
      apply (Waits_schedule_other (set_arrivals_t (arrivals_t m + 1) m'));
        [|done].
      eapply Waits_footprint; [| | |exact HW']; done.
    - intros m' HW'. apply HW'. }
  unfold wp in H. unfold resume_arrivals.
  destruct (generate_arrivals m) as [m' [[]|e]]; [done|].
  unfold fail_process. by apply Waits_schedule_other.
Qed.

(** *** The event loop *)

Lemma step_Waits d0 m m' st :
  Inv d0 None m -> Waits m -> step m = (m', st) -> Waits m'.
Proof.
  intros HI HW Hstep. unfold step in Hstep.
  destruct (heappop (heap (env m))) as [[it rest]|] eqn:Hpop;
    [|by simplify_eq].
  destruct (Inv_pop d0 m it rest HI Hpop) as (HI1 & Hnow & Harr & Hpat).
  apply heappop_Some in Hpop as [Hperm Hmin].
  assert (it ∈ heap (env m)) as Hit.
  { rewrite Hperm. apply list_elem_of_here. }
  assert (forall y, y ∈ rest -> y ∈ heap (env m)) as Hrest.
  { intros y Hy. rewrite Hperm. by apply list_elem_of_further. }
  assert (Waits
            (set_env (mkEnvironment (at_time it) (next_eid (env m)) rest) m))
    as HW1.
  { destruct HW as [Hclock Htimes ? ? ? ?]. constructor; simpl; eauto.
    - lia.
    - intros e He. specialize (Htimes e He). lia. }
  unfold active_of in HI1.
  destruct (target it) as [|pid| | |] eqn:Htg; simpl in HI1; simplify_eq;
    try done.
  - apply resume_arrivals_Waits. split; [done|]. split.
    + simpl. by apply Harr.
    + apply (inv_heap_pid _ _ _ HI1).
  - eapply resume_patient_Waits; [exact HI1| |].
    + split; [done|]. intros y Hy Hytg.
      by eapply (inv_idle _ _ _ HI1).
    + simpl. intros p Hp. split; [by eapply Hpat|].
      by eapply (waits_queue _ HW).
Qed.

Lemma Waits_start a g m0 : start_run (new_model a g) = Ok m0 -> Waits m0.
Proof.
  unfold start_run. intros H. case_match; [done|]. simplify_eq.
  constructor; simpl; try done.
  - intros e He. by apply elem_of_nil in He.
  - intros e He. by apply elem_of_nil in He.
Qed.

Lemma in_run_Waits f rl wu (w pool : matrix) caseload ds g m :
  in_run (new_scenario f rl wu w pool caseload ds) g m -> Waits m.
Proof.
  intros (m0 & st & Hstart & Hreach).
  pose proof (Inv_start _ _ _ _ _ _ _ _ _ Hstart) as HI0.
  pose proof (Waits_start _ _ _ Hstart) as HW0.
  induction Hreach as [|m m' st Hreach IH Hstep]; [done|].
  eapply step_Waits; [|by apply IH|done].
  by eapply reaches_Inv.
Qed.

(** In every state of a run, a waiting time that has been recorded for a
    patient is at least one day for a patient of priority 2 and at least
    six days for a patient of priority 1; so no overall waiting time of
    the results is below one day, none of the low priority results below
    six days. *)
Theorem recorded_waits f rl wu (w pool : matrix) caseload ds g m :
  in_run (new_scenario f rl wu w pool caseload ds) g m ->
  (forall pid p x,
     patients m !! pid = Some p -> waiting_time p = Some x ->
     (priority (booker p) = 2 -> 1 <= x)
     /\ (priority (booker p) = 1 -> 6 <= x))
  /\ (forall x, x ∈ results_all m -> 1 <= x)
  /\ (forall x, x ∈ results_high m -> 1 <= x)
  /\ (forall x, x ∈ results_low m -> 6 <= x).
Proof.
  intros Hrun. apply in_run_Waits in Hrun as HW.
  assert (forall pid p x,
            patients m !! pid = Some p -> waiting_time p = Some x ->
            least_wait (kind (booker p)) <= x) as Hrec
    by apply (waits_recorded _ HW).
  assert (forall p, p ∈ retained m -> exists pid, patients m !! pid = Some p)
    as Hret.
  { intros p Hp. unfold retained in Hp.
    apply list_elem_of_omap in Hp as (pid & _ & Hp). eauto. }
  split; [|split; [|split]].
  - intros pid p x Hp Hx. specialize (Hrec pid p x Hp Hx).
    unfold priority. destruct (kind (booker p)); simpl in Hrec;
      split; intros; lia.
  - intros x Hx. unfold results_all in Hx.
    apply list_elem_of_omap in Hx as (p & Hp & Hx).
    destruct (Hret p Hp) as [pid Hpid].
    specialize (Hrec pid p x Hpid Hx).
    destruct (kind (booker p)); simpl in Hrec; lia.
  - intros x Hx. unfold results_high in Hx.
    apply list_elem_of_omap in Hx as (p & Hp & Hx).
    apply list_elem_of_In, filter_In in Hp as [Hp _].
    apply list_elem_of_In in Hp.
    destruct (Hret p Hp) as [pid Hpid].
    specialize (Hrec pid p x Hpid Hx).
    destruct (kind (booker p)); simpl in Hrec; lia.
  - intros x Hx. unfold results_low in Hx.
    apply list_elem_of_omap in Hx as (p & Hp & Hx).
    apply list_elem_of_In, filter_In in Hp as [Hp Hprio].
    apply list_elem_of_In in Hp.
    destruct (Hret p Hp) as [pid Hpid].
    specialize (Hrec pid p x Hpid Hx).
    unfold priority in Hprio.
    destruct (kind (booker p)); simpl in Hrec; [lia|done].
Qed.

Lemma recorded_waits_witness :
  let m := (run small_scenario (constant 0) 40).1 in
  in_run small_scenario (constant 0) m
  /\ forall x, x ∈ results_all m -> 1 <= x.
Proof.
  intros m.
  assert (in_run small_scenario (constant 0) m) as Hrun.
  { eapply run_in_run. reflexivity. }
  split; [exact Hrun|].
  exact (proj1 (proj2 (recorded_waits _ _ _ _ _ _ _ _ _ Hrun))).
Defined.

(** In every state of a run, every attended assessment of the event log
    carries the wait that was recorded, [best_t - referral_t].  For a
    patient of priority 2 the wait is at least one day and the assessment
    is attended exactly that many days after the day of referral.  For a
    patient of priority 1 the wait is at least six days and the assessment
    is attended at least one day later than the recorded wait says,
    because the timeout that waits for the appointment is counted from the
    day of the booking, not from the day of referral. *)
Theorem attended_wait_recorded f rl wu (w pool : matrix) caseload ds g m e :
  in_run (new_scenario f rl wu w pool caseload ds) g m ->
  e ∈ event_log m -> ev_event e = have_appointment ->
  ev_type e = Some assessment ->
  exists x,
    ev_wait e = Some x
    /\ (ev_pathway e = Priority 2 ->
        1 <= x /\ ev_time e = (ev_patient e).1 + x)
    /\ (ev_pathway e = Priority 1 ->
        6 <= x /\ (ev_patient e).1 + x + 1 <= ev_time e).
Proof.
  intros Hrun He Hev Hty. apply in_run_Waits in Hrun as HW.
  by apply (waits_log _ HW).
Qed.

Lemma attended_wait_recorded_witness :
  let m := (run small_scenario (constant 0) 40).1 in
  exists e x,
    event_log m !! 15%nat = Some e
    /\ ev_wait e = Some x
    /\ (ev_pathway e = Priority 1 ->
        6 <= x /\ (ev_patient e).1 + x + 1 <= ev_time e).
Proof.
  intros m.
  assert (in_run small_scenario (constant 0) m) as Hrun.
  { eapply run_in_run. reflexivity. }
  destruct (event_log m !! 15%nat) as [e|] eqn:He;
    [|vm_compute in He; discriminate He].
  pose proof (list_elem_of_lookup_2 _ _ _ He) as Hin.
  assert (ev_event e = have_appointment /\ ev_type e = Some assessment)
    as [Hev Hty].
  { vm_compute in He. injection He as <-. split; reflexivity. }
  destruct (attended_wait_recorded _ _ _ _ _ _ _ _ _ _ Hrun Hin Hev Hty)
    as (x & Hx & _ & Hlow).
  exists e, x. split; [reflexivity|]. split; [exact Hx|exact Hlow].
Defined.

(** ** The end of the run *)

Lemma before_true a b :
  before a b = true <->
  at_time a < at_time b
  \/ (at_time a = at_time b
      /\ ((urgency a < urgency b)%nat
          \/ (urgency a = urgency b /\ (eid a < eid b)%nat))).
Proof.
  unfold before.
  rewrite orb_true_iff, andb_true_iff, orb_true_iff, andb_true_iff.
  rewrite Z.ltb_lt, Z.eqb_eq, Nat.ltb_lt, Nat.eqb_eq, Nat.ltb_lt. done.
Qed.

Lemma before_false a b :
  before a b = false <->
  at_time b < at_time a
  \/ (at_time a = at_time b
      /\ ((urgency b < urgency a)%nat
          \/ (urgency a = urgency b /\ (eid b <= eid a)%nat))).
Proof. rewrite <- not_true_iff_false, before_true. lia. Qed.

(** [heappop] takes out an entry that no entry that stays comes before. *)
Lemma heappop_least q x rest :
  heappop q = Some (x, rest) -> forall y, y ∈ rest -> before y x = false.
Proof.
  revert x rest. induction q as [|z q IH]; intros x rest H; simpl in H;
    [done|].
  destruct (heappop q) as [[y rest']|] eqn:Hq.
  - pose proof (IH y rest' eq_refl) as Hmin.
    destruct (before y z) eqn:Hb; simplify_eq.
    + intros w Hw. apply elem_of_cons in Hw as [->|Hw].
      * apply before_true in Hb. apply before_false. lia.
      * by apply Hmin.
    + intros w Hw. apply heappop_Some in Hq as [Hperm _].
      rewrite Hperm in Hw. apply elem_of_cons in Hw as [->|Hw]; [done|].
      specialize (Hmin w Hw). apply before_false in Hb, Hmin.
      apply before_false. lia.
  - simplify_eq. destruct q; [|simpl in Hq; repeat case_match; done].
    intros y Hy. by apply elem_of_nil in Hy.
Qed.

Lemma queue_grows_same m m' : env m' = env m -> queue_grows m m'.
Proof. intros He. constructor; rewrite He; auto. Qed.

#[local] Instance queue_grows_preorder : PreOrder queue_grows.
Proof.
  split.
  - intros m. by apply queue_grows_same.
  - intros m1 m2 m3 [Hn1 He1 Hk1 Hw1] [Hn2 He2 Hk2 Hw2]. constructor.
    + congruence.
    + lia.
    + auto.
    + intros it Hit. destruct (Hw2 it Hit) as [Hit2|[Htg Heid]].
      * auto.
      * right. split; [done|lia].
Qed.

Lemma queue_grows_schedule tg prio delay m :
  tg <> Until -> queue_grows m (set_env (schedule tg prio delay (env m)) m).
Proof.
  intros Htg. constructor; simpl.
  - done.
  - lia.
  - intros it Hit. by apply list_elem_of_further.
  - intros it Hit. apply elem_of_cons in Hit as [->|Hit]; [|by left].
    right. simpl. split; [done|lia].
Qed.

Lemma respects_queue_same {A : Type} (c : Prog Model A) :
  (forall m, env (c m).1 = env m) -> respects queue_grows c.
Proof. intros Hc m. by apply queue_grows_same. Qed.

Lemma queue_draw {A : Type} (get : Distributions -> Dist A) set :
  respects queue_grows (draw get set).
Proof. apply respects_queue_same. intros m. unfold draw. done. Qed.

Lemma queue_draw_referred_out clinic_id :
  respects queue_grows (draw_referred_out clinic_id).
Proof.
  apply respects_queue_same. intros m. unfold draw_referred_out.
  by destruct (clinics (dists (args m)) !! clinic_id).
Qed.

Lemma queue_append_event e : respects queue_grows (append_event e).
Proof. by apply respects_queue_same. Qed.

Lemma queue_self_obj self : respects queue_grows (self_obj self).
Proof. by apply respects_queue_same. Qed.

Lemma queue_update_self self f : respects queue_grows (update_self self f).
Proof. by apply respects_queue_same. Qed.

Lemma queue_on_diary {A : Type} (p : Prog Diary A) :
  respects queue_grows (on_diary p).
Proof.
  apply respects_queue_same. intros m. unfold on_diary.
  by destruct (p (diary (args m))).
Qed.

Lemma queue_find_slot_in_model b t c limit :
  respects queue_grows (find_slot_in_model b t c limit).
Proof.
  apply respects_queue_same. intros m. unfold find_slot_in_model.
  by destruct (find_slot _ _ _ _ _ _ _) as [[[best_t c'] g']|e].
Qed.

Lemma queue_caseload_add k v : respects queue_grows (caseload_add k v).
Proof.
  apply respects_queue_same. intros m. unfold caseload_add.
  by destruct (existing_caseload (args m) !! k).
Qed.

Lemma queue_timeout tg delay :
  tg <> Until -> respects queue_grows (timeout tg delay).
Proof.
  intros Htg m. unfold timeout. destruct (delay <? 0); simpl; [reflexivity|].
  by apply queue_grows_schedule.
Qed.

Lemma queue_new_process p : respects queue_grows (new_process p).
Proof.
  intros m. unfold new_process. simpl.
  etrans; [apply (queue_grows_same m (set_patients (patients m ++ [p]) m))|].
  - done.
  - by apply (queue_grows_schedule _ _ _
                (set_patients (patients m ++ [p]) m)).
Qed.

Lemma queue_modify (f : Model -> Model) :
  (forall m, env (f m) = env m) -> respects queue_grows (modify f).
Proof. intros Hf. by apply respects_queue_same. Qed.

#[local] Hint Resolve queue_draw queue_draw_referred_out queue_append_event
  queue_self_obj queue_update_self queue_on_diary queue_find_slot_in_model
  queue_caseload_add queue_timeout queue_new_process queue_modify : respects.

#[local] Hint Extern 1 (_ <> Until) => discriminate : respects.

Lemma queue_yield_timeout self delay pt :
  respects queue_grows (yield_timeout self delay pt).
Proof. unfold yield_timeout. repeat respects_step. Qed.

#[local] Hint Resolve queue_yield_timeout : respects.

Lemma queue_discharge self : respects queue_grows (discharge self).
Proof. unfold discharge. repeat respects_step. Qed.

#[local] Hint Resolve queue_discharge : respects.

Lemma queue_follow_up_iteration self i num_appts rb :
  respects queue_grows (follow_up_iteration self i num_appts rb).
Proof. unfold follow_up_iteration. repeat respects_step. Qed.

Lemma queue_book_and_wait self best_t :
  respects queue_grows (book_and_wait self best_t).
Proof. unfold book_and_wait. repeat respects_step. Qed.

#[local] Hint Resolve queue_follow_up_iteration queue_book_and_wait
  : respects.

Lemma queue_draw_by_priority p gl gh sl sh :
  respects queue_grows (draw_by_priority p gl gh sl sh).
Proof. unfold draw_by_priority. repeat respects_step. Qed.

#[local] Hint Resolve queue_draw_by_priority : respects.

Lemma queue_execute self : respects queue_grows (execute self).
Proof.
  unfold execute. respects_step; [respects_step|]. respects_step.
  - unfold execute_at_start. repeat respects_step.
  - unfold execute_after_leapfrog_delay. repeat respects_step.
  - unfold execute_awaiting_headroom. repeat respects_step.
  - unfold execute_awaiting_assessment. repeat respects_step.
  - unfold execute_awaiting_follow_up. repeat respects_step.
  - respects_step.
Qed.

Lemma queue_referral t i : respects queue_grows (referral t i).
Proof. unfold referral. repeat respects_step. Qed.

Lemma queue_generate_arrivals : respects queue_grows generate_arrivals.
Proof.
  unfold generate_arrivals. respects_step; [respects_step|].
  respects_step; [respects_step|]. respects_step.
  - apply (respects_for_each queue_grows). intros i. apply queue_referral.
  - repeat respects_step.
Qed.

Lemma resume_patient_grows self m : queue_grows m (resume_patient self m).
Proof.
  unfold resume_patient. pose proof (queue_execute self m) as H.
  destruct (execute self m) as [m' [[|]|e]]; simpl in H.
  - done.
  - etrans; [done|]. by apply queue_grows_schedule.
  - etrans; [done|]. unfold fail_process.
    etrans; [|by apply queue_grows_schedule].
    by apply queue_grows_same.
Qed.

Lemma resume_arrivals_grows m : queue_grows m (resume_arrivals m).
Proof.
  unfold resume_arrivals. pose proof (queue_generate_arrivals m) as H.
  destruct (generate_arrivals m) as [m' [[]|e]]; simpl in H; [done|].
  etrans; [done|]. by apply queue_grows_schedule.
Qed.

Lemma Horizon_grows rl m m' :
  Horizon rl m -> queue_grows m m' -> Horizon rl m'.
Proof.
  intros [Hnow (u & Hu & Hutg) Huntil Hothers Hnext] [Hn He Hk Hw].
  constructor.
  - by rewrite Hn.
  - exists u. auto.
  - intros it Hit Htg. destruct (Hw it Hit) as [Hold|[Hne _]]; [auto|done].
  - intros it Hit Htg. destruct (Hw it Hit) as [Hold|[_ Heid]]; [auto|].
    right. lia.
  - lia.
Qed.

Lemma Horizon_start a g m0 :
  start_run (new_model a g) = Ok m0 -> Horizon (run_length a) m0.
Proof.
  unfold start_run. intros H. case_match eqn:Hrl; [done|]. simplify_eq.
  simpl in Hrl. apply Z.leb_gt in Hrl.
  constructor; simpl.
  - lia.
  - eexists. split; [apply list_elem_of_here|done].
  - intros it Hit Htg. apply elem_of_cons in Hit as [->|Hit].
    + simpl. split; [lia|done].
    + apply list_elem_of_singleton in Hit as ->. done.
  - intros it Hit Htg. apply elem_of_cons in Hit as [->|Hit]; [done|].
    apply list_elem_of_singleton in Hit as ->. by left.
  - lia.
Qed.

(** One event of the loop, seen from the end of the run. *)
Lemma step_Horizon d0 rl m m' st :
  Inv d0 None m -> Horizon rl m -> step m = (m', st) ->
  (st = Running -> Horizon rl m')
  /\ (st = Stopped -> now (env m') = rl /\ event_log m' = event_log m)
  /\ (st <> Stopped -> now (env m') < rl).
Proof.
  intros HI HH Hstep. unfold step in Hstep.
  destruct (heappop (heap (env m))) as [[it rest]|] eqn:Hpop.
  2:{ simplify_eq. split; [done|]. split; [done|]. intros _.
      apply (hz_now _ _ HH). }
  destruct (Inv_pop d0 m it rest HI Hpop) as (_ & Hnow & _).
  pose proof (heappop_least _ _ _ Hpop) as Hleast.
  apply heappop_Some in Hpop as [Hperm _].
  assert (it ∈ heap (env m)) as Hit.
  { rewrite Hperm. apply list_elem_of_here. }
  assert (forall y, y ∈ rest -> y ∈ heap (env m)) as Hrest.
  { intros y Hy. rewrite Hperm. by apply list_elem_of_further. }
  assert (target it = Until \/ target it <> Until) as [Htg|Htg].
  { destruct (target it); (by left) || (by right). }
  { rewrite Htg in Hstep. simplify_eq. simpl.
    destruct (hz_until _ _ HH it Hit Htg) as (Ht & _).
    split; [done|]. split; [done|]. done. }
  destruct (hz_queued _ _ HH) as (u & Hu & Hutg).
  assert (u ∈ rest) as Hurest.
  { rewrite Hperm in Hu. apply elem_of_cons in Hu as [->|Hu]; done. }
  destruct (hz_until _ _ HH u Hu Hutg) as (Hut & Huu & Hue).
  assert (at_time it < rl) as Hlt.
  { specialize (Hleast u Hurest). apply before_false in Hleast.
    pose proof (hz_now _ _ HH).
    destruct (hz_others _ _ HH it Hit Htg); unfold URGENT in *; lia. }
  assert (Horizon rl
            (set_env (mkEnvironment (at_time it) (next_eid (env m)) rest) m))
    as HH1.
  { destruct HH as [Hn Hq Hun Hot Hne]. constructor; simpl; eauto.
    lia. }
  destruct (target it) eqn:Htarget; simplify_eq.
  - split; [|split]; [|done|].
    + intros _. eapply Horizon_grows; [exact HH1|].
      apply resume_arrivals_grows.
    + intros _. rewrite (grows_now _ _ (resume_arrivals_grows _)). done.
  - split; [|split]; [|done|].
    + intros _. eapply Horizon_grows; [exact HH1|].
      apply resume_patient_grows.
    + intros _. rewrite (grows_now _ _ (resume_patient_grows _ _)). done.
  - split; [|split]; done.
  - split; [|split]; done.
Qed.

Lemma reaches_Horizon f rl wu (w pool : matrix) caseload ds g m0 m st :
  start_run (new_model (new_scenario f rl wu w pool caseload ds) g) = Ok m0 ->
  reaches m0 m st ->
  (st = Running -> Horizon rl m)
  /\ (st = Stopped -> now (env m) = rl)
  /\ (st <> Stopped -> now (env m) < rl)
  /\ (forall e, e ∈ event_log m -> 0 <= ev_time e <= rl).
Proof.
  intros Hstart Hreach.
  pose proof (Inv_start _ _ _ _ _ _ _ _ _ Hstart) as HI0.
  induction Hreach as [|m m' st Hreach IH Hstep].
  - pose proof (Horizon_start _ _ _ Hstart) as HH. simpl in HH.
    pose proof (Waits_start _ _ _ Hstart) as HW.
    pose proof (hz_now _ _ HH).
    split; [done|]. split; [done|]. split; [intros _; lia|].
    intros e He. pose proof (waits_times _ HW e He). lia.
  - destruct IH as (HH & _ & _ & Hlog). specialize (HH eq_refl).
    assert (Waits m') as HW'.
    { eapply in_run_Waits. exists m0, st. split; [exact Hstart|].
      by eapply reaches_step. }
    pose proof (reaches_Inv _ _ _ _ HI0 Hreach) as HI.
    destruct (step_Horizon _ _ _ _ _ HI HH Hstep) as (Hrun & Hstop & Hgo).
    split; [done|]. split; [by intros Hst; apply Hstop|]. split; [done|].
    intros e He.
    assert (st = Stopped \/ st <> Stopped) as [Hst|Hst].
    { destruct st; (by left) || (by right). }
    + destruct (Hstop Hst) as [_ Hsame]. rewrite Hsame in He. by apply Hlog.
    + specialize (Hgo Hst). pose proof (waits_times _ HW' e He). lia.
Qed.

Lemma run_reaches a g fuel m0 :
  start_run (new_model a g) = Ok m0 ->
  reaches m0 (run a g fuel).1 (run a g fuel).2.
Proof.
  intros H. unfold run. rewrite H. apply run_steps_reaches. constructor.
Qed.

(** A run of a scenario with run length [rl] that has started, in every
    state it reaches: the clock shows a day from 0 to [rl], and it shows
    [rl] exactly when the run has stopped at the end of its length; every
    event of the log has a time from 0 to [rl], so nothing is logged for a
    time after the end of the run. *)
Theorem run_ends_at_run_length f rl wu (w pool : matrix) caseload ds g m0 m
    st :
  start_run (new_model (new_scenario f rl wu w pool caseload ds) g) = Ok m0 ->
  reaches m0 m st ->
  0 <= now (env m) <= rl
  /\ (now (env m) = rl <-> st = Stopped)
  /\ (forall e, e ∈ event_log m -> 0 <= ev_time e <= rl).
Proof.
  intros Hstart Hreach.
  destruct (reaches_Horizon _ _ _ _ _ _ _ _ _ _ _ Hstart Hreach)
    as (_ & Hstop & Hgo & Hlog).
  assert (0 <= now (env m)) as Hclock.
  { apply (waits_clock m). eapply in_run_Waits.
    exists m0, st. split; [exact Hstart|exact Hreach]. }
  assert (st = Stopped \/ st <> Stopped) as [Hst|Hst].
  { destruct st; (by left) || (by right). }
  - specialize (Hstop Hst). split; [lia|]. split; [done|done].
  - specialize (Hgo Hst). split; [lia|]. split; [|done].
    split; [lia|done].
Qed.

Lemma run_ends_at_run_length_witness :
  let r := run small_scenario (constant 0) 40 in
  r.2 = Stopped /\ now (env r.1) = 20.
Proof.
  intros r.
  destruct (start_run (new_model small_scenario (constant 0))) as [m0|e]
    eqn:Hstart; [|vm_compute in Hstart; discriminate Hstart].
  pose proof (run_reaches _ _ 40 _ Hstart) as Hreach.
  destruct (run_ends_at_run_length _ _ _ _ _ _ _ _ _ _ _ Hstart Hreach)
    as (_ & Hiff & _).
  assert (r.2 = Stopped) as Hst by (vm_compute; reflexivity).
  split; [exact Hst|]. exact (proj2 Hiff Hst).
Defined.

Lemma heappop_None q : heappop q = None -> q = [].
Proof.
  destruct q as [|x q]; [done|]. simpl.
  destruct (heappop q) as [[y rest]|]; [|done].
  by destruct (before y x).
Qed.

(** A run that has started never finds its queue empty: while the loop is
    running, the event that ends the run is still queued, for the day
    [rl]; so the loop goes on until it stops there or until the exception
    of a failed process surfaces. *)
Theorem run_queue_never_empty f rl wu (w pool : matrix) caseload ds g m0 m
    st :
  start_run (new_model (new_scenario f rl wu w pool caseload ds) g) = Ok m0 ->
  reaches m0 m st ->
  st <> EmptySchedule
  /\ (st = Running ->
      exists u, u ∈ heap (env m) /\ target u = Until /\ at_time u = rl).
Proof.
  intros Hstart Hreach. split.
  - destruct Hreach as [|m m' st Hreach Hstep]; [done|].
    destruct (reaches_Horizon _ _ _ _ _ _ _ _ _ _ _ Hstart Hreach)
      as (HH & _).
    destruct (hz_queued _ _ (HH eq_refl)) as (u & Hu & _).
    unfold step in Hstep.
    destruct (heappop (heap (env m))) as [[it rest]|] eqn:Hpop.
    + destruct (target it); by simplify_eq.
    + apply heappop_None in Hpop. rewrite Hpop in Hu.
      by apply elem_of_nil in Hu.
  - intros Hst.
    destruct (reaches_Horizon _ _ _ _ _ _ _ _ _ _ _ Hstart Hreach)
      as (HH & _).
    specialize (HH Hst). destruct (hz_queued _ _ HH) as (u & Hu & Hutg).
    exists u. split; [done|]. split; [done|].
    by apply (hz_until _ _ HH).
Qed.

Lemma run_queue_never_empty_witness :
  let r := run small_scenario (constant 0) 5 in
  r.2 = Running
  /\ exists u, u ∈ heap (env r.1) /\ target u = Until /\ at_time u = 20.
Proof.
  intros r.
  destruct (start_run (new_model small_scenario (constant 0))) as [m0|e]
    eqn:Hstart; [|vm_compute in Hstart; discriminate Hstart].
  pose proof (run_reaches _ _ 5 _ Hstart) as Hreach.
  assert (r.2 = Running) as Hst by (vm_compute; reflexivity).
  split; [exact Hst|].
  exact (proj2 (run_queue_never_empty _ _ _ _ _ _ _ _ _ _ _ Hstart Hreach)
           Hst).
Defined.
